(** * bloomdb: the two-phase bulk upsert of [upsert.go]

    A shallow embedding of package [bloomdb]: the template helper table
    [fns], [buildQuery] and [Upsert], in the revision with revisions,
    index and log, and in the earlier revision without them.  The
    database ([database/sql] with the [pq] driver), the template engine
    ([text/template]) and the clock are collaborators of the package:
    they are parameters of the model, and every call that [Upsert] makes
    on them is recorded, in order, in a trace. *)

From Stdlib Require Import ZArith String Ascii List Lia.
From stdpp Require Import base decidable list strings.

Local Open Scope Z_scope.

(** ** Go's [int], at its size of 64 bits on amd64 and arm64 *)

Module GoInt.

Definition int_min : Z := -9223372036854775808.
Definition int_max : Z := 9223372036854775807.
Definition modulus : Z := 18446744073709551616.

Definition in_range (z : Z) : Prop := int_min <= z <= int_max.

(** Two's complement wrap-around of a mathematical integer. *)
Definition wrap (z : Z) : Z := (z - int_min) mod modulus + int_min.

Definition add (x y : Z) : Z := wrap (x + y).
Definition sub (x y : Z) : Z := wrap (x - y).

(** [x % y] for [y <> 0]: the remainder of the truncated division. *)
Definition rem (x y : Z) : Z := Z.rem x y.

End GoInt.

(** ** Values of type [interface{}] *)

(** The dynamic values that reach the helpers and the copy statement:
    the nil interface, the comparable basic types, and [[]string] (the
    type of [upsertInfo.Columns]), which Go cannot compare. *)
Inductive iface : Type :=
| INil
| IBool (b : bool)
| IInt (n : Z)
| IString (s : string)
| IStrings (l : list string).

#[global] Instance iface_eq_dec : EqDecision iface.
Proof. solve_decision. Defined.

(** The outcome of evaluating a Go expression that may panic. *)
Inductive outcome (A : Type) : Type :=
| Returns (a : A)
| Panics.
Arguments Returns {A} a.
Arguments Panics {A}.

(** [x == y] on two [interface{}] operands: operands of different dynamic
    types are unequal; operands of the same comparable type are compared
    by value; operands of the same uncomparable type are a run-time
    panic. *)
Definition iface_equal (x y : iface) : outcome bool :=
  match x, y with
  | INil, INil => Returns true
  | IBool a, IBool b => Returns (bool_decide (a = b))
  | IInt a, IInt b => Returns (a =? b)
  | IString a, IString b => Returns (bool_decide (a = b))
  | IStrings _, IStrings _ => Panics
  | _, _ => Returns false
  end.

Definition comparable (x : iface) : bool :=
  match x with
  | IStrings _ => false
  | _ => true
  end.

(** ** The helper table [fns] *)

(** ["eq": func(x, y interface{}) bool { return x == y }] *)
Definition fn_eq (x y : iface) : outcome bool := iface_equal x y.

(** ["sub": func(y, x int) int { return x - y }] *)
Definition fn_sub (y x : Z) : Z := GoInt.sub x y.

Inductive template_func : Type :=
| FuncIfaceIfaceBool (f : iface -> iface -> outcome bool)
| FuncIntIntInt (f : Z -> Z -> Z).

Definition FuncMap : Type := list (string * template_func).

Definition fns : FuncMap :=
  [ ("eq", FuncIfaceIfaceBool fn_eq);
    ("sub", FuncIntIntInt fn_sub) ].

(** ** Strings *)

(** [strings.Replace(s, old, new, -1)] for one-byte [old] and [new]:
    every occurrence of the byte is replaced. *)
Fixpoint strings_Replace (s : string) (old new : ascii) : string :=
  match s with
  | EmptyString => EmptyString
  | String c rest =>
      String (if Ascii.eqb c old then new else c) (strings_Replace rest old new)
  end.

(** [tempTable := strings.Replace(table, ".", "_", -1) + "_temp"] *)
Definition tempTable_of (table : string) : string :=
  strings_Replace table "."%char "_"%char +:+ "_temp".

Fixpoint contains_byte (c : ascii) (s : string) : bool :=
  match s with
  | EmptyString => false
  | String d rest => Ascii.eqb d c || contains_byte c rest
  end.

(** ** Rows *)

(** An argument of [stmt.Exec]: [nil] (SQL NULL) or a Go string. *)
Abbreviation value := iface.

(** The inner loop of [Upsert]:
    [for i, column := range rawRow { if column == "" { row[i] = nil } else { row[i] = column } }],
    started at index [i] on the remaining fields. *)
Fixpoint fill_row (i : nat) (rawRow : list string) (row : list value) : list value :=
  match rawRow with
  | [] => row
  | column :: rest =>
      let cell := if bool_decide (column = "") then INil else IString column in
      fill_row (S i) rest (<[i := cell]> row)
  end.

(** [row := make([]interface{}, len(rawRow))] followed by the loop. *)
Definition convert_row (rawRow : list string) : list value :=
  fill_row 0 rawRow (replicate (length rawRow) INil).

(** ** The collaborators: database, template engine, clock *)

(** Go's [error] interface: a value with an [Error() string] method. *)
Record error : Type := mkError { Error : string }.

#[global] Instance error_eq_dec : EqDecision error.
Proof. solve_decision. Defined.

(** The calls of [database/sql] that the package can make.  A
    transaction is named by the number of the [db.Begin] that opened it
    (1 for the first, 2 for the second).  [StmtExec] is [stmt.Exec] on
    the prepared copy statement: with arguments it appends a row, without
    arguments it flushes the copy. *)
Inductive call : Type :=
| DbBegin
| DbExec (query : string)
| TxExec (tx : nat) (query : string)
| TxPrepare (tx : nat) (query : string)
| TxCommit (tx : nat)
| TxRollback (tx : nat)
| StmtExec (args : list value)
| StmtClose.

#[global] Instance call_eq_dec : EqDecision call.
Proof. solve_decision. Defined.

(** What a call answers: success (for an [Exec], with the result's
    [RowsAffected]) or an error. *)
Inductive reply : Type :=
| Ok (rowsAffected : Z)
| Failed (err : error).

#[global] Instance reply_eq_dec : EqDecision reply.
Proof. solve_decision. Defined.

(** The lines written through package [log]. *)
Inductive log_line : Type :=
| LogStarting                       (* "Starting database write..." *)
| LogProcessed (rowsProcessed : Z)  (* "Processed %d rows..." *)
| LogTotal (rowsProcessed minutes seconds : Z)
                                    (* "Processed %d rows total, took %d:%02d" *)
| LogCreatingIndex                  (* "Creating table index" *)
| LogAnalyzing                      (* "Analyzing table" *)
| LogCalculating                    (* "Calculating revisions..." *)
| LogUpdatedRevision (affected : Z) (* "Updated revision on %d rows" *)
| LogPerforming                     (* "Performing upsert..." *)
| LogCommitting                     (* "Committing transaction..." *)
| LogDone.                          (* "Done" *)

#[global] Instance log_line_eq_dec : EqDecision log_line.
Proof. solve_decision. Defined.

(** Everything observable that a run does, in order. *)
Inductive event : Type :=
| Called (c : call) (r : reply)
| Logged (l : log_line)
| Printed (table : string) (row : list value).
    (* fmt.Println("table", table, "row", row) *)

#[global] Instance event_eq_dec : EqDecision event.
Proof. solve_decision. Defined.

Definition trace : Type := list event.

(** The database: its answer to a call, given the calls it has answered
    so far. *)
Abbreviation database := (list (call * reply) -> call -> reply).

(** The part of a trace the database has seen: the calls and their
    answers. *)
Definition history (tr : trace) : list (call * reply) :=
  omap (fun ev => match ev with Called c r => Some (c, r) | _ => None end) tr.

(** The number of transactions opened so far. *)
Definition opens_tx (ev : event) : bool :=
  match ev with
  | Called DbBegin (Ok _) => true
  | _ => false
  end.

Definition begun (tr : trace) : nat := length (List.filter opens_tx tr).

Record upsertInfo : Type := mkUpsertInfo {
  Table : string;
  TempTable : string;
  IdColumn : string;
  HasRevisions : bool;
  Columns : list string
}.

(** [time.Second], in nanoseconds. *)
Definition time_Second : Z := 1000000000.

(** [t.Sub(u)]: the difference as an [int64] of nanoseconds, saturated. *)
Definition time_Sub (t u : Z) : Z :=
  Z.max GoInt.int_min (Z.min GoInt.int_max (t - u)).

(** ** The effects of [Upsert] *)

(** A computation reads and extends the trace and either returns a value
    or leaves with the error that the Go function returns. *)
Definition M (A : Type) : Type := trace -> trace * (A + error).

Definition ret {A} (a : A) : M A := fun tr => (tr, inl a).

Definition throw {A} (e : error) : M A := fun tr => (tr, inr e).

Definition bind {A B} (m : M A) (k : A -> M B) : M B :=
  fun tr =>
    match m tr with
    | (tr', inl a) => k a tr'
    | (tr', inr e) => (tr', inr e)
    end.

Notation "'let*' x ':=' m 'in' k" := (bind m (fun x => k))
  (at level 10, x pattern, m at level 100, k at level 200).

Definition emit (ev : event) : M unit := fun tr => (tr ++ [ev], inl tt).

Definition log (l : log_line) : M unit := emit (Logged l).

(** [if err != nil { return err }] on the answer of a call. *)
Definition check (r : reply) : M Z :=
  match r with
  | Ok n => ret n
  | Failed err => throw err
  end.

Section Pipeline.

Variable db : database.

(** [time.Now()], in nanoseconds. *)
Variable now : list (call * reply) -> Z.

(** [pq.CopyIn(table, columns...)]: the text of the copy statement. *)
Variable CopyIn : string -> list string -> string.

(** [text/template]: [template.New(name).Funcs(funcs).ParseFiles(path)]
    and [t.Execute(buf, info)], the latter giving the text written to
    [buf].  The template files under [sql/] are read by [ParseFiles]. *)
Variable Template : Type.
Variable ParseFiles : string -> FuncMap -> string -> Template + error.
Variable Execute : Template -> upsertInfo -> string + error.

Definition do_call (c : call) : M reply :=
  fun tr => let r := db (history tr) c in (tr ++ [Called c r], inl r).

(** A call whose error is returned at once. *)
Definition must (c : call) : M Z :=
  let* r := do_call c in check r.

(** [txn, err := db.Begin(); if err != nil { return err }] *)
Definition Begin : M nat :=
  let* _ := must DbBegin in
  fun tr => (tr, inl (begun tr)).

Definition time_Now : M Z := fun tr => (tr, inl (now (history tr))).

Definition buildQuery (table tempTable idColumn : string) (columns : list string)
    (hasRevisions : bool) : string * string * option error :=
  match ParseFiles "upsert.sql.template" fns "sql/upsert.sql.template" with
  | inr err => ("", "", Some err)
  | inl t =>
      let info := mkUpsertInfo table tempTable idColumn hasRevisions columns in
      match Execute t info with
      | inr err => ("", "", Some err)
      | inl upsertBuf =>
          if hasRevisions then
            match ParseFiles "updaterevisions.sql.template" fns
                    "sql/updaterevisions.sql.template" with
            | inr err => ("", "", Some err)
            | inl t =>
                match Execute t info with
                | inr err => ("", "", Some err)
                | inl revisionBuf => (upsertBuf, revisionBuf, None)
                end
            end
          else (upsertBuf, "", None)
      end
  end.

(** [for rawRow := range rows { ... }], with the counter on entry. *)
Fixpoint copy_rows (table : string) (rows : list (list string)) (rowsProcessed : Z)
    : M Z :=
  match rows with
  | [] => ret rowsProcessed
  | rawRow :: rest =>
      let row := convert_row rawRow in
      let* r := do_call (StmtExec row) in
      match r with
      | Failed err =>
          let* _ := emit (Printed table row) in
          throw err
      | Ok _ =>
          let rowsProcessed := GoInt.add rowsProcessed 1 in
          let* _ := (if GoInt.rem rowsProcessed 100000 =? 0
                     then log (LogProcessed rowsProcessed)
                     else ret tt) in
          copy_rows table rest rowsProcessed
      end
  end.

Definition create_temp_sql (table tempTable : string) : string :=
  "CREATE TEMP TABLE " +:+ tempTable +:+ "(LIKE " +:+ table +:+ ")".

Definition create_index_sql (tempTable idColumn : string) : string :=
  "CREATE UNIQUE INDEX ON " +:+ tempTable +:+ "(" +:+ idColumn +:+ ")".

Definition analyze_sql (tempTable : string) : string :=
  "ANALYZE " +:+ tempTable.

(** From [startTime := time.Now()] to the log of the total: the first
    transaction, which only copies the stream into the staging table. *)
Definition stagingLoad (table tempTable : string) (columns : list string)
    (rows : list (list string)) : M Z :=
  let* startTime := time_Now in
  let* _ := log LogStarting in
  let* txn := Begin in
  let* _ := must (TxExec txn (create_temp_sql table tempTable)) in
  let* _ := must (TxPrepare txn (CopyIn tempTable columns)) in
  let* rowsProcessed := copy_rows table rows 0 in
  let* _ := must (StmtExec []) in
  let* _ := must StmtClose in
  let* _ := must (TxCommit txn) in
  let* endTime := time_Now in
  let duration := Z.quot (time_Sub endTime startTime) time_Second in
  let* _ := log (LogTotal rowsProcessed (Z.quot duration 60) (Z.rem duration 60)) in
  ret rowsProcessed.

(** The unique index and the statistics, outside any transaction.  The
    error of [ANALYZE] is assigned to [err] and overwritten by the
    next statement, [txn, err = db.Begin()]. *)
Definition prepareIndex (tempTable idColumn : string) : M unit :=
  let* _ := log LogCreatingIndex in
  let* _ := must (DbExec (create_index_sql tempTable idColumn)) in
  let* _ := log LogAnalyzing in
  let* _ := do_call (DbExec (analyze_sql tempTable)) in
  ret tt.

(** The second transaction: revisions, upsert, commit. *)
Definition mergePhase (query revisionQuery : string) : M unit :=
  let* txn := Begin in
  let* _ := (if bool_decide (revisionQuery <> "")
             then
               let* _ := log LogCalculating in
               let* affected := must (TxExec txn revisionQuery) in
               log (LogUpdatedRevision affected)
             else ret tt) in
  let* _ := log LogPerforming in
  let* _ := must (TxExec txn query) in
  let* _ := log LogCommitting in
  let* _ := must (TxCommit txn) in
  log LogDone.

(** [func Upsert(db, table, idColumn, columns, rows, hasRevisions) error]:
    [inl tt] is the [nil] error.  The channel [rows] is the list of the
    records received from it until it is closed. *)
Definition Upsert (table idColumn : string) (columns : list string)
    (rows : list (list string)) (hasRevisions : bool) : M unit :=
  let tempTable := tempTable_of table in
  match buildQuery table tempTable idColumn columns hasRevisions with
  | (_, _, Some err) => throw err
  | (query, revisionQuery, None) =>
      let* _ := stagingLoad table tempTable columns rows in
      let* _ := prepareIndex tempTable idColumn in
      mergePhase query revisionQuery
  end.

End Pipeline.


(** ** The earlier revision, [upsert.go]

    The same package before revisions, index and log were added: one
    transaction creates the staging table, copies the stream into it,
    runs the upsert and commits.  The helpers [fns] and the conversion of
    a row are the same. *)

Module Legacy.

Record upsertInfo : Type := mkUpsertInfo {
  Table : string;
  TempTable : string;
  IdColumn : string;
  Columns : list string
}.

Section Pipeline.

Variable db : database.
Variable CopyIn : string -> list string -> string.
Variable Template : Type.
Variable ParseFiles : string -> FuncMap -> string -> Template + error.
Variable Execute : Template -> upsertInfo -> string + error.

Definition buildQuery (table tempTable idColumn : string) (columns : list string)
    : string * option error :=
  match ParseFiles "upsert.sql.template" fns "sql/upsert.sql.template" with
  | inr err => ("", Some err)
  | inl t =>
      let info := mkUpsertInfo table tempTable idColumn columns in
      match Execute t info with
      | inr err => ("", Some err)
      | inl buf => (buf, None)
      end
  end.

(** [for rawRow := range rows { ... }]: no counter in this revision. *)
Fixpoint copy_rows (table : string) (rows : list (list string)) : M unit :=
  match rows with
  | [] => ret tt
  | rawRow :: rest =>
      let row := convert_row rawRow in
      let* r := do_call db (StmtExec row) in
      match r with
      | Failed err =>
          let* _ := emit (Printed table row) in
          throw err
      | Ok _ => copy_rows table rest
      end
  end.

Definition create_temp_sql (table tempTable : string) : string :=
  "CREATE TEMP TABLE " +:+ tempTable +:+ "_temp(LIKE " +:+ table +:+ ") ON COMMIT DROP;".

(** [func Upsert(db, table, idColumn, columns, rows) error] *)
Definition Upsert (table idColumn : string) (columns : list string)
    (rows : list (list string)) : M unit :=
  let tempTable := strings_Replace table "."%char "_"%char in
  match buildQuery table tempTable idColumn columns with
  | (_, Some err) => throw err
  | (query, None) =>
      let* txn := Begin db in
      let* _ := must db (TxExec txn (create_temp_sql table tempTable)) in
      let* _ := must db (TxPrepare txn (CopyIn (tempTable +:+ "_temp") columns)) in
      let* _ := copy_rows table rows in
      let* _ := must db (StmtExec []) in
      let* _ := must db (TxExec txn query) in
      let* _ := must db (TxCommit txn) in
      ret tt
  end.

End Pipeline.

End Legacy.

(** ** Reading a trace *)

(** What one field of a record becomes in the copy: the rule of the
    inner loop, field by field. *)
Definition to_value (column : string) : value :=
  if bool_decide (column = "") then INil else IString column.

Definition is_ok (r : reply) : bool :=
  match r with
  | Ok _ => true
  | Failed _ => false
  end.

(** The statements sent with [txn.Exec] on transaction [tx], in order,
    with their answers. *)
Definition executed (tx : nat) (tr : trace) : list (string * reply) :=
  omap (fun ev => match ev with
                  | Called (TxExec t q) r => if decide (t = tx) then Some (q, r) else None
                  | _ => None
                  end) tr.

(** The answers to [txn.Commit] on transaction [tx]. *)
Definition commits (tx : nat) (tr : trace) : list reply :=
  omap (fun ev => match ev with
                  | Called (TxCommit t) r => if decide (t = tx) then Some r else None
                  | _ => None
                  end) tr.

(** Transaction [tx] was committed: a [Commit] on it succeeded. *)
Definition committed (tx : nat) (tr : trace) : bool := existsb is_ok (commits tx tr).

(** The calls of [Rollback], on any transaction. *)
Definition rollbacks (tr : trace) : list nat :=
  omap (fun ev => match ev with
                  | Called (TxRollback t) _ => Some t
                  | _ => None
                  end) tr.

(** The calls of [stmt.Exec], in order, with their answers. *)
Definition appends (tr : trace) : list (list value * reply) :=
  omap (fun ev => match ev with
                  | Called (StmtExec args) r => Some (args, r)
                  | _ => None
                  end) tr.

(** The rows that the copy statement has accepted, as the database has
    them after the calls [h]. *)
Definition loaded (h : list (call * reply)) : list (list value) :=
  omap (fun cr => match cr with
                  | (StmtExec (v :: args), Ok _) => Some (v :: args)
                  | _ => None
                  end) h.

(** A row as the copy keeps it: a call without arguments is a flush and
    loads nothing. *)
Definition kept (row : list value) : option (list value) :=
  match row with
  | [] => None
  | _ :: _ => Some row
  end.

(** Two of [rows] hold the same value in column [k], as a unique index
    sees it: a [nil] cell is a NULL, and NULLs are distinct from one
    another, so only values other than [nil] can clash. *)
Fixpoint has_duplicate (k : nat) (rows : list (list value)) : bool :=
  match rows with
  | [] => false
  | row :: rest =>
      match row !! k with
      | Some INil | None => false
      | Some v => existsb (fun row' => bool_decide (row' !! k = Some v)) rest
      end
      || has_duplicate k rest
  end.

(** Every SQL text sent to the database, in order. *)
Definition statements (tr : trace) : list string :=
  omap (fun ev => match ev with
                  | Called (DbExec q) _ | Called (TxExec _ q) _
                  | Called (TxPrepare _ q) _ => Some q
                  | _ => None
                  end) tr.

Definition logs (tr : trace) : list log_line :=
  omap (fun ev => match ev with Logged l => Some l | _ => None end) tr.

(** The progress signals: the counts logged by ["Processed %d rows..."]. *)
Definition progress (tr : trace) : list Z :=
  omap (fun ev => match ev with Logged (LogProcessed n) => Some n | _ => None end) tr.

(** The number of [stmt.Exec] calls that succeeded. *)
Definition accepted (tr : trace) : nat :=
  length (List.filter (fun ar => is_ok ar.2) (appends tr)).

(** The calls of [stmt.Exec] that append a record, in a run over [n]
    records: the first [n] of them, since the flush [stmt.Exec()] comes
    after the last record. *)
Definition record_appends (n : nat) (tr : trace) : list (list value * reply) :=
  take n (appends tr).

(** The number of records that the copy accepted. *)
Definition counted (n : nat) (tr : trace) : nat :=
  length (List.filter (fun ar => is_ok ar.2) (record_appends n tr)).

(** The calls that failed, with their errors. *)
Definition failures (tr : trace) : list (call * error) :=
  omap (fun ev => match ev with
                  | Called c (Failed err) => Some (c, err)
                  | _ => None
                  end) tr.

(** A trace is what database [db] answers: every recorded answer is the
    one [db] gives after the calls recorded before it. *)
Fixpoint answered_by (db : database)
    (seen : trace) (tr : trace) : Prop :=
  match tr with
  | [] => True
  | Called c r :: rest =>
      r = db (history seen) c /\ answered_by db (seen ++ [Called c r]) rest
  | ev :: rest => answered_by db (seen ++ [ev]) rest
  end.

(** A computation is faithful to [db]: it only adds to the trace, and
    what it adds is answered by [db]. *)
Definition faithful (db : database) {A} (m : M A) : Prop :=
  forall tr, exists evs, (m tr).1 = tr ++ evs /\ answered_by db tr evs.

(** The counter values at which the loop logs: the condition
    [rowsProcessed%100000 == 0]. *)
Definition progress_line (rowsProcessed : Z) : list event :=
  if GoInt.rem rowsProcessed 100000 =? 0
  then [Logged (LogProcessed rowsProcessed)]
  else [].

(** A positive multiple of 100,000. *)
Definition milestone (n : Z) : bool := (0 <? n) && (n mod 100000 =? 0).

(** ** The shapes of a run *)

(** The events that the copy loop can add: appends, progress lines and
    the print of a refused row. *)
Definition copy_event (ev : event) : bool :=
  match ev with
  | Called (StmtExec _) _ | Logged (LogProcessed _) | Printed _ _ => true
  | _ => false
  end.

(** The events of the copy loop over [rows] entered with counter [c],
    and how it ends: with the final counter, or with the error of the
    append that failed. *)
Inductive copy_run (table : string) :
    list (list string) -> Z -> list event -> Z + error -> Prop :=
| copy_end c :
    copy_run table [] c [] (inl c)
| copy_failed rawRow rest c err :
    copy_run table (rawRow :: rest) c
      [Called (StmtExec (convert_row rawRow)) (Failed err);
       Printed table (convert_row rawRow)]
      (inr err)
| copy_next rawRow rest c n evs res :
    copy_run table rest (GoInt.add c 1) evs res ->
    copy_run table (rawRow :: rest) c
      (Called (StmtExec (convert_row rawRow)) (Ok n)
         :: progress_line (GoInt.add c 1) ++ evs)
      res.

(** The events before the copy loop, once the transaction is open, the
    staging table created and the copy prepared. *)
Definition stage_opening (tx : nat) (createSQL copySQL : string) (n1 n2 n3 : Z)
    : list event :=
  [Logged LogStarting; Called DbBegin (Ok n1);
   Called (TxExec tx createSQL) (Ok n2);
   Called (TxPrepare tx copySQL) (Ok n3)].

(** The runs of the staging load in transaction [tx]: one shape for
    each [return err] and one for the end. *)
Inductive stage_run (tx : nat) (table createSQL copySQL : string)
    (rows : list (list string)) : list event -> Z + error -> Prop :=
| stage_begin_failed err :
    stage_run tx table createSQL copySQL rows
      [Logged LogStarting; Called DbBegin (Failed err)] (inr err)
| stage_create_failed n1 err :
    stage_run tx table createSQL copySQL rows
      [Logged LogStarting; Called DbBegin (Ok n1);
       Called (TxExec tx createSQL) (Failed err)] (inr err)
| stage_prepare_failed n1 n2 err :
    stage_run tx table createSQL copySQL rows
      [Logged LogStarting; Called DbBegin (Ok n1);
       Called (TxExec tx createSQL) (Ok n2);
       Called (TxPrepare tx copySQL) (Failed err)] (inr err)
| stage_copy_failed n1 n2 n3 evs err :
    copy_run table rows 0 evs (inr err) ->
    stage_run tx table createSQL copySQL rows
      (stage_opening tx createSQL copySQL n1 n2 n3 ++ evs) (inr err)
| stage_flush_failed n1 n2 n3 evs c err :
    copy_run table rows 0 evs (inl c) ->
    stage_run tx table createSQL copySQL rows
      (stage_opening tx createSQL copySQL n1 n2 n3 ++ evs
         ++ [Called (StmtExec []) (Failed err)]) (inr err)
| stage_close_failed n1 n2 n3 evs c n4 err :
    copy_run table rows 0 evs (inl c) ->
    stage_run tx table createSQL copySQL rows
      (stage_opening tx createSQL copySQL n1 n2 n3 ++ evs
         ++ [Called (StmtExec []) (Ok n4); Called StmtClose (Failed err)]) (inr err)
| stage_commit_failed n1 n2 n3 evs c n4 n5 err :
    copy_run table rows 0 evs (inl c) ->
    stage_run tx table createSQL copySQL rows
      (stage_opening tx createSQL copySQL n1 n2 n3 ++ evs
         ++ [Called (StmtExec []) (Ok n4); Called StmtClose (Ok n5);
             Called (TxCommit tx) (Failed err)]) (inr err)
| stage_done n1 n2 n3 evs c n4 n5 n6 minutes seconds :
    copy_run table rows 0 evs (inl c) ->
    stage_run tx table createSQL copySQL rows
      (stage_opening tx createSQL copySQL n1 n2 n3 ++ evs
         ++ [Called (StmtExec []) (Ok n4); Called StmtClose (Ok n5);
             Called (TxCommit tx) (Ok n6); Logged (LogTotal c minutes seconds)])
      (inl c).

(** The runs of the index and statistics step. *)
Inductive prepare_run (indexSQL analyzeSQL : string) :
    list event -> unit + error -> Prop :=
| prepare_index_failed err :
    prepare_run indexSQL analyzeSQL
      [Logged LogCreatingIndex; Called (DbExec indexSQL) (Failed err)] (inr err)
| prepare_done n r :
    prepare_run indexSQL analyzeSQL
      [Logged LogCreatingIndex; Called (DbExec indexSQL) (Ok n);
       Logged LogAnalyzing; Called (DbExec analyzeSQL) r] (inl tt).

(** The events of the revision step when it succeeds (none when the
    revision statement is empty). *)
Definition revision_events (tx : nat) (revisionQuery : string) (affected : Z)
    : list event :=
  if bool_decide (revisionQuery <> "")
  then [Logged LogCalculating; Called (TxExec tx revisionQuery) (Ok affected);
        Logged (LogUpdatedRevision affected)]
  else [].

(** The runs of the merge in transaction [tx]. *)
Inductive merge_run (tx : nat) (query revisionQuery : string) :
    list event -> unit + error -> Prop :=
| merge_begin_failed err :
    merge_run tx query revisionQuery [Called DbBegin (Failed err)] (inr err)
| merge_revision_failed n1 err :
    revisionQuery <> "" ->
    merge_run tx query revisionQuery
      [Called DbBegin (Ok n1); Logged LogCalculating;
       Called (TxExec tx revisionQuery) (Failed err)] (inr err)
| merge_upsert_failed n1 affected err :
    merge_run tx query revisionQuery
      (Called DbBegin (Ok n1) :: revision_events tx revisionQuery affected
         ++ [Logged LogPerforming; Called (TxExec tx query) (Failed err)]) (inr err)
| merge_commit_failed n1 affected n2 err :
    merge_run tx query revisionQuery
      (Called DbBegin (Ok n1) :: revision_events tx revisionQuery affected
         ++ [Logged LogPerforming; Called (TxExec tx query) (Ok n2);
             Logged LogCommitting; Called (TxCommit tx) (Failed err)]) (inr err)
| merge_done n1 affected n2 n3 :
    merge_run tx query revisionQuery
      (Called DbBegin (Ok n1) :: revision_events tx revisionQuery affected
         ++ [Logged LogPerforming; Called (TxExec tx query) (Ok n2);
             Logged LogCommitting; Called (TxCommit tx) (Ok n3); Logged LogDone])
      (inl tt).

(** The runs of [Upsert] once the statements are built: the staging load
    in transaction 1, the index step, the merge in transaction 2. *)
Inductive upsert_run (table idColumn copySQL : string) (rows : list (list string))
    (query revisionQuery : string) : list event -> unit + error -> Prop :=
| run_stage_failed evs err :
    stage_run 1 table (create_temp_sql table (tempTable_of table)) copySQL rows
      evs (inr err) ->
    upsert_run table idColumn copySQL rows query revisionQuery evs (inr err)
| run_prepare_failed evs1 c evs2 err :
    stage_run 1 table (create_temp_sql table (tempTable_of table)) copySQL rows
      evs1 (inl c) ->
    prepare_run (create_index_sql (tempTable_of table) idColumn)
      (analyze_sql (tempTable_of table)) evs2 (inr err) ->
    upsert_run table idColumn copySQL rows query revisionQuery (evs1 ++ evs2) (inr err)
| run_merge evs1 c evs2 evs3 res :
    stage_run 1 table (create_temp_sql table (tempTable_of table)) copySQL rows
      evs1 (inl c) ->
    prepare_run (create_index_sql (tempTable_of table) idColumn)
      (analyze_sql (tempTable_of table)) evs2 (inl tt) ->
    merge_run 2 query revisionQuery evs3 res ->
    upsert_run table idColumn copySQL rows query revisionQuery
      (evs1 ++ evs2 ++ evs3) res.

(** The events of the copy loop of the earlier revision. *)
Inductive legacy_copy_run (table : string) :
    list (list string) -> list event -> unit + error -> Prop :=
| legacy_copy_end :
    legacy_copy_run table [] [] (inl tt)
| legacy_copy_failed rawRow rest err :
    legacy_copy_run table (rawRow :: rest)
      [Called (StmtExec (convert_row rawRow)) (Failed err);
       Printed table (convert_row rawRow)]
      (inr err)
| legacy_copy_next rawRow rest n evs res :
    legacy_copy_run table rest evs res ->
    legacy_copy_run table (rawRow :: rest)
      (Called (StmtExec (convert_row rawRow)) (Ok n) :: evs) res.

Definition legacy_opening (tx : nat) (createSQL copySQL : string) (n1 n2 n3 : Z)
    : list event :=
  [Called DbBegin (Ok n1);
   Called (TxExec tx createSQL) (Ok n2);
   Called (TxPrepare tx copySQL) (Ok n3)].

(** The runs of the earlier [Upsert] once its statement is built. *)
Inductive legacy_run (tx : nat) (table createSQL copySQL : string)
    (rows : list (list string)) (query : string) :
    list event -> unit + error -> Prop :=
| legacy_begin_failed err :
    legacy_run tx table createSQL copySQL rows query
      [Called DbBegin (Failed err)] (inr err)
| legacy_create_failed n1 err :
    legacy_run tx table createSQL copySQL rows query
      [Called DbBegin (Ok n1); Called (TxExec tx createSQL) (Failed err)] (inr err)
| legacy_prepare_failed n1 n2 err :
    legacy_run tx table createSQL copySQL rows query
      [Called DbBegin (Ok n1); Called (TxExec tx createSQL) (Ok n2);
       Called (TxPrepare tx copySQL) (Failed err)] (inr err)
| legacy_loop_failed n1 n2 n3 evs err :
    legacy_copy_run table rows evs (inr err) ->
    legacy_run tx table createSQL copySQL rows query
      (legacy_opening tx createSQL copySQL n1 n2 n3 ++ evs) (inr err)
| legacy_flush_failed n1 n2 n3 evs err :
    legacy_copy_run table rows evs (inl tt) ->
    legacy_run tx table createSQL copySQL rows query
      (legacy_opening tx createSQL copySQL n1 n2 n3 ++ evs
         ++ [Called (StmtExec []) (Failed err)]) (inr err)
| legacy_upsert_failed n1 n2 n3 evs n4 err :
    legacy_copy_run table rows evs (inl tt) ->
    legacy_run tx table createSQL copySQL rows query
      (legacy_opening tx createSQL copySQL n1 n2 n3 ++ evs
         ++ [Called (StmtExec []) (Ok n4); Called (TxExec tx query) (Failed err)])
      (inr err)
| legacy_commit_failed n1 n2 n3 evs n4 n5 err :
    legacy_copy_run table rows evs (inl tt) ->
    legacy_run tx table createSQL copySQL rows query
      (legacy_opening tx createSQL copySQL n1 n2 n3 ++ evs
         ++ [Called (StmtExec []) (Ok n4); Called (TxExec tx query) (Ok n5);
             Called (TxCommit tx) (Failed err)]) (inr err)
| legacy_done n1 n2 n3 evs n4 n5 n6 :
    legacy_copy_run table rows evs (inl tt) ->
    legacy_run tx table createSQL copySQL rows query
      (legacy_opening tx createSQL copySQL n1 n2 n3 ++ evs
         ++ [Called (StmtExec []) (Ok n4); Called (TxExec tx query) (Ok n5);
             Called (TxCommit tx) (Ok n6)]) (inl tt).

(** The statements of the merge transaction, in the order of the source:
    the revision statement when there is one, then the upsert. *)
Definition merge_plan (query revisionQuery : string) : list string :=
  if bool_decide (revisionQuery <> "") then [revisionQuery; query] else [query].

(** Every SQL text of a complete run, in the order of the source. *)
Definition run_plan (table idColumn copySQL query revisionQuery : string) : list string :=
  [create_temp_sql table (tempTable_of table); copySQL;
   create_index_sql (tempTable_of table) idColumn;
   analyze_sql (tempTable_of table)] ++ merge_plan query revisionQuery.

(** ** Collaborators to run the model on *)

Module Sample.

(** A database that accepts every call. *)
Definition db_ok : database := fun _ _ => Ok 0.

(** A database that refuses the calls selected by [bad] with [err]. *)
Definition db_refusing (bad : call -> bool) (err : error)
    : database :=
  fun _ c => if bad c then Failed err else Ok 0.

(** A clock that advances thirty seconds with every call. *)
Definition clock (h : list (call * reply)) : Z :=
  Z.of_nat (length h) * 30 * time_Second.

Definition CopyIn (table : string) (columns : list string) : string :=
  "COPY " +:+ table +:+ " (" +:+ String.concat ", " columns +:+ ") FROM STDIN".

(** Templates that render to their name and the two table names. *)
Definition ParseFiles (name : string) (funcs : FuncMap) (path : string)
    : string + error := inl name.

Definition Execute (t : string) (info : upsertInfo) : string + error :=
  inl (t +:+ " " +:+ Table info +:+ " " +:+ TempTable info).

Definition run (db : database)
    (table idColumn : string) (columns : list string)
    (rows : list (list string)) (hasRevisions : bool) : trace * (unit + error) :=
  Upsert db clock CopyIn string ParseFiles Execute
    table idColumn columns rows hasRevisions [].

Definition LegacyExecute (t : string) (info : Legacy.upsertInfo) : string + error :=
  inl (t +:+ " " +:+ Legacy.Table info +:+ " " +:+ Legacy.TempTable info).

Definition legacy_run (db : database)
    (table idColumn : string) (columns : list string)
    (rows : list (list string)) : trace * (unit + error) :=
  Legacy.Upsert db CopyIn string ParseFiles LegacyExecute
    table idColumn columns rows [].

Definition is_append (c : call) : bool :=
  match c with
  | StmtExec (_ :: _) => true
  | _ => false
  end.

(** A database that enforces uniqueness: it refuses the index
    [indexSQL] when two loaded rows hold the same value other than NULL
    in column [k], and accepts every other call. *)
Definition db_unique (k : nat) (indexSQL : string)
    : database :=
  fun h c =>
    if bool_decide (c = DbExec indexSQL) && has_duplicate k (loaded h)
    then Failed (mkError "could not create unique index")
    else Ok 0.

Definition is_analyze (c : call) : bool :=
  match c with
  | DbExec q => String.prefix "ANALYZE " q
  | _ => false
  end.

End Sample.

(** An event that is not a log line. *)
Definition not_logged (ev : event) : bool :=
  match ev with
  | Logged _ => false
  | _ => true
  end.

(** ** Template engines that fail *)

Module Faulty.

(** An engine whose template file [missing] cannot be read; the other
    templates parse to their name. *)
Definition ParseFiles (missing : string) (name : string) (funcs : FuncMap)
    (path : string) : string + error :=
  if bool_decide (name = missing)
  then inr (mkError ("open " +:+ path +:+ ": no such file or directory"))
  else inl name.

Definition run (missing : string) (db : database)
    (table idColumn : string) (columns : list string)
    (rows : list (list string)) (hasRevisions : bool) : trace * (unit + error) :=
  Upsert db Sample.clock Sample.CopyIn string (ParseFiles missing) Sample.Execute
    table idColumn columns rows hasRevisions [].

End Faulty.
(** * Properties *)

(** ** Go's integers *)

Lemma wrap_in_range z : GoInt.in_range (GoInt.wrap z).
Proof.
  unfold GoInt.in_range, GoInt.wrap.
  pose proof (Z.mod_pos_bound (z - GoInt.int_min) GoInt.modulus) as H.
  unfold GoInt.int_min, GoInt.int_max, GoInt.modulus in *. lia.
Qed.

Lemma wrap_small z : GoInt.in_range z -> GoInt.wrap z = z.
Proof.
  unfold GoInt.in_range, GoInt.wrap. intros H.
  rewrite Z.mod_small; unfold GoInt.int_min, GoInt.int_max, GoInt.modulus in *; lia.
Qed.

(** ** The helpers *)

Lemma iface_equal_comparable (x y : iface) :
  comparable x = true \/ comparable y = true ->
  exists b, iface_equal x y = Returns b /\ (b = true <-> x = y).
Proof.
  intros Hc.
  destruct x, y; simpl in *;
    try (exists false; split; [reflexivity | split; [discriminate | discriminate]]).
  - exists true. tauto.
  - exists (bool_decide (b = b0)). split; [reflexivity|].
    rewrite bool_decide_eq_true. split; congruence.
  - exists (n =? n0). split; [reflexivity|].
    rewrite Z.eqb_eq. split; congruence.
  - exists (bool_decide (s = s0)). split; [reflexivity|].
    rewrite bool_decide_eq_true. split; congruence.
  - destruct Hc; discriminate.
Qed.

(** C10 (amended): [sub(a, b)] is Go's [b - a] (the first argument is
    subtracted from the second), an [int] again, which is the integer
    [b - a] whenever that is representable.  On the operands that the
    fields of [upsertInfo] and the results of the helpers can be (nil, a
    bool, an int, a string, a slice of strings), [eq(x, y)] returns, and
    returns true exactly when [x = y], unless both operands are slices;
    on two slices it panics instead of returning.  The table [fns] binds
    the two names to these functions. *)
Theorem fns_sub_eq :
  (forall a b : Z, fn_sub a b = GoInt.sub b a /\ GoInt.in_range (fn_sub a b)) /\
  (forall a b : Z, GoInt.in_range (b - a) -> fn_sub a b = b - a) /\
  (forall x y : iface,
      comparable x = true \/ comparable y = true ->
      exists r, fn_eq x y = Returns r /\ (r = true <-> x = y)) /\
  (forall l1 l2 : list string, fn_eq (IStrings l1) (IStrings l2) = Panics) /\
  fns = [("eq", FuncIfaceIfaceBool fn_eq); ("sub", FuncIntIntInt fn_sub)].
Proof.
  split; [intros a b; split; [reflexivity | apply wrap_in_range]|].
  split; [intros a b H; unfold fn_sub, GoInt.sub; now apply wrap_small|].
  split; [intros x y H; now apply iface_equal_comparable|].
  split; reflexivity.
Qed.

Lemma fns_sub_eq_witness :
  (GoInt.in_range (5 - 1) /\ fn_sub 1 5 = 5 - 1) /\
  ((comparable (IString "id") = true \/ comparable (IStrings ["id"; "name"]) = true) /\
   exists r, fn_eq (IString "id") (IStrings ["id"; "name"]) = Returns r /\
             (r = true <-> IString "id" = IStrings ["id"; "name"])) /\
  ((comparable (IString "id") = true \/ comparable (IString "id") = true) /\
   exists r, fn_eq (IString "id") (IString "id") = Returns r /\
             (r = true <-> IString "id" = IString "id")).
Proof.
  assert (Hr : GoInt.in_range (5 - 1))
    by (unfold GoInt.in_range, GoInt.int_min, GoInt.int_max; lia).
  assert (Hc : comparable (IString "id") = true) by reflexivity.
  split; [split; [exact Hr | exact (proj1 (proj2 fns_sub_eq) 1 5 Hr)]|].
  split; (split; [left; exact Hc|]).
  - exact (proj1 (proj2 (proj2 fns_sub_eq))
             (IString "id") (IStrings ["id"; "name"]) (or_introl Hc)).
  - exact (proj1 (proj2 (proj2 fns_sub_eq))
             (IString "id") (IString "id") (or_introl Hc)).
Defined.

(** C10 as stated fails on [eq]: two equal values of type [[]string]
    make the helper panic, so it does not return true. *)
Lemma fns_eq_panics_on_slices :
  ~ (forall x y : iface, fn_eq x y = Returns true <-> x = y).
Proof.
  intros H.
  destruct (H (IStrings ["id"]) (IStrings ["id"])) as [_ H2].
  specialize (H2 eq_refl). discriminate.
Qed.

(** ** The staging-table name *)

Lemma append_length (s1 s2 : string) :
  String.length (s1 +:+ s2) = (String.length s1 + String.length s2)%nat.
Proof. induction s1 as [|c s1 IH]; simpl; [reflexivity | now rewrite IH]. Qed.

Lemma append_cancel_r (s1 s2 x : string) :
  s1 +:+ x = s2 +:+ x -> s1 = s2.
Proof.
  revert s2. induction s1 as [|c s1 IH]; intros [|d s2] H.
  - reflexivity.
  - apply (f_equal String.length) in H. rewrite !append_length in H.
    simpl in H. lia.
  - apply (f_equal String.length) in H. rewrite !append_length in H.
    simpl in H. lia.
  - simpl in H. injection H as -> H. f_equal. now apply IH.
Qed.

Lemma strings_Replace_inj_fresh (s1 s2 : string) (old new : ascii) :
  contains_byte new s1 = false -> contains_byte new s2 = false ->
  strings_Replace s1 old new = strings_Replace s2 old new -> s1 = s2.
Proof.
  revert s2. induction s1 as [|c s1 IH]; intros [|d s2]; simpl; try discriminate.
  - reflexivity.
  - intros H1 H2 H.
    apply orb_false_iff in H1 as [Hc H1]. apply orb_false_iff in H2 as [Hd H2].
    injection H as Hcd H. f_equal; [|now apply IH].
    destruct (Ascii.eqb c old) eqn:Eco, (Ascii.eqb d old) eqn:Edo.
    + apply Ascii.eqb_eq in Eco, Edo. congruence.
    + subst d. now rewrite Ascii.eqb_refl in Hd.
    + subst c. now rewrite Ascii.eqb_refl in Hc.
    + exact Hcd.
Qed.

(** C3 (amended): the staging name is a function of the target name; two
    target names get the same staging name exactly when they agree once
    every ['.'] is read as ['_'], so the derivation is injective on the
    names that contain no ['_'].  The earlier revision, which appends
    ["_temp"] where it uses the name, derives the same staging name. *)
Theorem tempTable_of_collisions :
  (forall t1 t2 : string,
      tempTable_of t1 = tempTable_of t2 <->
      strings_Replace t1 "."%char "_"%char = strings_Replace t2 "."%char "_"%char) /\
  (forall t1 t2 : string,
      contains_byte "_"%char t1 = false -> contains_byte "_"%char t2 = false ->
      tempTable_of t1 = tempTable_of t2 -> t1 = t2) /\
  (forall t : string, strings_Replace t "."%char "_"%char +:+ "_temp" = tempTable_of t).
Proof.
  assert (Hiff : forall t1 t2 : string,
      tempTable_of t1 = tempTable_of t2 <->
      strings_Replace t1 "."%char "_"%char = strings_Replace t2 "."%char "_"%char).
  { intros t1 t2. unfold tempTable_of. split.
    - apply append_cancel_r.
    - intros ->. reflexivity. }
  split; [exact Hiff|]. split; [|reflexivity].
  intros t1 t2 H1 H2 H. apply Hiff in H.
  now apply strings_Replace_inj_fresh in H.
Qed.

Lemma tempTable_of_collisions_witness :
  tempTable_of "public.users" = tempTable_of "public.users" /\ "public.users" = "public.users".
Proof.
  split; [reflexivity|].
  apply (proj1 (proj2 tempTable_of_collisions) "public.users" "public.users");
    reflexivity.
Defined.

(** C3 as stated fails: a schema-qualified name and the name with the
    dot already written as an underscore share their staging table. *)
Lemma tempTable_of_not_injective :
  "app.users" <> "app_users" /\ tempTable_of "app.users" = tempTable_of "app_users".
Proof. split; [discriminate | reflexivity]. Qed.

(** ** The NULL rule *)

Lemma fill_row_spec (rawRow : list string) (i : nat) (row : list value) :
  length row = (i + length rawRow)%nat ->
  fill_row i rawRow row = take i row ++ map to_value rawRow.
Proof.
  revert i row. induction rawRow as [|column rest IH]; intros i row Hlen; simpl in *.
  - rewrite app_nil_r. rewrite take_ge; [reflexivity | lia].
  - rewrite IH by (rewrite length_insert; lia).
    rewrite (take_S_r _ i (if bool_decide (column = "") then INil else IString column)).
    + rewrite take_insert_ge by lia. rewrite <- app_assoc. reflexivity.
    + apply list_lookup_insert_eq. lia.
Qed.

Lemma convert_row_map (rawRow : list string) :
  convert_row rawRow = map to_value rawRow.
Proof.
  unfold convert_row. rewrite fill_row_spec; [reflexivity|].
  now rewrite length_replicate.
Qed.

Lemma convert_row_lookup (rawRow : list string) (i : nat) :
  convert_row rawRow !! i = to_value <$> rawRow !! i.
Proof. rewrite convert_row_map. apply list_lookup_fmap. Qed.

(** ** Traces *)

Lemma history_app (tr1 tr2 : trace) : history (tr1 ++ tr2) = history tr1 ++ history tr2.
Proof. apply omap_app. Qed.

Lemma answered_by_app db (seen tr1 tr2 : trace) :
  answered_by db seen (tr1 ++ tr2) <->
  answered_by db seen tr1 /\ answered_by db (seen ++ tr1) tr2.
Proof.
  revert seen. induction tr1 as [|ev tr1 IH]; intros seen; simpl.
  - rewrite app_nil_r. tauto.
  - destruct ev as [c r| |];
      rewrite IH, <- app_assoc; simpl; tauto.
Qed.

Lemma progress_line_copy (c : Z) : Forall (fun ev => copy_event ev = true) (progress_line c).
Proof.
  unfold progress_line. destruct (GoInt.rem c 100000 =? 0); repeat constructor.
Qed.

Lemma copy_run_events table rows c evs res :
  copy_run table rows c evs res -> Forall (fun ev => copy_event ev = true) evs.
Proof.
  induction 1 as [c|rawRow rest c err|rawRow rest c n evs res _ IH].
  - constructor.
  - repeat constructor.
  - constructor; [reflexivity|].
    apply Forall_app. split; [apply progress_line_copy | exact IH].
Qed.

Lemma omap_copy_events {A} (f : event -> option A) (evs : list event) :
  (forall ev, copy_event ev = true -> f ev = None) ->
  Forall (fun ev => copy_event ev = true) evs -> omap f evs = [].
Proof.
  intros Hf. induction 1 as [|ev evs Hev _ IH]; simpl; [reflexivity|].
  rewrite (Hf ev Hev). exact IH.
Qed.

Lemma begun_app (tr1 tr2 : trace) : begun (tr1 ++ tr2) = (begun tr1 + begun tr2)%nat.
Proof. unfold begun. now rewrite List.filter_app, length_app. Qed.

Lemma begun_copy table rows c evs res : copy_run table rows c evs res -> begun evs = 0%nat.
Proof.
  intros H. apply copy_run_events in H. unfold begun.
  induction H as [|ev evs Hev _ IH]; simpl; [reflexivity|].
  destruct ev as [[] []| |]; try discriminate; exact IH.
Qed.

Lemma begun_stage tx table createSQL copySQL rows evs c :
  stage_run tx table createSQL copySQL rows evs (inl c) -> begun evs = 1%nat.
Proof.
  inversion 1 as [| | | | | | |n1 n2 n3 evs0 c0 n4 n5 n6 m s Hcopy]; subst.
  rewrite !begun_app, (begun_copy _ _ _ _ _ Hcopy). reflexivity.
Qed.

Lemma begun_prepare indexSQL analyzeSQL evs res :
  prepare_run indexSQL analyzeSQL evs res -> begun evs = 0%nat.
Proof. inversion 1; reflexivity. Qed.

(** ** The runs of the copy loop *)

Section Runs.

Variable db : database.
Variable now : list (call * reply) -> Z.
Variable CopyIn : string -> list string -> string.
Variable Template : Type.
Variable ParseFiles : string -> FuncMap -> string -> Template + error.
Variable Execute : Template -> upsertInfo -> string + error.
Variable LegacyExecute : Template -> Legacy.upsertInfo -> string + error.

Lemma copy_rows_run (table : string) (rows : list (list string)) (c : Z) (tr : trace) :
  exists evs res,
    copy_rows db table rows c tr = (tr ++ evs, res) /\
    copy_run table rows c evs res.
Proof.
  revert c tr. induction rows as [|rawRow rest IH]; intros c tr.
  - exists [], (inl c). simpl. rewrite app_nil_r.
    split; [reflexivity | constructor].
  - cbn [copy_rows]. unfold bind at 1. unfold do_call at 1.
    destruct (db (history tr) (StmtExec (convert_row rawRow))) as [n|err] eqn:Hr.
    + unfold bind at 1.
      set (tr1 := tr ++ [Called (StmtExec (convert_row rawRow)) (Ok n)]).
      assert (Hlog : (if GoInt.rem (GoInt.add c 1) 100000 =? 0
                      then log (LogProcessed (GoInt.add c 1)) else ret tt) tr1
                     = (tr1 ++ progress_line (GoInt.add c 1), inl tt)).
      { unfold progress_line.
        destruct (GoInt.rem (GoInt.add c 1) 100000 =? 0); simpl.
        - reflexivity.
        - unfold ret. now rewrite app_nil_r. }
      rewrite Hlog.
      destruct (IH (GoInt.add c 1) (tr1 ++ progress_line (GoInt.add c 1)))
        as (evs & res & Heq & Hrun).
      exists (Called (StmtExec (convert_row rawRow)) (Ok n)
                :: progress_line (GoInt.add c 1) ++ evs), res.
      split.
      * rewrite Heq. unfold tr1. rewrite <- !app_assoc. reflexivity.
      * now constructor.
    + exists [Called (StmtExec (convert_row rawRow)) (Failed err);
              Printed table (convert_row rawRow)], (inr err).
      split.
      * unfold bind, emit, throw. rewrite <- app_assoc. reflexivity.
      * constructor.
Qed.

Lemma faithful_ret {A} (a : A) : faithful db (ret a).
Proof. intros tr. exists []. simpl. now rewrite app_nil_r. Qed.

Lemma faithful_throw {A} (e : error) : faithful db (@throw A e).
Proof. intros tr. exists []. simpl. now rewrite app_nil_r. Qed.

Lemma faithful_read {A} (f : trace -> A) : faithful db (fun tr => (tr, inl (f tr))).
Proof. intros tr. exists []. simpl. now rewrite app_nil_r. Qed.

Lemma faithful_log (l : log_line) : faithful db (log l).
Proof. intros tr. exists [Logged l]. simpl. tauto. Qed.

Lemma faithful_print (table : string) (row : list value) :
  faithful db (emit (Printed table row)).
Proof. intros tr. exists [Printed table row]. simpl. tauto. Qed.

Lemma faithful_do_call (c : call) : faithful db (do_call db c).
Proof.
  intros tr. exists [Called c (db (history tr) c)]. simpl. tauto.
Qed.

Lemma faithful_check (r : reply) : faithful db (check r).
Proof. destruct r; [apply faithful_ret | apply faithful_throw]. Qed.

Lemma faithful_bind {A B} (m : M A) (k : A -> M B) :
  faithful db m -> (forall a, faithful db (k a)) -> faithful db (bind m k).
Proof.
  intros Hm Hk tr. unfold bind.
  destruct (Hm tr) as (evs1 & Heq1 & Hans1).
  destruct (m tr) as [tr1 [a|e]]; simpl in Heq1; subst tr1.
  - destruct (Hk a (tr ++ evs1)) as (evs2 & Heq2 & Hans2).
    exists (evs1 ++ evs2). rewrite Heq2, app_assoc. split; [reflexivity|].
    now apply answered_by_app.
  - now exists evs1.
Qed.

Lemma faithful_if {A} (b : bool) (m1 m2 : M A) :
  faithful db m1 -> faithful db m2 -> faithful db (if b then m1 else m2).
Proof. now destruct b. Qed.

Create HintDb faithful.

Hint Resolve faithful_ret faithful_throw faithful_read faithful_log
  faithful_print faithful_do_call faithful_check faithful_if : faithful.

Ltac faithful_steps :=
  repeat (first [ apply faithful_bind; [|intros ?]
                | solve [auto with faithful]
                | apply faithful_if ]).

Lemma faithful_must (c : call) : faithful db (must db c).
Proof. unfold must. faithful_steps. Qed.

Lemma faithful_Begin : faithful db (Begin db).
Proof.
  unfold Begin. apply faithful_bind; [apply faithful_must|].
  intros _. apply faithful_read.
Qed.

Lemma faithful_time_Now : faithful db (time_Now now).
Proof. apply faithful_read. Qed.

Hint Resolve faithful_must faithful_Begin faithful_time_Now : faithful.

Lemma faithful_copy_rows (table : string) (rows : list (list string)) (c : Z) :
  faithful db (copy_rows db table rows c).
Proof.
  revert c. induction rows as [|rawRow rest IH]; intros c; cbn [copy_rows].
  - apply faithful_ret.
  - apply faithful_bind; [apply faithful_do_call|].
    intros [n|err]; faithful_steps.
Qed.

Hint Resolve faithful_copy_rows : faithful.

Lemma faithful_stagingLoad table tempTable columns rows :
  faithful db (stagingLoad db now CopyIn table tempTable columns rows).
Proof. unfold stagingLoad. faithful_steps. Qed.

Lemma faithful_prepareIndex tempTable idColumn :
  faithful db (prepareIndex db tempTable idColumn).
Proof. unfold prepareIndex. faithful_steps. Qed.

Lemma faithful_mergePhase query revisionQuery :
  faithful db (mergePhase db query revisionQuery).
Proof. unfold mergePhase. faithful_steps. Qed.

Hint Resolve faithful_stagingLoad faithful_prepareIndex faithful_mergePhase : faithful.

Lemma faithful_Upsert table idColumn columns rows hasRevisions :
  faithful db (Upsert db now CopyIn Template ParseFiles Execute
              table idColumn columns rows hasRevisions).
Proof.
  unfold Upsert.
  destruct (buildQuery _ _ _ _ _ _ _ _) as [[query revisionQuery] [err|]].
  - apply faithful_throw.
  - faithful_steps.
Qed.

(** *** The shapes of the phases *)

Lemma begun_log (tr : trace) (l : log_line) : begun (tr ++ [Logged l]) = begun tr.
Proof. rewrite begun_app. apply Nat.add_0_r. Qed.

Lemma must_eq (c : call) (tr : trace) :
  must db c tr =
  (tr ++ [Called c (db (history tr) c)],
   match db (history tr) c with Ok n => inl n | Failed err => inr err end).
Proof. unfold must, bind, do_call, check. now destruct (db (history tr) c). Qed.

Lemma Begin_eq (tr : trace) :
  Begin db tr =
  (tr ++ [Called DbBegin (db (history tr) DbBegin)],
   match db (history tr) DbBegin with
   | Ok _ => inl (S (begun tr))
   | Failed err => inr err
   end).
Proof.
  unfold Begin, bind. rewrite must_eq.
  destruct (db (history tr) DbBegin) as [n|err]; [|reflexivity].
  rewrite begun_app. change (begun [Called DbBegin (Ok n)]) with 1%nat.
  now rewrite Nat.add_1_r.
Qed.

Lemma legacy_copy_rows_run (table : string) (rows : list (list string)) (tr : trace) :
  exists evs res,
    Legacy.copy_rows db table rows tr = (tr ++ evs, res) /\
    legacy_copy_run table rows evs res.
Proof.
  revert tr. induction rows as [|rawRow rest IH]; intros tr.
  - exists [], (inl tt). simpl. rewrite app_nil_r. split; [reflexivity | constructor].
  - cbn [Legacy.copy_rows]. unfold bind at 1. unfold do_call at 1.
    destruct (db (history tr) (StmtExec (convert_row rawRow))) as [n|err].
    + destruct (IH (tr ++ [Called (StmtExec (convert_row rawRow)) (Ok n)]))
        as (evs & res & Heq & Hrun).
      exists (Called (StmtExec (convert_row rawRow)) (Ok n) :: evs), res.
      split; [rewrite Heq, <- app_assoc; reflexivity | now constructor].
    + exists [Called (StmtExec (convert_row rawRow)) (Failed err);
              Printed table (convert_row rawRow)], (inr err).
      split; [|constructor].
      unfold bind, emit, throw. rewrite <- app_assoc. reflexivity.
Qed.

Ltac run_step :=
  match goal with
  | |- context [must db ?c ?tr] =>
      rewrite (must_eq c tr);
      let n := fresh "n" in let err := fresh "err" in
      destruct (db (history tr) c) as [n|err]
  | |- context [Begin db ?tr] =>
      rewrite (Begin_eq tr), ?begun_log;
      let n := fresh "n" in let err := fresh "err" in
      destruct (db (history tr) DbBegin) as [n|err]
  | |- context [do_call db ?c ?tr] =>
      unfold do_call at 1;
      let r := fresh "r" in
      generalize (db (history tr) c); intros r
  | |- context [copy_rows db ?table ?rows ?c ?tr] =>
      let evs := fresh "evs" in let res := fresh "res" in
      let Heq := fresh "Heq" in let Hrun := fresh "Hrun" in
      let c' := fresh "c" in let err := fresh "err" in
      destruct (copy_rows_run table rows c tr) as (evs & res & Heq & Hrun);
      rewrite Heq; destruct res as [c'|err]
  | |- context [Legacy.copy_rows db ?table ?rows ?tr] =>
      let evs := fresh "evs" in let res := fresh "res" in
      let Heq := fresh "Heq" in let Hrun := fresh "Hrun" in
      let err := fresh "err" in
      destruct (legacy_copy_rows_run table rows tr) as (evs & res & Heq & Hrun);
      rewrite Heq; destruct res as [[]|err]
  end; cbv beta iota zeta.

Ltac run_shape :=
  first [ eapply stage_begin_failed | eapply stage_create_failed
        | eapply stage_prepare_failed
        | eapply stage_copy_failed; eassumption
        | eapply stage_flush_failed; eassumption
        | eapply stage_close_failed; eassumption
        | eapply stage_commit_failed; eassumption
        | eapply stage_done; eassumption
        | eapply prepare_index_failed | eapply prepare_done
        | eapply merge_begin_failed
        | eapply merge_revision_failed; eassumption
        | eapply legacy_begin_failed | eapply legacy_create_failed
        | eapply legacy_prepare_failed
        | eapply legacy_loop_failed; eassumption
        | eapply legacy_flush_failed; eassumption
        | eapply legacy_upsert_failed; eassumption
        | eapply legacy_commit_failed; eassumption
        | eapply legacy_done; eassumption ].

Ltac run_done :=
  do 2 eexists; split;
  [ rewrite <- ?app_assoc; reflexivity
  | try solve [run_shape] ].

Lemma stagingLoad_run table tempTable columns rows (tr : trace) :
  exists evs res,
    stagingLoad db now CopyIn table tempTable columns rows tr = (tr ++ evs, res) /\
    stage_run (S (begun tr)) table (create_temp_sql table tempTable)
      (CopyIn tempTable columns) rows evs res.
Proof.
  cbv beta iota zeta delta [stagingLoad bind time_Now log emit ret].
  do 3 (run_step; [|run_done]).
  run_step; [|run_done].
  do 3 (run_step; [|run_done]).
  run_done.
Qed.

Lemma prepareIndex_run tempTable idColumn (tr : trace) :
  exists evs res,
    prepareIndex db tempTable idColumn tr = (tr ++ evs, res) /\
    prepare_run (create_index_sql tempTable idColumn) (analyze_sql tempTable) evs res.
Proof.
  cbv beta iota zeta delta [prepareIndex bind log emit ret].
  run_step; [|run_done].
  run_step. run_done.
Qed.

Lemma mergePhase_run query revisionQuery (tr : trace) :
  exists evs res,
    mergePhase db query revisionQuery tr = (tr ++ evs, res) /\
    merge_run (S (begun tr)) query revisionQuery evs res.
Proof.
  cbv beta iota zeta delta [mergePhase bind log emit ret].
  run_step; [|run_done].
  pose proof (merge_upsert_failed (S (begun tr)) query revisionQuery n) as Hu.
  pose proof (merge_commit_failed (S (begun tr)) query revisionQuery n) as Hc.
  pose proof (merge_done (S (begun tr)) query revisionQuery n) as Hd.
  unfold revision_events in Hu, Hc, Hd.
  destruct (bool_decide (revisionQuery <> "")) eqn:Hrev; cbv beta iota zeta.
  - apply bool_decide_eq_true in Hrev.
    run_step; [|run_done].
    run_step; [run_step|]; do 2 eexists;
      (split; [rewrite <- ?app_assoc; reflexivity|]).
    + apply Hd.
    + apply Hc.
    + apply Hu.
  - run_step; [run_step|]; do 2 eexists;
      (split; [rewrite <- ?app_assoc; reflexivity|]).
    + apply (Hd 0).
    + apply (Hc 0).
    + apply (Hu 0).
Qed.

Lemma Upsert_shape table idColumn columns rows hasRevisions query revisionQuery :
  buildQuery Template ParseFiles Execute table (tempTable_of table) idColumn columns
    hasRevisions = (query, revisionQuery, None) ->
  exists tr res,
    Upsert db now CopyIn Template ParseFiles Execute
      table idColumn columns rows hasRevisions [] = (tr, res) /\
    upsert_run table idColumn (CopyIn (tempTable_of table) columns) rows
      query revisionQuery tr res.
Proof.
  intros Hbuild. unfold Upsert. rewrite Hbuild.
  unfold bind at 1.
  destruct (stagingLoad_run table (tempTable_of table) columns rows [])
    as (evs1 & res1 & Heq1 & Hrun1).
  rewrite Heq1. simpl app. change (begun []) with 0%nat in Hrun1.
  destruct res1 as [c|err].
  - unfold bind at 1.
    destruct (prepareIndex_run (tempTable_of table) idColumn evs1)
      as (evs2 & res2 & Heq2 & Hrun2).
    rewrite Heq2. destruct res2 as [[]|err].
    + destruct (mergePhase_run query revisionQuery (evs1 ++ evs2))
        as (evs3 & res3 & Heq3 & Hrun3).
      rewrite Heq3, <- app_assoc.
      do 2 eexists. split; [reflexivity|].
      eapply run_merge; eauto.
      rewrite begun_app in Hrun3.
      now rewrite (begun_stage _ _ _ _ _ _ _ Hrun1),
        (begun_prepare _ _ _ _ Hrun2) in Hrun3.
    + do 2 eexists. split; [reflexivity|].
      eapply run_prepare_failed; eauto.
  - do 2 eexists. split; [reflexivity|].
    now apply run_stage_failed.
Qed.

(** Every run of [Upsert] whose statements were built has one of the
    shapes of [upsert_run], and its answers are those of [db]. *)
Lemma Upsert_run table idColumn columns rows hasRevisions query revisionQuery tr res :
  buildQuery Template ParseFiles Execute table (tempTable_of table) idColumn columns
    hasRevisions = (query, revisionQuery, None) ->
  Upsert db now CopyIn Template ParseFiles Execute
    table idColumn columns rows hasRevisions [] = (tr, res) ->
  upsert_run table idColumn (CopyIn (tempTable_of table) columns) rows
    query revisionQuery tr res /\
  answered_by db [] tr.
Proof.
  intros Hbuild Hrun.
  destruct (Upsert_shape table idColumn columns rows hasRevisions _ _ Hbuild)
    as (tr' & res' & Heq & Hshape).
  rewrite Hrun in Heq. injection Heq as <- <-.
  split; [exact Hshape|].
  destruct (faithful_Upsert table idColumn columns rows hasRevisions [])
    as (evs & Hevs & Hans).
  rewrite Hrun in Hevs. simpl in Hevs. now subst evs.
Qed.

Lemma Upsert_build_failed table idColumn columns rows hasRevisions
    query revisionQuery err :
  buildQuery Template ParseFiles Execute table (tempTable_of table) idColumn columns
    hasRevisions = (query, revisionQuery, Some err) ->
  Upsert db now CopyIn Template ParseFiles Execute
    table idColumn columns rows hasRevisions [] = ([], inr err).
Proof. intros Hbuild. unfold Upsert. now rewrite Hbuild. Qed.

(** *** The earlier revision *)

Lemma Legacy_Upsert_run table idColumn columns rows query tr res :
  Legacy.buildQuery Template ParseFiles LegacyExecute table
    (strings_Replace table "."%char "_"%char) idColumn columns = (query, None) ->
  Legacy.Upsert db CopyIn Template ParseFiles LegacyExecute
    table idColumn columns rows [] = (tr, res) ->
  legacy_run 1 table
    (Legacy.create_temp_sql table (strings_Replace table "."%char "_"%char))
    (CopyIn (tempTable_of table) columns) rows query tr res.
Proof.
  intros Hbuild Hrun.
  assert (Hshape : exists evs res',
             Legacy.Upsert db CopyIn Template ParseFiles LegacyExecute
               table idColumn columns rows [] = ([] ++ evs, res') /\
             legacy_run (S (begun [])) table
               (Legacy.create_temp_sql table (strings_Replace table "."%char "_"%char))
               (CopyIn (tempTable_of table) columns) rows query evs res').
  { unfold Legacy.Upsert. rewrite Hbuild.
    fold (tempTable_of table).
    cbv beta iota zeta delta [bind ret].
    do 3 (run_step; [|run_done]).
    run_step; [|run_done].
    do 3 (run_step; [|run_done]).
    run_done. }
  destruct Hshape as (evs & res' & Heq & Hshape).
  rewrite Hrun in Heq. simpl in Heq. injection Heq as -> ->. exact Hshape.
Qed.

Lemma Legacy_Upsert_build_failed table idColumn columns rows query err :
  Legacy.buildQuery Template ParseFiles LegacyExecute table
    (strings_Replace table "."%char "_"%char) idColumn columns = (query, Some err) ->
  Legacy.Upsert db CopyIn Template ParseFiles LegacyExecute
    table idColumn columns rows [] = ([], inr err).
Proof. intros Hbuild. unfold Legacy.Upsert. now rewrite Hbuild. Qed.

End Runs.

(** ** Reading the shapes *)

Lemma executed_app tx (tr1 tr2 : trace) :
  executed tx (tr1 ++ tr2) = executed tx tr1 ++ executed tx tr2.
Proof. apply omap_app. Qed.

Lemma commits_app tx (tr1 tr2 : trace) :
  commits tx (tr1 ++ tr2) = commits tx tr1 ++ commits tx tr2.
Proof. apply omap_app. Qed.

Lemma rollbacks_app (tr1 tr2 : trace) :
  rollbacks (tr1 ++ tr2) = rollbacks tr1 ++ rollbacks tr2.
Proof. apply omap_app. Qed.

Lemma appends_app (tr1 tr2 : trace) :
  appends (tr1 ++ tr2) = appends tr1 ++ appends tr2.
Proof. apply omap_app. Qed.

Lemma loaded_app (h1 h2 : list (call * reply)) :
  loaded (h1 ++ h2) = loaded h1 ++ loaded h2.
Proof. apply omap_app. Qed.

Lemma statements_app (tr1 tr2 : trace) :
  statements (tr1 ++ tr2) = statements tr1 ++ statements tr2.
Proof. apply omap_app. Qed.

Lemma logs_app (tr1 tr2 : trace) : logs (tr1 ++ tr2) = logs tr1 ++ logs tr2.
Proof. apply omap_app. Qed.

Lemma progress_app (tr1 tr2 : trace) :
  progress (tr1 ++ tr2) = progress tr1 ++ progress tr2.
Proof. apply omap_app. Qed.

Lemma failures_app (tr1 tr2 : trace) :
  failures (tr1 ++ tr2) = failures tr1 ++ failures tr2.
Proof. apply omap_app. Qed.

Lemma accepted_app (tr1 tr2 : trace) :
  accepted (tr1 ++ tr2) = (accepted tr1 + accepted tr2)%nat.
Proof. unfold accepted. now rewrite appends_app, List.filter_app, length_app. Qed.

Create Rewrite HintDb trace.

#[global] Hint Rewrite executed_app commits_app rollbacks_app appends_app loaded_app
  statements_app logs_app progress_app failures_app accepted_app history_app
  begun_app : trace.

Lemma commits_copy_events tx (evs : list event) :
  Forall (fun ev => copy_event ev = true) evs -> commits tx evs = [].
Proof.
  apply omap_copy_events. intros [[] ?|[]|]; simpl; congruence.
Qed.

Lemma rollbacks_copy_events (evs : list event) :
  Forall (fun ev => copy_event ev = true) evs -> rollbacks evs = [].
Proof.
  apply omap_copy_events. intros [[] ?|[]|]; simpl; congruence.
Qed.

Lemma begun_copy_events (evs : list event) :
  Forall (fun ev => copy_event ev = true) evs -> begun evs = 0%nat.
Proof.
  unfold begun. induction 1 as [|ev evs Hev _ IH]; simpl; [reflexivity|].
  destruct ev as [[] []| |]; try discriminate; exact IH.
Qed.

Lemma executed_copy tx table rows c evs res :
  copy_run table rows c evs res -> executed tx evs = [].
Proof.
  intros H. apply copy_run_events in H. revert H. apply omap_copy_events.
  intros [[] ?|[]|]; simpl; congruence.
Qed.

Lemma commits_copy tx table rows c evs res :
  copy_run table rows c evs res -> commits tx evs = [].
Proof.
  intros H. apply copy_run_events in H. revert H. apply omap_copy_events.
  intros [[] ?|[]|]; simpl; congruence.
Qed.

Lemma rollbacks_copy table rows c evs res :
  copy_run table rows c evs res -> rollbacks evs = [].
Proof.
  intros H. apply copy_run_events in H. revert H. apply omap_copy_events.
  intros [[] ?|[]|]; simpl; congruence.
Qed.

Lemma statements_copy table rows c evs res :
  copy_run table rows c evs res -> statements evs = [].
Proof.
  intros H. apply copy_run_events in H. revert H. apply omap_copy_events.
  intros [[] ?|[]|]; simpl; congruence.
Qed.

(** *** The appends of the loop *)

Lemma appends_progress_line c : appends (progress_line c) = [].
Proof. unfold progress_line. now destruct (GoInt.rem c 100000 =? 0). Qed.

Lemma copy_run_appends table rows c evs res :
  copy_run table rows c evs res ->
  exists k, (k <= length rows)%nat /\
    (appends evs).*1 = convert_row <$> take k rows /\
    (forall c', res = inl c' -> k = length rows).
Proof.
  induction 1 as [c|rawRow rest c err|rawRow rest c n evs res _ IH].
  - exists 0%nat. split; [simpl; lia|]. split; [reflexivity|]. reflexivity.
  - exists 1%nat. split; [simpl; lia|]. split; [reflexivity | discriminate].
  - destruct IH as (k & Hk & Heq & Hres).
    exists (S k). split; [simpl; lia|]. split.
    + simpl. rewrite appends_app, appends_progress_line. simpl.
      f_equal. exact Heq.
    + intros c' Hc'. simpl. now rewrite (Hres c').
Qed.

Lemma stage_run_appends tx table createSQL copySQL rows evs res :
  stage_run tx table createSQL copySQL rows evs res ->
  exists k fl, (k <= length rows)%nat /\
    (appends evs).*1 = (convert_row <$> take k rows) ++ fl /\
    (fl = [] \/ fl = [[]] /\ k = length rows).
Proof.
  inversion 1 as [ | | |n1 n2 n3 evs0 err Hcopy|n1 n2 n3 evs0 c err Hcopy
                 |n1 n2 n3 evs0 c n4 err Hcopy|n1 n2 n3 evs0 c n4 n5 err Hcopy
                 |n1 n2 n3 evs0 c n4 n5 n6 m s Hcopy]; subst;
    try (exists 0%nat, []; split; [lia|]; split; [reflexivity | now left]);
    destruct (copy_run_appends _ _ _ _ _ Hcopy) as (k & Hk & Heq & Hres);
    rewrite !appends_app;
    change (appends (stage_opening tx createSQL copySQL n1 n2 n3)) with
      (@nil (list value * reply));
    rewrite app_nil_l, ?fmap_app, Heq.
  - exists k, []. split; [exact Hk|]. split; [now rewrite app_nil_r | now left].
  - exists k, [[]]. split; [exact Hk|]. split; [reflexivity | right; eauto].
  - exists k, [[]]. split; [exact Hk|]. split; [reflexivity | right; eauto].
  - exists k, [[]]. split; [exact Hk|]. split; [reflexivity | right; eauto].
  - exists k, [[]]. split; [exact Hk|]. split; [reflexivity | right; eauto].
Qed.

Lemma appends_prepare indexSQL analyzeSQL evs res :
  prepare_run indexSQL analyzeSQL evs res -> appends evs = [].
Proof. inversion 1; reflexivity. Qed.

Lemma appends_merge tx query revisionQuery evs res :
  merge_run tx query revisionQuery evs res -> appends evs = [].
Proof.
  inversion 1; subst; try reflexivity;
    unfold revision_events; case_bool_decide; reflexivity.
Qed.

Lemma upsert_run_appends table idColumn copySQL rows query revisionQuery tr res :
  upsert_run table idColumn copySQL rows query revisionQuery tr res ->
  exists k fl, (k <= length rows)%nat /\
    (appends tr).*1 = (convert_row <$> take k rows) ++ fl /\
    (fl = [] \/ fl = [[]] /\ k = length rows).
Proof.
  inversion 1 as [evs err Hs|evs1 c evs2 err Hs Hp|evs1 c evs2 evs3 res' Hs Hp Hm];
    subst; autorewrite with trace;
    rewrite ?(appends_prepare _ _ _ _ Hp), ?(appends_merge _ _ _ _ _ Hm), ?app_nil_r;
    exact (stage_run_appends _ _ _ _ _ _ _ Hs).
Qed.

Lemma to_value_nil (column : string) : to_value column = INil <-> column = "".
Proof.
  unfold to_value. case_bool_decide; split; intros; try done.
Qed.

Lemma to_value_string (column : string) :
  column <> "" -> to_value column = IString column.
Proof. intros H. unfold to_value. now rewrite bool_decide_eq_false_2. Qed.

Lemma legacy_copy_run_events table rows evs res :
  legacy_copy_run table rows evs res -> Forall (fun ev => copy_event ev = true) evs.
Proof. induction 1; repeat constructor; assumption. Qed.

Lemma legacy_copy_run_appends table rows evs res :
  legacy_copy_run table rows evs res ->
  exists k, (k <= length rows)%nat /\
    (appends evs).*1 = convert_row <$> take k rows /\
    (res = inl tt -> k = length rows).
Proof.
  induction 1 as [|rawRow rest err|rawRow rest n evs res _ IH].
  - exists 0%nat. split; [simpl; lia|]. split; reflexivity.
  - exists 1%nat. split; [simpl; lia|]. split; [reflexivity | discriminate].
  - destruct IH as (k & Hk & Heq & Hres).
    exists (S k). split; [simpl; lia|]. split.
    + simpl. f_equal. exact Heq.
    + intros Hr. simpl. now rewrite (Hres Hr).
Qed.

Lemma legacy_run_appends tx table createSQL copySQL rows query evs res :
  legacy_run tx table createSQL copySQL rows query evs res ->
  exists k fl, (k <= length rows)%nat /\
    (appends evs).*1 = (convert_row <$> take k rows) ++ fl /\
    (fl = [] \/ fl = [[]] /\ k = length rows).
Proof.
  inversion 1 as [ | | |n1 n2 n3 evs0 err Hcopy|n1 n2 n3 evs0 err Hcopy
                 |n1 n2 n3 evs0 n4 err Hcopy|n1 n2 n3 evs0 n4 n5 err Hcopy
                 |n1 n2 n3 evs0 n4 n5 n6 Hcopy]; subst;
    try (exists 0%nat, []; split; [lia|]; split; [reflexivity | now left]);
    destruct (legacy_copy_run_appends _ _ _ _ Hcopy) as (k & Hk & Heq & Hres);
    rewrite !appends_app;
    change (appends (legacy_opening tx createSQL copySQL n1 n2 n3)) with
      (@nil (list value * reply));
    rewrite app_nil_l, ?fmap_app, Heq.
  - exists k, []. split; [exact Hk|]. split; [now rewrite app_nil_r | now left].
  - exists k, [[]]. split; [exact Hk|]. split; [reflexivity | right; eauto].
  - exists k, [[]]. split; [exact Hk|]. split; [reflexivity | right; eauto].
  - exists k, [[]]. split; [exact Hk|]. split; [reflexivity | right; eauto].
  - exists k, [[]]. split; [exact Hk|]. split; [reflexivity | right; eauto].
Qed.

(** C1: in every run of [Upsert], in either revision of the file, the
    [j]-th call of [stmt.Exec] either is the closing flush (no argument,
    after all the rows) or carries the [j]-th record of the stream, field
    by field: NULL (the nil interface) exactly at the positions whose
    field is the empty string, and the string itself, unchanged, at every
    other position. *)
Theorem Upsert_null_rule
    (db : database) (now : list (call * reply) -> Z)
    (CopyIn : string -> list string -> string) (Template : Type)
    (ParseFiles : string -> FuncMap -> string -> Template + error)
    (Execute : Template -> upsertInfo -> string + error)
    (LegacyExecute : Template -> Legacy.upsertInfo -> string + error)
    (table idColumn : string) (columns : list string)
    (rows : list (list string)) (hasRevisions : bool)
    (tr : trace) (j : nat) (args : list value) (r : reply) :
  tr = (Upsert db now CopyIn Template ParseFiles Execute
          table idColumn columns rows hasRevisions []).1 \/
  tr = (Legacy.Upsert db CopyIn Template ParseFiles LegacyExecute
          table idColumn columns rows []).1 ->
  appends tr !! j = Some (args, r) ->
  (j = length rows /\ args = []) \/
  exists rawRow,
    rows !! j = Some rawRow /\
    length args = length rawRow /\
    forall i : nat,
      (args !! i = Some INil <-> rawRow !! i = Some "") /\
      (forall s : string, s <> "" -> rawRow !! i = Some s -> args !! i = Some (IString s)).
Proof.
  intros Htr Hj.
  assert (Hfacts : exists k fl, (k <= length rows)%nat /\
             (appends tr).*1 = (convert_row <$> take k rows) ++ fl /\
             (fl = [] \/ fl = [[]] /\ k = length rows)).
  { destruct Htr as [->| ->].
    - destruct (buildQuery Template ParseFiles Execute table (tempTable_of table)
                  idColumn columns hasRevisions)
        as [[query revisionQuery] [err|]] eqn:Hbuild.
      { rewrite (Upsert_build_failed db now CopyIn _ _ _ _ _ _ rows _ _ _ _ Hbuild).
        exists 0%nat, []. split; [lia|]. split; [reflexivity | now left]. }
      destruct (Upsert db now CopyIn Template ParseFiles Execute
                  table idColumn columns rows hasRevisions []) as [tr res] eqn:Hrun.
      destruct (Upsert_run _ _ _ _ _ _ _ _ _ _ _ _ _ _ _ Hbuild Hrun) as [Hshape _].
      exact (upsert_run_appends _ _ _ _ _ _ _ _ Hshape).
    - destruct (Legacy.buildQuery Template ParseFiles LegacyExecute table
                  (strings_Replace table "."%char "_"%char) idColumn columns)
        as [query [err|]] eqn:Hbuild.
      { rewrite (Legacy_Upsert_build_failed db CopyIn _ _ _ _ _ _ rows _ _ Hbuild).
        exists 0%nat, []. split; [lia|]. split; [reflexivity | now left]. }
      destruct (Legacy.Upsert db CopyIn Template ParseFiles LegacyExecute
                  table idColumn columns rows []) as [tr res] eqn:Hrun.
      pose proof (Legacy_Upsert_run _ _ _ _ _ _ _ _ _ _ _ _ Hbuild Hrun) as Hshape.
      exact (legacy_run_appends _ _ _ _ _ _ _ _ Hshape). }
  destruct Hfacts as (k & fl & Hk & Heq & Hfl).
  assert (Hargs : (appends tr).*1 !! j = Some args).
  { rewrite list_lookup_fmap, Hj. reflexivity. }
  rewrite Heq in Hargs.
  apply lookup_app_Some in Hargs as [Hargs|[Hlen Hargs]].
  - right. rewrite list_lookup_fmap in Hargs.
    destruct (take k rows !! j) as [rawRow|] eqn:Hrow; [|discriminate].
    injection Hargs as <-.
    exists rawRow. split; [|split].
    + apply lookup_take_Some in Hrow. tauto.
    + now rewrite convert_row_map, length_map.
    + intros i. rewrite convert_row_lookup.
      destruct (rawRow !! i) as [column|]; simpl.
      * split.
        -- split; intros [= Heq']; f_equal.
           ++ now apply to_value_nil.
           ++ now apply to_value_nil.
        -- intros s Hs [= ->]. f_equal. now apply to_value_string.
      * split; [split; discriminate | discriminate].
  - left. rewrite length_fmap in Hlen, Hargs.
    destruct Hfl as [->|[-> ->]]; [now rewrite lookup_nil in Hargs|].
    rewrite length_take in Hlen, Hargs.
    destruct (j - length rows `min` length rows)%nat eqn:Hd; [|done].
    injection Hargs as <-. split; [lia | reflexivity].
Qed.

Lemma Upsert_null_rule_witness :
  let tr := (Sample.run Sample.db_ok "public.users" "id" ["id"; "name"]
               [["1"; "Alice"]; ["2"; ""]] true).1 in
  appends tr !! 1%nat = Some ([IString "2"; INil], Ok 0) /\
  ((1%nat = length [["1"; "Alice"]; ["2"; ""]] /\ [IString "2"; INil] = []) \/
   exists rawRow : list string,
     [["1"; "Alice"]; ["2"; ""]] !! 1%nat = Some rawRow /\
     length [IString "2"; INil] = length rawRow /\
     forall i : nat,
       ([IString "2"; INil] !! i = Some INil <-> rawRow !! i = Some "") /\
       (forall s : string, s <> "" -> rawRow !! i = Some s ->
                           [IString "2"; INil] !! i = Some (IString s))).
Proof.
  intros tr. split; [reflexivity|].
  apply (Upsert_null_rule Sample.db_ok Sample.clock Sample.CopyIn string
           Sample.ParseFiles Sample.Execute Sample.LegacyExecute
           "public.users" "id" ["id"; "name"]
           [["1"; "Alice"]; ["2"; ""]] true tr 1 [IString "2"; INil] (Ok 0)).
  - left. reflexivity.
  - reflexivity.
Defined.

(** *** The statements of a run *)

Ltac inv_elem :=
  repeat match goal with
    | H : _ ∈ [] |- _ => apply elem_of_nil in H; contradiction
    | H : _ ∈ _ :: _ |- _ =>
        apply elem_of_cons in H as [H|H];
        [try discriminate; try (injection H; intros; subst)|]
    end.

Lemma executed_stage tx' tx table createSQL copySQL rows evs res :
  tx' <> tx ->
  stage_run tx table createSQL copySQL rows evs res -> executed tx' evs = [].
Proof.
  intros Hne. inversion 1; subst; unfold stage_opening;
    rewrite ?executed_app;
    try match goal with
        | Hc : copy_run _ _ _ _ _ |- _ => rewrite (executed_copy tx' _ _ _ _ _ Hc)
        end;
    simpl; repeat case_decide; first [congruence | reflexivity].
Qed.

Lemma commits_stage tx' tx table createSQL copySQL rows evs res :
  tx' <> tx ->
  stage_run tx table createSQL copySQL rows evs res -> commits tx' evs = [].
Proof.
  intros Hne. inversion 1; subst; unfold stage_opening;
    rewrite ?commits_app;
    try match goal with
        | Hc : copy_run _ _ _ _ _ |- _ => rewrite (commits_copy tx' _ _ _ _ _ Hc)
        end;
    simpl; repeat case_decide; first [congruence | reflexivity].
Qed.

Lemma statements_stage tx table createSQL copySQL rows evs res :
  stage_run tx table createSQL copySQL rows evs res ->
  statements evs `prefix_of` [createSQL; copySQL] /\
  (forall c, res = inl c -> statements evs = [createSQL; copySQL]).
Proof.
  inversion 1; subst; unfold stage_opening;
    rewrite ?statements_app;
    try match goal with
        | Hc : copy_run _ _ _ _ _ |- _ => rewrite (statements_copy _ _ _ _ _ Hc)
        end;
    simpl; (split; [|try discriminate; reflexivity]).
  - now exists [createSQL; copySQL].
  - now exists [copySQL].
  - now exists [].
  - now exists [].
  - now exists [].
  - now exists [].
  - now exists [].
  - now exists [].
Qed.

Lemma prepare_run_facts indexSQL analyzeSQL evs res :
  prepare_run indexSQL analyzeSQL evs res ->
  (forall tx, executed tx evs = []) /\ (forall tx, commits tx evs = []) /\
  rollbacks evs = [] /\
  statements evs `prefix_of` [indexSQL; analyzeSQL] /\
  (res = inl tt -> statements evs = [indexSQL; analyzeSQL]).
Proof.
  inversion 1; subst; simpl; repeat split; try done.
  now exists [analyzeSQL].
Qed.

(** What the merge transaction did, shape by shape. *)
Lemma merge_run_facts tx query revisionQuery evs res :
  merge_run tx query revisionQuery evs res ->
  statements evs `prefix_of` merge_plan query revisionQuery /\
  (executed tx evs).*1 = statements evs /\
  rollbacks evs = [] /\
  (forall q err, (q, Failed err) ∈ executed tx evs ->
      res = inr err /\ commits tx evs = []) /\
  (committed tx evs = true ->
      res = inl tt /\
      (executed tx evs).*1 = merge_plan query revisionQuery /\
      Forall (fun qr => is_ok qr.2 = true) (executed tx evs)) /\
  (forall err, res = inr err -> committed tx evs = false) /\
  (Logged LogCalculating ∈ evs -> revisionQuery <> "").
Proof.
  unfold committed, merge_plan.
  inversion 1 as [err|n1 err Hrev|n1 a err|n1 a n2 err|n1 a n2 n3]; subst;
    unfold revision_events; case_bool_decide as Hrq; simpl;
    repeat case_decide; try congruence; simpl.
  all: repeat split; try done; try (intros; discriminate).
  all: try (eexists; reflexivity).
  all: try (repeat constructor).
  all: try intros Hin; inv_elem; congruence.
Qed.

Lemma rollbacks_stage tx table createSQL copySQL rows evs res :
  stage_run tx table createSQL copySQL rows evs res -> rollbacks evs = [].
Proof.
  inversion 1; subst; unfold stage_opening; rewrite ?rollbacks_app;
    try match goal with
        | Hc : copy_run _ _ _ _ _ |- _ => rewrite (rollbacks_copy _ _ _ _ _ Hc)
        end;
    reflexivity.
Qed.

Lemma stage_run_not_calculating tx table createSQL copySQL rows evs res :
  stage_run tx table createSQL copySQL rows evs res -> Logged LogCalculating ∉ evs.
Proof.
  intros Hrun Hin.
  assert (Hcopy : forall evs0 c r, copy_run table rows c evs0 r ->
                                   Logged LogCalculating ∉ evs0).
  { intros evs0 c r Hc Hin0. apply copy_run_events in Hc.
    rewrite Forall_forall in Hc. specialize (Hc _ Hin0). discriminate. }
  inversion Hrun; subst; unfold stage_opening in Hin;
    repeat (apply elem_of_app in Hin as [Hin|Hin]);
    try (eapply Hcopy; eassumption); inv_elem.
Qed.

(** What a run of [Upsert] did with its transactions. *)
Lemma upsert_run_facts table idColumn copySQL rows query revisionQuery tr res :
  upsert_run table idColumn copySQL rows query revisionQuery tr res ->
  statements tr `prefix_of` run_plan table idColumn copySQL query revisionQuery /\
  (executed 2 tr).*1 `prefix_of` merge_plan query revisionQuery /\
  rollbacks tr = [] /\
  (forall q err, (q, Failed err) ∈ executed 2 tr ->
      res = inr err /\ commits 2 tr = []) /\
  (committed 2 tr = true ->
      res = inl tt /\
      (executed 2 tr).*1 = merge_plan query revisionQuery /\
      Forall (fun qr => is_ok qr.2 = true) (executed 2 tr)) /\
  (forall err, res = inr err -> committed 2 tr = false) /\
  (Logged LogCalculating ∈ tr -> revisionQuery <> "").
Proof.
  assert (H21 : 2%nat <> 1%nat) by lia.
  unfold run_plan.
  inversion 1 as [evs err Hs|evs1 c evs2 err Hs Hp|evs1 c evs2 evs3 res' Hs Hp Hm];
    subst; unfold committed; autorewrite with trace;
    rewrite ?(executed_stage 2 1 _ _ _ _ _ _ H21 Hs),
      ?(commits_stage 2 1 _ _ _ _ _ _ H21 Hs), ?(rollbacks_stage _ _ _ _ _ _ _ Hs);
    pose proof (statements_stage _ _ _ _ _ _ _ Hs) as [Hst1 Hst2];
    pose proof (stage_run_not_calculating _ _ _ _ _ _ _ Hs) as Hnc1.
  - simpl. split; [|split; [|split; [|split; [|split; [|split]]]]]; try done.
    + etrans; [exact Hst1|].
      now exists ([create_index_sql (tempTable_of table) idColumn;
                   analyze_sql (tempTable_of table)]
                  ++ merge_plan query revisionQuery).
    + apply prefix_nil.
    + intros q e Hin. inv_elem.
  - destruct (prepare_run_facts _ _ _ _ Hp) as (He & Hc & Hr & Hst & _).
    rewrite He, Hc, Hr, (Hst2 c eq_refl). simpl.
    split; [|split; [|split; [|split; [|split; [|split]]]]]; try done.
    + apply (prefix_app [create_temp_sql table (tempTable_of table); copySQL]) in Hst.
      etrans; [exact Hst|].
      now exists (merge_plan query revisionQuery).
    + apply prefix_nil.
    + intros q e Hin. inv_elem.
    + intros Hin. apply elem_of_app in Hin as [Hin|Hin]; [done|].
      inversion Hp; subst; inv_elem.
  - destruct (prepare_run_facts _ _ _ _ Hp) as (He & Hc & Hr & _ & Hst).
    destruct (merge_run_facts _ _ _ _ _ Hm) as (Hm1 & Hm2 & Hm3 & Hm4 & Hm5 & Hm6 & Hm7).
    rewrite He, Hc, Hr, Hm3, (Hst2 c eq_refl), (Hst eq_refl). simpl.
    split; [|split; [|split; [|split; [|split; [|split]]]]]; try done.
    + now apply (prefix_app [create_temp_sql table (tempTable_of table); copySQL;
                             create_index_sql (tempTable_of table) idColumn;
                             analyze_sql (tempTable_of table)]) in Hm1.
    + now rewrite Hm2.
    + intros Hin. apply elem_of_app in Hin as [Hin|Hin]; [done|].
      apply elem_of_app in Hin as [Hin|Hin]; [|auto].
      inversion Hp; subst; inv_elem.
Qed.

(** ** The merge transaction *)

Lemma buildQuery_no_revisions (Template : Type)
    (ParseFiles : string -> FuncMap -> string -> Template + error)
    (Execute : Template -> upsertInfo -> string + error)
    (table tempTable idColumn : string) (columns : list string) :
  (buildQuery Template ParseFiles Execute table tempTable idColumn columns false).1.2 = "".
Proof.
  unfold buildQuery.
  destruct (ParseFiles _ _ _) as [t|err]; [|reflexivity].
  destruct (Execute _ _) as [upsertBuf|err]; reflexivity.
Qed.

(** C4: with [hasRevisions] false, [buildQuery] returns the empty string
    as the revision statement (also when it returns an error); the merge
    transaction then executes at most one statement, the upsert, every
    SQL text of the run is one of staging table, copy, index, statistics
    and upsert, in this order, and the revision step is not even
    announced in the log. *)
Theorem no_revision_without_tracking
    (db : database) (now : list (call * reply) -> Z)
    (CopyIn : string -> list string -> string) (Template : Type)
    (ParseFiles : string -> FuncMap -> string -> Template + error)
    (Execute : Template -> upsertInfo -> string + error)
    (table idColumn : string) (columns : list string) (rows : list (list string)) :
  let built := buildQuery Template ParseFiles Execute table (tempTable_of table)
                 idColumn columns false in
  let tr := (Upsert db now CopyIn Template ParseFiles Execute
               table idColumn columns rows false []).1 in
  (forall tempTable : string,
      (buildQuery Template ParseFiles Execute table tempTable idColumn columns false).1.2
      = "") /\
  (executed 2 tr).*1 `prefix_of` [built.1.1] /\
  statements tr `prefix_of`
    [create_temp_sql table (tempTable_of table); CopyIn (tempTable_of table) columns;
     create_index_sql (tempTable_of table) idColumn; analyze_sql (tempTable_of table);
     built.1.1] /\
  Logged LogCalculating ∉ tr.
Proof.
  intros built tr. split; [intros; apply buildQuery_no_revisions|].
  pose proof (buildQuery_no_revisions Template ParseFiles Execute table
                (tempTable_of table) idColumn columns) as Hrq.
  fold built in Hrq. subst tr.
  destruct built as [[query revisionQuery] [err|]] eqn:Hbuild;
    simpl in Hrq; subst revisionQuery.
  - rewrite (Upsert_build_failed db now CopyIn _ _ _ _ _ _ rows _ _ _ _ Hbuild).
    simpl. split; [apply prefix_nil|]. split; [apply prefix_nil|]. apply not_elem_of_nil.
  - destruct (Upsert db now CopyIn Template ParseFiles Execute
                table idColumn columns rows false []) as [tr res] eqn:Hrun.
    destruct (Upsert_run _ _ _ _ _ _ _ _ _ _ _ _ _ _ _ Hbuild Hrun) as [Hshape _].
    destruct (upsert_run_facts _ _ _ _ _ _ _ _ Hshape)
      as (Hst & Hex & _ & _ & _ & _ & Hlog).
    simpl. split; [exact Hex|]. split; [exact Hst|].
    intros Hin. now apply Hlog in Hin.
Qed.

Lemma merge_run_order tx query revisionQuery evs res :
  merge_run tx query revisionQuery evs res ->
  revisionQuery <> "" ->
  executed tx evs = [] \/
  (exists err, executed tx evs = [(revisionQuery, Failed err)]) \/
  (exists n r, executed tx evs = [(revisionQuery, Ok n); (query, r)]).
Proof.
  intros Hrun Hrq.
  inversion Hrun; subst; unfold revision_events;
    rewrite ?bool_decide_eq_true_2 by done; simpl;
    repeat case_decide; try congruence; eauto.
Qed.

(** C5: when the revision statement is not empty, the SQL texts of a run
    are, in order, an initial part of: staging table, copy, index,
    statistics, revision statement, upsert; and on the merge transaction
    either nothing was executed, or the revision statement alone and it
    failed, or the revision statement, with success, and then the
    upsert.  The upsert is never executed first. *)
Theorem revision_before_upsert
    (db : database) (now : list (call * reply) -> Z)
    (CopyIn : string -> list string -> string) (Template : Type)
    (ParseFiles : string -> FuncMap -> string -> Template + error)
    (Execute : Template -> upsertInfo -> string + error)
    (table idColumn : string) (columns : list string) (rows : list (list string))
    (hasRevisions : bool) (query revisionQuery : string) :
  buildQuery Template ParseFiles Execute table (tempTable_of table) idColumn columns
    hasRevisions = (query, revisionQuery, None) ->
  revisionQuery <> "" ->
  let tr := (Upsert db now CopyIn Template ParseFiles Execute
               table idColumn columns rows hasRevisions []).1 in
  statements tr `prefix_of`
    [create_temp_sql table (tempTable_of table); CopyIn (tempTable_of table) columns;
     create_index_sql (tempTable_of table) idColumn; analyze_sql (tempTable_of table);
     revisionQuery; query] /\
  (executed 2 tr = [] \/
   (exists err, executed 2 tr = [(revisionQuery, Failed err)]) \/
   (exists n r, executed 2 tr = [(revisionQuery, Ok n); (query, r)])).
Proof.
  intros Hbuild Hrq tr. subst tr.
  destruct (Upsert db now CopyIn Template ParseFiles Execute
              table idColumn columns rows hasRevisions []) as [tr res] eqn:Hrun.
  destruct (Upsert_run _ _ _ _ _ _ _ _ _ _ _ _ _ _ _ Hbuild Hrun) as [Hshape _].
  destruct (upsert_run_facts _ _ _ _ _ _ _ _ Hshape) as (Hst & _).
  unfold run_plan, merge_plan in Hst. rewrite bool_decide_eq_true_2 in Hst by done.
  simpl. split; [exact Hst|].
  assert (H21 : 2%nat <> 1%nat) by lia.
  inversion Hshape as [evs err Hs|evs1 c evs2 err Hs Hp|evs1 c evs2 evs3 res' Hs Hp Hm];
    subst; autorewrite with trace;
    rewrite ?(executed_stage 2 1 _ _ _ _ _ _ H21 Hs).
  - now left.
  - destruct (prepare_run_facts _ _ _ _ Hp) as (He & _). rewrite He. now left.
  - destruct (prepare_run_facts _ _ _ _ Hp) as (He & _). rewrite He. simpl.
    now apply (merge_run_order _ _ _ _ _ Hm).
Qed.

Lemma revision_before_upsert_witness :
  buildQuery string Sample.ParseFiles Sample.Execute "public.users"
    (tempTable_of "public.users") "id" ["id"; "name"] true
  = ("upsert.sql.template public.users public_users_temp",
     "updaterevisions.sql.template public.users public_users_temp", None) /\
  "updaterevisions.sql.template public.users public_users_temp" <> "" /\
  let tr := (Sample.run Sample.db_ok "public.users" "id" ["id"; "name"]
               [["1"; "Alice"]] true).1 in
  statements tr `prefix_of`
    [create_temp_sql "public.users" (tempTable_of "public.users");
     Sample.CopyIn (tempTable_of "public.users") ["id"; "name"];
     create_index_sql (tempTable_of "public.users") "id";
     analyze_sql (tempTable_of "public.users");
     "updaterevisions.sql.template public.users public_users_temp";
     "upsert.sql.template public.users public_users_temp"] /\
  (executed 2 tr = [] \/
   (exists err, executed 2 tr
      = [("updaterevisions.sql.template public.users public_users_temp", Failed err)]) \/
   (exists n r, executed 2 tr
      = [("updaterevisions.sql.template public.users public_users_temp", Ok n);
         ("upsert.sql.template public.users public_users_temp", r)])).
Proof.
  split; [reflexivity|]. split; [discriminate|].
  apply (revision_before_upsert Sample.db_ok Sample.clock Sample.CopyIn string
           Sample.ParseFiles Sample.Execute "public.users" "id" ["id"; "name"]
           [["1"; "Alice"]] true
           "upsert.sql.template public.users public_users_temp"
           "updaterevisions.sql.template public.users public_users_temp").
  - reflexivity.
  - discriminate.
Defined.

(** C6: the revision statement and the upsert are executed on one
    transaction, the second.  If either fails, [Upsert] returns that
    error and [Commit] is not called on that transaction; whenever the
    transaction was committed, every statement of the merge (the
    revision statement when there is one, then the upsert) had been
    executed on it with success; and a run that returns an error has not
    committed it. *)
Theorem merge_all_or_nothing
    (db : database) (now : list (call * reply) -> Z)
    (CopyIn : string -> list string -> string) (Template : Type)
    (ParseFiles : string -> FuncMap -> string -> Template + error)
    (Execute : Template -> upsertInfo -> string + error)
    (table idColumn : string) (columns : list string) (rows : list (list string))
    (hasRevisions : bool) (query revisionQuery : string) :
  buildQuery Template ParseFiles Execute table (tempTable_of table) idColumn columns
    hasRevisions = (query, revisionQuery, None) ->
  let run := Upsert db now CopyIn Template ParseFiles Execute
               table idColumn columns rows hasRevisions [] in
  (forall q err, (q, Failed err) ∈ executed 2 run.1 ->
      run.2 = inr err /\ commits 2 run.1 = [] /\ committed 2 run.1 = false) /\
  (committed 2 run.1 = true ->
      run.2 = inl tt /\
      (executed 2 run.1).*1 = merge_plan query revisionQuery /\
      Forall (fun qr => is_ok qr.2 = true) (executed 2 run.1)) /\
  (forall err, run.2 = inr err -> committed 2 run.1 = false).
Proof.
  intros Hbuild run. subst run.
  destruct (Upsert db now CopyIn Template ParseFiles Execute
              table idColumn columns rows hasRevisions []) as [tr res] eqn:Hrun.
  destruct (Upsert_run _ _ _ _ _ _ _ _ _ _ _ _ _ _ _ Hbuild Hrun) as [Hshape _].
  destruct (upsert_run_facts _ _ _ _ _ _ _ _ Hshape)
    as (_ & _ & _ & Hfail & Hcommit & Herr & _).
  simpl. split; [|split; [exact Hcommit | exact Herr]].
  intros q err Hin. destruct (Hfail q err Hin) as [-> Hc].
  split; [reflexivity|]. split; [exact Hc|]. now apply (Herr err).
Qed.

Lemma merge_all_or_nothing_witness :
  let db := Sample.db_refusing
              (fun c => bool_decide
                 (c = TxExec 2 "upsert.sql.template public.users public_users_temp"))
              (mkError "deadlock detected") in
  buildQuery string Sample.ParseFiles Sample.Execute "public.users"
    (tempTable_of "public.users") "id" ["id"; "name"] true
  = ("upsert.sql.template public.users public_users_temp",
     "updaterevisions.sql.template public.users public_users_temp", None) /\
  ("upsert.sql.template public.users public_users_temp",
   Failed (mkError "deadlock detected"))
    ∈ executed 2 (Sample.run db "public.users" "id" ["id"; "name"] [["1"; "Alice"]] true).1 /\
  (Sample.run db "public.users" "id" ["id"; "name"] [["1"; "Alice"]] true).2
    = inr (mkError "deadlock detected") /\
  commits 2 (Sample.run db "public.users" "id" ["id"; "name"] [["1"; "Alice"]] true).1 = [] /\
  committed 2 (Sample.run db "public.users" "id" ["id"; "name"] [["1"; "Alice"]] true).1
    = false.
Proof.
  intros db.
  assert (Hin : ("upsert.sql.template public.users public_users_temp",
                 Failed (mkError "deadlock detected"))
                  ∈ executed 2 (Sample.run db "public.users" "id" ["id"; "name"]
                                  [["1"; "Alice"]] true).1).
  { apply list_elem_of_In. vm_compute. right. left. reflexivity. }
  split; [reflexivity|]. split; [exact Hin|].
  apply (proj1 (merge_all_or_nothing db Sample.clock Sample.CopyIn string
                  Sample.ParseFiles Sample.Execute "public.users" "id" ["id"; "name"]
                  [["1"; "Alice"]] true
                  "upsert.sql.template public.users public_users_temp"
                  "updaterevisions.sql.template public.users public_users_temp"
                  eq_refl)
           _ _ Hin).
Defined.

(** ** Duplicate identifiers *)

Lemma history_progress_line c : history (progress_line c) = [].
Proof. unfold progress_line. now destruct (GoInt.rem c 100000 =? 0). Qed.

Lemma copy_run_loaded table rows c evs c' :
  copy_run table rows c evs (inl c') ->
  loaded (history evs) = omap kept (convert_row <$> rows).
Proof.
  intros Hrun. remember (inl c') as res eqn:Hres. revert Hres.
  induction Hrun as [c|rawRow rest c err|rawRow rest c n evs res _ IH]; intros Hres.
  - reflexivity.
  - discriminate.
  - change (history (Called (StmtExec (convert_row rawRow)) (Ok n)
                       :: progress_line (GoInt.add c 1) ++ evs))
      with ((StmtExec (convert_row rawRow), Ok n)
              :: history (progress_line (GoInt.add c 1) ++ evs)).
    rewrite history_app, history_progress_line, app_nil_l, fmap_cons.
    destruct (convert_row rawRow) as [|v args].
    + change (omap kept ([] :: (convert_row <$> rest)))
        with (omap kept (convert_row <$> rest)).
      now rewrite <- (IH Hres).
    + change (omap kept ((v :: args) :: (convert_row <$> rest)))
        with ((v :: args) :: omap kept (convert_row <$> rest)).
      now rewrite <- (IH Hres).
Qed.

Lemma kept_convert_row (rawRow : list string) (k : nat) (v : string) :
  rawRow !! k = Some v ->
  kept (convert_row rawRow) = Some (convert_row rawRow) /\
  convert_row rawRow !! k = Some (to_value v).
Proof.
  intros Hk. split.
  - rewrite convert_row_map. destruct rawRow; [discriminate | reflexivity].
  - now rewrite convert_row_lookup, Hk.
Qed.

Lemma omap_kept_cons (row : list value) (l : list (list value)) :
  omap kept (row :: l) =
  match kept row with Some y => y :: omap kept l | None => omap kept l end.
Proof. reflexivity. Qed.

Lemma existsb_loaded (k : nat) (rows : list (list string)) (j : nat)
    (r2 : list string) (v : string) :
  rows !! j = Some r2 -> r2 !! k = Some v ->
  existsb (fun row' => bool_decide (row' !! k = Some (to_value v)))
    (omap kept (convert_row <$> rows)) = true.
Proof.
  revert j. induction rows as [|r rest IH]; intros [|j] Hj Hv;
    try discriminate; simpl in Hj; rewrite fmap_cons, omap_kept_cons.
  - injection Hj as ->. destruct (kept_convert_row r2 k v Hv) as [Hkept Hlook].
    rewrite Hkept. cbn [existsb]. now rewrite bool_decide_eq_true_2.
  - specialize (IH j Hj Hv).
    destruct (kept (convert_row r)); [|exact IH].
    cbn [existsb]. rewrite IH. apply orb_true_r.
Qed.

Lemma has_duplicate_loaded (k : nat) (rows : list (list string)) (i j : nat)
    (r1 r2 : list string) (v : string) :
  (i < j)%nat -> rows !! i = Some r1 -> rows !! j = Some r2 ->
  r1 !! k = Some v -> r2 !! k = Some v -> v <> "" ->
  has_duplicate k (omap kept (convert_row <$> rows)) = true.
Proof.
  intros Hlt H1 H2 Hv1 Hv2 Hv. revert i j Hlt H1 H2.
  induction rows as [|r rest IH]; intros [|i] [|j] Hlt H1 H2;
    try discriminate; try lia; simpl in H1, H2; rewrite fmap_cons, omap_kept_cons.
  - injection H1 as ->. destruct (kept_convert_row r1 k v Hv1) as [Hkept Hlook].
    rewrite Hkept. cbn [has_duplicate]. rewrite Hlook.
    pose proof (existsb_loaded k rest j r2 v H2 Hv2) as Hex.
    rewrite (to_value_string v Hv) in *. now rewrite Hex.
  - assert (Hrest : has_duplicate k (omap kept (convert_row <$> rest)) = true)
      by (apply (IH i j); [lia | done..]).
    destruct (kept (convert_row r)); [|exact Hrest].
    cbn [has_duplicate]. rewrite Hrest. apply orb_true_r.
Qed.

Lemma stage_run_loaded tx table createSQL copySQL rows evs c :
  stage_run tx table createSQL copySQL rows evs (inl c) ->
  loaded (history evs) = omap kept (convert_row <$> rows).
Proof.
  inversion 1 as [| | | | | | |n1 n2 n3 evs0 c0 n4 n5 n6 m s Hcopy]; subst.
  rewrite !history_app, !loaded_app, (copy_run_loaded _ _ _ _ _ Hcopy).
  simpl. now rewrite app_nil_r.
Qed.

Lemma db_unique_enforces (k : nat) (indexSQL : string) (h : list (call * reply)) :
  has_duplicate k (loaded h) = true ->
  exists err, Sample.db_unique k indexSQL h (DbExec indexSQL) = Failed err.
Proof.
  intros Hdup. unfold Sample.db_unique.
  rewrite Hdup, bool_decide_eq_true_2 by reflexivity.
  now eexists.
Qed.

(** ** A refused row *)

Lemma failures_progress_line c : failures (progress_line c) = [].
Proof. unfold progress_line. now destruct (GoInt.rem c 100000 =? 0). Qed.

Lemma appends_failed_in_failures (evs : list event) (args : list value) (err : error) :
  (args, Failed err) ∈ appends evs -> (StmtExec args, err) ∈ failures evs.
Proof.
  induction evs as [|ev evs IH]; simpl; [intros H; inv_elem|].
  destruct ev as [[] [n|e]| |]; simpl; intros Hin; try (now apply IH);
    try (apply elem_of_cons; right; now apply IH).
  - apply elem_of_cons in Hin as [Hin|Hin]; [discriminate | now apply IH].
  - apply elem_of_cons in Hin as [Hin|Hin].
    + injection Hin as <- <-. apply elem_of_cons. now left.
    + apply elem_of_cons. right. now apply IH.
Qed.

Lemma copy_run_ok_failures table rows c evs c' :
  copy_run table rows c evs (inl c') -> failures evs = [].
Proof.
  intros Hrun. remember (inl c') as res eqn:Hres. revert Hres.
  induction Hrun as [c|rawRow rest c err|rawRow rest c n evs res _ IH]; intros Hres.
  - reflexivity.
  - discriminate.
  - change (failures (Called (StmtExec (convert_row rawRow)) (Ok n)
                        :: progress_line (GoInt.add c 1) ++ evs))
      with (failures (progress_line (GoInt.add c 1) ++ evs)).
    now rewrite failures_app, failures_progress_line, (IH Hres).
Qed.

(** The loop that ends with an error ends with the refused row: the
    append that failed, then the print of the table and the row. *)
Lemma copy_run_failed table rows c evs err :
  copy_run table rows c evs (inr err) ->
  exists pre i rawRow,
    evs = pre ++ [Called (StmtExec (convert_row rawRow)) (Failed err);
                  Printed table (convert_row rawRow)] /\
    rows !! i = Some rawRow /\
    length (appends pre) = i /\
    failures pre = [].
Proof.
  intros Hrun. remember (inr err) as res eqn:Hres. revert Hres.
  induction Hrun as [c|rawRow rest c err'|rawRow rest c n evs res _ IH]; intros Hres.
  - discriminate.
  - injection Hres as ->. now exists [], 0%nat, rawRow.
  - destruct (IH Hres) as (pre & i & rawRow' & -> & Hi & Hlen & Hfail).
    exists (Called (StmtExec (convert_row rawRow)) (Ok n)
              :: progress_line (GoInt.add c 1) ++ pre), (S i), rawRow'.
    split; [simpl; now rewrite app_assoc|]. split; [exact Hi|]. split.
    + change (appends (Called (StmtExec (convert_row rawRow)) (Ok n)
                         :: progress_line (GoInt.add c 1) ++ pre))
        with ((convert_row rawRow, Ok n)
                :: appends (progress_line (GoInt.add c 1) ++ pre)).
      rewrite appends_app, appends_progress_line. simpl. now rewrite Hlen.
    + change (failures (Called (StmtExec (convert_row rawRow)) (Ok n)
                          :: progress_line (GoInt.add c 1) ++ pre))
        with (failures (progress_line (GoInt.add c 1) ++ pre)).
      now rewrite failures_app, failures_progress_line, Hfail.
Qed.

Lemma stage_run_refused tx table createSQL copySQL rows evs res args err :
  stage_run tx table createSQL copySQL rows evs res ->
  (args, Failed err) ∈ appends evs -> args <> [] ->
  res = inr err /\
  (exists pre i rawRow,
      evs = pre ++ [Called (StmtExec args) (Failed err); Printed table args] /\
      rows !! i = Some rawRow /\ args = convert_row rawRow /\
      length (appends pre) = i /\ failures pre = []) /\
  (forall tx', commits tx' evs = []) /\
  begun evs = 1%nat.
Proof.
  intros Hrun Hin Hargs.
  inversion Hrun as [ | | |n1 n2 n3 evs0 err0 Hcopy|n1 n2 n3 evs0 c err0 Hcopy
                    |n1 n2 n3 evs0 c n4 err0 Hcopy|n1 n2 n3 evs0 c n4 n5 err0 Hcopy
                    |n1 n2 n3 evs0 c n4 n5 n6 m s Hcopy]; subst;
    try (simpl in Hin; inv_elem; fail).
  - (* the loop failed *)
    destruct (copy_run_failed _ _ _ _ _ Hcopy) as (pre & i & rawRow & -> & Hi & Hlen & Hf).
    rewrite !appends_app in Hin.
    change (appends (stage_opening tx createSQL copySQL n1 n2 n3))
      with (@nil (list value * reply)) in Hin.
    rewrite app_nil_l in Hin. apply elem_of_app in Hin as [Hin|Hin].
    { apply appends_failed_in_failures in Hin. rewrite Hf in Hin. inv_elem. }
    simpl in Hin. inv_elem.
    split; [reflexivity|]. split; [|split].
    + exists (stage_opening tx createSQL copySQL n1 n2 n3 ++ pre),
        (length (appends pre)), rawRow.
      split; [now rewrite <- app_assoc|]. split; [exact Hi|]. split; [reflexivity|].
      split; [|now rewrite failures_app, Hf].
      now rewrite appends_app.
    + intros tx'. rewrite commits_app, (commits_copy tx' _ _ _ _ _ Hcopy).
      reflexivity.
    + now rewrite begun_app, (begun_copy _ _ _ _ _ Hcopy).
  - (* the flush failed: it carries no row *)
    rewrite !appends_app in Hin.
    apply elem_of_app in Hin as [Hin|Hin]; [simpl in Hin; inv_elem|].
    apply elem_of_app in Hin as [Hin|Hin]; [|simpl in Hin; inv_elem; done].
    apply appends_failed_in_failures in Hin.
    rewrite (copy_run_ok_failures _ _ _ _ _ Hcopy) in Hin. inv_elem.
  - rewrite !appends_app in Hin.
    apply elem_of_app in Hin as [Hin|Hin]; [simpl in Hin; inv_elem|].
    apply elem_of_app in Hin as [Hin|Hin]; [|simpl in Hin; inv_elem].
    apply appends_failed_in_failures in Hin.
    rewrite (copy_run_ok_failures _ _ _ _ _ Hcopy) in Hin. inv_elem.
  - rewrite !appends_app in Hin.
    apply elem_of_app in Hin as [Hin|Hin]; [simpl in Hin; inv_elem|].
    apply elem_of_app in Hin as [Hin|Hin]; [|simpl in Hin; inv_elem].
    apply appends_failed_in_failures in Hin.
    rewrite (copy_run_ok_failures _ _ _ _ _ Hcopy) in Hin. inv_elem.
  - rewrite !appends_app in Hin.
    apply elem_of_app in Hin as [Hin|Hin]; [simpl in Hin; inv_elem|].
    apply elem_of_app in Hin as [Hin|Hin]; [|simpl in Hin; inv_elem].
    apply appends_failed_in_failures in Hin.
    rewrite (copy_run_ok_failures _ _ _ _ _ Hcopy) in Hin. inv_elem.
Qed.

(** *** The same in the earlier revision *)

Lemma legacy_copy_run_ok_failures table rows evs :
  legacy_copy_run table rows evs (inl tt) -> failures evs = [].
Proof.
  intros Hrun. remember (inl tt) as res eqn:Hres. revert Hres.
  induction Hrun as [|rawRow rest err|rawRow rest n evs res _ IH]; intros Hres.
  - reflexivity.
  - discriminate.
  - exact (IH Hres).
Qed.

Lemma legacy_copy_run_failed table rows evs err :
  legacy_copy_run table rows evs (inr err) ->
  exists pre i rawRow,
    evs = pre ++ [Called (StmtExec (convert_row rawRow)) (Failed err);
                  Printed table (convert_row rawRow)] /\
    rows !! i = Some rawRow /\
    length (appends pre) = i /\
    failures pre = [].
Proof.
  intros Hrun. remember (inr err) as res eqn:Hres. revert Hres.
  induction Hrun as [|rawRow rest err'|rawRow rest n evs res _ IH]; intros Hres.
  - discriminate.
  - injection Hres as ->. now exists [], 0%nat, rawRow.
  - destruct (IH Hres) as (pre & i & rawRow' & -> & Hi & Hlen & Hfail).
    exists (Called (StmtExec (convert_row rawRow)) (Ok n) :: pre), (S i), rawRow'.
    split; [reflexivity|]. split; [exact Hi|]. split; [|exact Hfail].
    simpl. now rewrite Hlen.
Qed.

Lemma legacy_run_refused tx table createSQL copySQL rows query evs res args err :
  legacy_run tx table createSQL copySQL rows query evs res ->
  (args, Failed err) ∈ appends evs -> args <> [] ->
  res = inr err /\
  (exists pre i rawRow,
      evs = pre ++ [Called (StmtExec args) (Failed err); Printed table args] /\
      rows !! i = Some rawRow /\ args = convert_row rawRow /\
      length (appends pre) = i /\ failures pre = []) /\
  (forall tx', commits tx' evs = []) /\
  rollbacks evs = [] /\
  begun evs = 1%nat.
Proof.
  intros Hrun Hin Hargs.
  assert (Hok : forall evs0, legacy_copy_run table rows evs0 (inl tt) ->
                             (args, Failed err) ∉ appends evs0).
  { intros evs0 Hc Hin0. apply appends_failed_in_failures in Hin0.
    rewrite (legacy_copy_run_ok_failures _ _ _ Hc) in Hin0. inv_elem. }
  inversion Hrun as [ | | |n1 n2 n3 evs0 err0 Hcopy|n1 n2 n3 evs0 err0 Hcopy
                    |n1 n2 n3 evs0 n4 err0 Hcopy|n1 n2 n3 evs0 n4 n5 err0 Hcopy
                    |n1 n2 n3 evs0 n4 n5 n6 Hcopy]; subst;
    try (simpl in Hin; inv_elem; fail);
    rewrite !appends_app in Hin;
    change (appends (legacy_opening tx createSQL copySQL n1 n2 n3))
      with (@nil (list value * reply)) in Hin;
    rewrite app_nil_l in Hin;
    try (apply elem_of_app in Hin as [Hin|Hin];
         [now apply Hok in Hin | simpl in Hin; inv_elem; done]).
  pose proof (legacy_copy_run_events _ _ _ _ Hcopy) as Hev.
  destruct (legacy_copy_run_failed _ _ _ _ Hcopy) as (pre & i & rawRow & -> & Hi & Hlen & Hf).
  rewrite appends_app in Hin. apply elem_of_app in Hin as [Hin|Hin].
  { apply appends_failed_in_failures in Hin. rewrite Hf in Hin. inv_elem. }
  simpl in Hin. inv_elem.
  split; [reflexivity|]. split; [|split; [|split]].
  - exists (legacy_opening tx createSQL copySQL n1 n2 n3 ++ pre),
      (length (appends pre)), rawRow.
    split; [now rewrite <- app_assoc|]. split; [exact Hi|]. split; [reflexivity|].
    split; [|now rewrite failures_app, Hf].
    now rewrite appends_app.
  - intros tx'. now rewrite commits_app, (commits_copy_events tx' _ Hev).
  - now rewrite rollbacks_app, (rollbacks_copy_events _ Hev).
  - now rewrite begun_app, (begun_copy_events _ Hev).
Qed.

(** C7 (amended): when the append of a row fails, [Upsert], in either
    revision of the file, returns the error of the database as it is;
    the table name and the row are printed, and that print is the last
    event of the run, directly after the failed append: the refused row
    is the [i]-th record, the [i] appends before it succeeded, and
    nothing follows.  No transaction is committed, [Rollback] is never
    called, and only the first transaction was opened. *)
Theorem refused_row_aborts
    (db : database) (now : list (call * reply) -> Z)
    (CopyIn : string -> list string -> string) (Template : Type)
    (ParseFiles : string -> FuncMap -> string -> Template + error)
    (Execute : Template -> upsertInfo -> string + error)
    (LegacyExecute : Template -> Legacy.upsertInfo -> string + error)
    (table idColumn : string) (columns : list string) (rows : list (list string))
    (hasRevisions : bool) (run : trace * (unit + error))
    (args : list value) (err : error) :
  run = Upsert db now CopyIn Template ParseFiles Execute
          table idColumn columns rows hasRevisions [] \/
  run = Legacy.Upsert db CopyIn Template ParseFiles LegacyExecute
          table idColumn columns rows [] ->
  (args, Failed err) ∈ appends run.1 -> args <> [] ->
  run.2 = inr err /\
  (exists pre i rawRow,
      run.1 = pre ++ [Called (StmtExec args) (Failed err); Printed table args] /\
      rows !! i = Some rawRow /\ args = convert_row rawRow /\
      length (appends pre) = i /\ failures pre = []) /\
  (forall tx, commits tx run.1 = []) /\
  rollbacks run.1 = [] /\
  begun run.1 = 1%nat.
Proof.
  intros [->| ->] Hin Hargs.
  - destruct (buildQuery Template ParseFiles Execute table (tempTable_of table)
                idColumn columns hasRevisions) as [[query revisionQuery] [e|]] eqn:Hbuild.
    { rewrite (Upsert_build_failed db now CopyIn _ _ _ _ _ _ rows _ _ _ _ Hbuild) in Hin.
      simpl in Hin. inv_elem. }
    destruct (Upsert db now CopyIn Template ParseFiles Execute
                table idColumn columns rows hasRevisions []) as [tr res] eqn:Hrun.
    destruct (Upsert_run _ _ _ _ _ _ _ _ _ _ _ _ _ _ _ Hbuild Hrun) as [Hshape _].
    simpl in Hin |- *.
    inversion Hshape as [evs e Hs|evs1 c evs2 e Hs Hp|evs1 c evs2 evs3 res' Hs Hp Hm];
      subst.
    + destruct (stage_run_refused _ _ _ _ _ _ _ _ _ Hs Hin Hargs)
        as (Hres & Hlast & Hcommits & Hbegun).
      injection Hres as ->.
      split; [reflexivity|]. split; [exact Hlast|]. split; [exact Hcommits|].
      split; [exact (rollbacks_stage _ _ _ _ _ _ _ Hs) | exact Hbegun].
    + rewrite appends_app, (appends_prepare _ _ _ _ Hp), app_nil_r in Hin.
      destruct (stage_run_refused _ _ _ _ _ _ _ _ _ Hs Hin Hargs) as (Hres & _).
      discriminate.
    + rewrite !appends_app, (appends_prepare _ _ _ _ Hp),
        (appends_merge _ _ _ _ _ Hm), !app_nil_r in Hin.
      destruct (stage_run_refused _ _ _ _ _ _ _ _ _ Hs Hin Hargs) as (Hres & _).
      discriminate.
  - destruct (Legacy.buildQuery Template ParseFiles LegacyExecute table
                (strings_Replace table "."%char "_"%char) idColumn columns)
      as [query [e|]] eqn:Hbuild.
    { rewrite (Legacy_Upsert_build_failed db CopyIn _ _ _ _ _ _ rows _ _ Hbuild) in Hin.
      simpl in Hin. inv_elem. }
    destruct (Legacy.Upsert db CopyIn Template ParseFiles LegacyExecute
                table idColumn columns rows []) as [tr res] eqn:Hrun.
    pose proof (Legacy_Upsert_run _ _ _ _ _ _ _ _ _ _ _ _ Hbuild Hrun) as Hshape.
    exact (legacy_run_refused _ _ _ _ _ _ _ _ _ _ Hshape Hin Hargs).
Qed.

Lemma refused_row_aborts_witness :
  let db := Sample.db_refusing Sample.is_append (mkError "pq: invalid input syntax") in
  let run := Sample.run db "users" "id" ["id"; "name"] [["1"; "Ann"]; ["x"; ""]] false in
  ([IString "1"; IString "Ann"], Failed (mkError "pq: invalid input syntax"))
    ∈ appends run.1 /\
  [IString "1"; IString "Ann"] <> [] /\
  run.2 = inr (mkError "pq: invalid input syntax") /\
  (forall tx, commits tx run.1 = []) /\
  rollbacks run.1 = [] /\
  begun run.1 = 1%nat.
Proof.
  intros db run.
  assert (Hin : ([IString "1"; IString "Ann"], Failed (mkError "pq: invalid input syntax"))
                  ∈ appends run.1).
  { apply list_elem_of_In. vm_compute. left. reflexivity. }
  split; [exact Hin|]. split; [discriminate|].
  destruct (refused_row_aborts db Sample.clock Sample.CopyIn string
              Sample.ParseFiles Sample.Execute Sample.LegacyExecute
              "users" "id" ["id"; "name"]
              [["1"; "Ann"]; ["x"; ""]] false run
              [IString "1"; IString "Ann"] (mkError "pq: invalid input syntax")
              (or_introl eq_refl) Hin ltac:(discriminate))
    as (Hres & _ & Hcommits & Hroll & Hbegun).
  exact (conj Hres (conj Hcommits (conj Hroll Hbegun))).
Defined.

(** C7 as stated fails: the error returned is the one the database gave,
    the same value for two different tables and rows, with neither the
    table name nor the row in it (they go to the standard output); and
    the transaction of the refused row is not rolled back by [Upsert].
    The earlier revision does the same. *)
Lemma refused_row_error_is_bare :
  let db := Sample.db_refusing Sample.is_append (mkError "pq: invalid input syntax") in
  let run1 := Sample.run db "users" "id" ["id"; "name"] [["x"; "Ann"]] false in
  let run2 := Sample.run db "orders" "id" ["id"; "total"] [["y"; "12"]] false in
  let run3 := Sample.legacy_run db "orders" "id" ["id"; "total"] [["y"; "12"]] in
  run1.2 = inr (mkError "pq: invalid input syntax") /\
  run2.2 = inr (mkError "pq: invalid input syntax") /\
  run3.2 = inr (mkError "pq: invalid input syntax") /\
  last run1.1 = Some (Printed "users" [IString "x"; IString "Ann"]) /\
  last run2.1 = Some (Printed "orders" [IString "y"; IString "12"]) /\
  last run3.1 = Some (Printed "orders" [IString "y"; IString "12"]) /\
  rollbacks run1.1 = [] /\ rollbacks run2.1 = [] /\ rollbacks run3.1 = [].
Proof. repeat split; reflexivity. Qed.

(** ** A failed statistics refresh *)

Lemma failures_copy_ok_stage tx table createSQL copySQL rows evs c :
  stage_run tx table createSQL copySQL rows evs (inl c) -> failures evs = [].
Proof.
  inversion 1 as [| | | | | | |n1 n2 n3 evs0 c0 n4 n5 n6 m s Hcopy]; subst.
  rewrite !failures_app, (copy_run_ok_failures _ _ _ _ _ Hcopy). reflexivity.
Qed.

Lemma stage_run_no_DbExec tx table createSQL copySQL rows evs res q r :
  stage_run tx table createSQL copySQL rows evs res -> Called (DbExec q) r ∉ evs.
Proof.
  intros Hrun Hin.
  assert (Hcopy : forall evs0 c r0, copy_run table rows c evs0 r0 ->
                                    Called (DbExec q) r ∉ evs0).
  { intros evs0 c r0 Hc Hin0. apply copy_run_events in Hc.
    rewrite Forall_forall in Hc. specialize (Hc _ Hin0). discriminate. }
  inversion Hrun; subst; unfold stage_opening in Hin;
    repeat (apply elem_of_app in Hin as [Hin|Hin]);
    try (eapply Hcopy; eassumption); inv_elem.
Qed.

(** How a merge ends: with [nil] after a commit and no failed call, or
    with the error of its one failed call, which is not a [db.Exec]. *)
Lemma merge_run_end tx query revisionQuery evs res :
  merge_run tx query revisionQuery evs res ->
  (exists r post, evs = Called DbBegin r :: post) /\
  (forall q r, Called (DbExec q) r ∉ evs) /\
  (res = inl tt /\ failures evs = [] /\ committed tx evs = true \/
   exists c err, res = inr err /\ failures evs = [(c, err)] /\
                 forall q, c <> DbExec q).
Proof.
  unfold committed.
  inversion 1 as [err|n1 err Hrev|n1 a err|n1 a n2 err|n1 a n2 n3]; subst;
    unfold revision_events; try case_bool_decide; simpl;
    repeat case_decide; try congruence; simpl.
  all: split; [now eexists _, _|].
  all: split; [intros q r Hin; inv_elem|].
  all: try (left; done).
  all: right; eexists _, _; split; [reflexivity|]; split; [reflexivity|]; discriminate.
Qed.

(** What the code does when [ANALYZE] fails: its error is dropped, the
    next event of the run is the [db.Begin] of the merge transaction.
    If no other call fails, [Upsert] returns [nil] with the merge
    committed, and an error that [Upsert] returns is the error of the
    last failed call, which is not the [ANALYZE]. *)
Theorem analyze_failure_ignored
    (db : database) (now : list (call * reply) -> Z)
    (CopyIn : string -> list string -> string) (Template : Type)
    (ParseFiles : string -> FuncMap -> string -> Template + error)
    (Execute : Template -> upsertInfo -> string + error)
    (table idColumn : string) (columns : list string) (rows : list (list string))
    (hasRevisions : bool) (query revisionQuery : string) (err : error) :
  buildQuery Template ParseFiles Execute table (tempTable_of table) idColumn columns
    hasRevisions = (query, revisionQuery, None) ->
  let run := Upsert db now CopyIn Template ParseFiles Execute
               table idColumn columns rows hasRevisions [] in
  let analyze := DbExec (analyze_sql (tempTable_of table)) in
  Called analyze (Failed err) ∈ run.1 ->
  (exists pre r post,
      run.1 = pre ++ [Logged LogAnalyzing; Called analyze (Failed err); Called DbBegin r]
                  ++ post /\
      begun pre = 1%nat) /\
  (failures run.1 = [(analyze, err)] -> run.2 = inl tt /\ committed 2 run.1 = true) /\
  (forall e, run.2 = inr e ->
      exists c, c <> analyze /\ last (failures run.1) = Some (c, e)).
Proof.
  intros Hbuild run analyze Hin. subst run analyze.
  destruct (Upsert db now CopyIn Template ParseFiles Execute
              table idColumn columns rows hasRevisions []) as [tr res] eqn:Hrun.
  destruct (Upsert_run _ _ _ _ _ _ _ _ _ _ _ _ _ _ _ Hbuild Hrun) as [Hshape _].
  simpl in Hin |- *. assert (H21 : 2%nat <> 1%nat) by lia.
  inversion Hshape as [evs e Hs|evs1 c evs2 e Hs Hp|evs1 c evs2 evs3 res' Hs Hp Hm];
    subst.
  - now apply (stage_run_no_DbExec _ _ _ _ _ _ _ _ _ Hs) in Hin.
  - apply elem_of_app in Hin as [Hin|Hin];
      [now apply (stage_run_no_DbExec _ _ _ _ _ _ _ _ _ Hs) in Hin|].
    inversion Hp; subst. inv_elem.
  - destruct (merge_run_end _ _ _ _ _ Hm) as ((r & post & Hevs3) & Hnodb & Hend).
    apply elem_of_app in Hin as [Hin|Hin];
      [now apply (stage_run_no_DbExec _ _ _ _ _ _ _ _ _ Hs) in Hin|].
    apply elem_of_app in Hin as [Hin|Hin]; [|now apply Hnodb in Hin].
    inversion Hp as [|n r0]; subst evs2. inv_elem.
    unfold committed in *.
    rewrite !failures_app, (failures_copy_ok_stage _ _ _ _ _ _ _ Hs).
    rewrite !commits_app, (commits_stage 2 1 _ _ _ _ _ _ H21 Hs).
    change (failures [Logged LogCreatingIndex;
                      Called (DbExec (create_index_sql (tempTable_of table) idColumn)) (Ok n);
                      Logged LogAnalyzing;
                      Called (DbExec (analyze_sql (tempTable_of table))) (Failed err)])
      with [(DbExec (analyze_sql (tempTable_of table)), err)].
    rewrite !app_nil_l.
    split; [|split].
    + exists (evs1 ++ [Logged LogCreatingIndex;
                       Called (DbExec (create_index_sql (tempTable_of table) idColumn))
                         (Ok n)]), r, post.
      split; [rewrite <- !app_assoc; reflexivity|].
      now rewrite begun_app, (begun_stage _ _ _ _ _ _ _ Hs).
    + intros Hf. destruct Hend as [(-> & _ & Hc)|(c0 & e & _ & Hf' & _)]; [done|].
      rewrite Hf' in Hf. discriminate.
    + intros e ->. destruct Hend as [(Hres & _)|(c0 & e' & Hres & Hf' & Hc0)];
        [discriminate|].
      injection Hres as ->. exists c0. split; [apply Hc0|].
      now rewrite Hf'.
Qed.

Lemma analyze_failure_ignored_witness :
  let db := Sample.db_refusing Sample.is_analyze (mkError "pq: permission denied") in
  let run := Sample.run db "public.users" "id" ["id"; "name"] [["1"; "Alice"]] true in
  let analyze := DbExec (analyze_sql (tempTable_of "public.users")) in
  buildQuery string Sample.ParseFiles Sample.Execute "public.users"
    (tempTable_of "public.users") "id" ["id"; "name"] true
  = ("upsert.sql.template public.users public_users_temp",
     "updaterevisions.sql.template public.users public_users_temp", None) /\
  Called analyze (Failed (mkError "pq: permission denied")) ∈ run.1 /\
  failures run.1 = [(analyze, mkError "pq: permission denied")] /\
  run.2 = inl tt /\ committed 2 run.1 = true.
Proof.
  intros db run analyze.
  assert (Hin : Called analyze (Failed (mkError "pq: permission denied")) ∈ run.1).
  { apply list_elem_of_In. vm_compute. repeat first [left; reflexivity | right]. }
  split; [reflexivity|]. split; [exact Hin|]. split; [reflexivity|].
  apply (proj1 (proj2 (analyze_failure_ignored db Sample.clock Sample.CopyIn string
                         Sample.ParseFiles Sample.Execute "public.users" "id"
                         ["id"; "name"] [["1"; "Alice"]] true
                         "upsert.sql.template public.users public_users_temp"
                         "updaterevisions.sql.template public.users public_users_temp"
                         (mkError "pq: permission denied") eq_refl Hin))).
  reflexivity.
Defined.

(** C8: the claim says that a failed [ANALYZE] is logged; the code
    assigns its error to [err] and overwrites it with the result of
    [db.Begin], unread.  Run on one record against a database that
    refuses the [ANALYZE] and accepts every other call, [Upsert] returns
    [nil], and the log of that run is line for line the log of the run
    in which the [ANALYZE] succeeded: nothing records the failure. *)
Lemma analyze_failure_not_logged :
  let db := Sample.db_refusing Sample.is_analyze (mkError "pq: permission denied") in
  let failing := Sample.run db "public.users" "id" ["id"; "name"] [["1"; "Alice"]] true in
  let fine :=
    Sample.run Sample.db_ok "public.users" "id" ["id"; "name"] [["1"; "Alice"]] true in
  failures failing.1
    = [(DbExec "ANALYZE public_users_temp", mkError "pq: permission denied")] /\
  failures fine.1 = [] /\
  failing.2 = inl tt /\
  logs failing.1 = logs fine.1.
Proof. repeat split; reflexivity. Qed.

(** ** The processed-row counter *)

Lemma accepted_progress_line c : accepted (progress_line c) = 0%nat.
Proof. unfold progress_line. now destruct (GoInt.rem c 100000 =? 0). Qed.

Lemma accepted_ok args n (evs : list event) :
  accepted (Called (StmtExec args) (Ok n) :: evs) = S (accepted evs).
Proof. reflexivity. Qed.

Lemma add_one_small (c : Z) (k : nat) :
  0 <= c -> c + Z.of_nat (S k) <= GoInt.int_max -> GoInt.add c 1 = c + 1.
Proof.
  intros H0 Hmax. unfold GoInt.add. apply wrap_small.
  unfold GoInt.in_range, GoInt.int_min, GoInt.int_max in *. lia.
Qed.

Lemma rem_is_mod (n : Z) : 0 <= n -> GoInt.rem n 100000 = n mod 100000.
Proof. intros H. unfold GoInt.rem. apply Z.rem_mod_nonneg; lia. Qed.

(** The loop that ends normally has counted every record. *)
Lemma copy_run_counts table rows c evs c' :
  copy_run table rows c evs (inl c') ->
  0 <= c -> c + Z.of_nat (length rows) <= GoInt.int_max ->
  c' = c + Z.of_nat (length rows) /\ accepted evs = length rows.
Proof.
  intros Hrun. remember (inl c') as res eqn:Hres. revert Hres.
  induction Hrun as [c|rawRow rest c err|rawRow rest c n evs res _ IH];
    intros Hres H0 Hmax.
  - injection Hres as <-. simpl. split; [lia | reflexivity].
  - discriminate.
  - pose proof (add_one_small c (length rest) H0 Hmax) as Hadd.
    rewrite Hadd in IH.
    destruct (IH Hres) as [-> Hacc]; [lia | simpl length in Hmax; lia |].
    rewrite accepted_ok, accepted_app, accepted_progress_line, Hacc.
    simpl length. split; [lia | reflexivity].
Qed.

(** A progress line carries the number of rows accepted before it, a
    positive multiple of 100,000. *)
Lemma copy_run_progress_at table rows c evs res :
  copy_run table rows c evs res ->
  0 <= c -> c + Z.of_nat (length rows) <= GoInt.int_max ->
  forall pre n post,
    evs = pre ++ Logged (LogProcessed n) :: post ->
    n = c + Z.of_nat (accepted pre) /\ 0 < n /\ n mod 100000 = 0.
Proof.
  induction 1 as [c|rawRow rest c err|rawRow rest c m evs res _ IH];
    intros H0 Hmax pre n post Heq.
  - destruct pre; discriminate.
  - destruct pre as [|? [|? [|? ?]]]; discriminate.
  - pose proof (add_one_small c (length rest) H0 Hmax) as Hadd.
    rewrite Hadd in *.
    assert (IH' := fun pre0 => IH ltac:(lia) ltac:(simpl length in Hmax; lia) pre0 n post).
    destruct pre as [|p pre]; [discriminate|].
    injection Heq as <- Heq. rewrite accepted_ok.
    unfold progress_line in Heq.
    destruct (GoInt.rem (c + 1) 100000 =? 0) eqn:Hm.
    + destruct pre as [|p pre].
      * injection Heq as <- _. apply Z.eqb_eq in Hm.
        rewrite rem_is_mod in Hm by lia.
        change (accepted []) with 0%nat. lia.
      * injection Heq as <- Heq. destruct (IH' pre Heq) as (-> & Hpos & Hmod).
        change (accepted (Logged (LogProcessed (c + 1)) :: pre)) with (accepted pre).
        lia.
    + simpl in Heq. destruct (IH' pre Heq) as (-> & Hpos & Hmod). lia.
Qed.

Lemma progress_progress_line (c : Z) :
  0 <= c ->
  progress (progress_line (c + 1)) = if milestone (c + 1) then [c + 1] else [].
Proof.
  intros H0. unfold progress_line, milestone.
  rewrite rem_is_mod by lia.
  replace (0 <? c + 1) with true by (symmetry; apply Z.ltb_lt; lia).
  now destruct (_ =? 0).
Qed.

(** The progress lines are exactly the counter values, among those the
    loop went through, that are positive multiples of 100,000. *)
Lemma copy_run_progress table rows c evs res :
  copy_run table rows c evs res ->
  0 <= c -> c + Z.of_nat (length rows) <= GoInt.int_max ->
  progress evs
  = List.filter milestone ((fun i => c + Z.of_nat i) <$> seq 1 (accepted evs)).
Proof.
  induction 1 as [c|rawRow rest c err|rawRow rest c m evs res _ IH]; intros H0 Hmax.
  - reflexivity.
  - reflexivity.
  - pose proof (add_one_small c (length rest) H0 Hmax) as Hadd.
    rewrite Hadd in *.
    rewrite accepted_ok, accepted_app, accepted_progress_line. simpl plus.
    change (progress (Called (StmtExec (convert_row rawRow)) (Ok m)
                        :: progress_line (c + 1) ++ evs))
      with (progress (progress_line (c + 1) ++ evs)).
    rewrite progress_app, progress_progress_line by exact H0.
    rewrite IH by (simpl length in Hmax; lia).
    cbn [seq fmap list_fmap List.filter].
    replace (c + Z.of_nat 1) with (c + 1) by lia.
    rewrite <- (fmap_S_seq 1), <- list_fmap_compose.
    assert (Hext : (fun i => c + 1 + Z.of_nat i) <$> seq 1 (accepted evs)
                   = ((fun i => c + Z.of_nat i) ∘ S) <$> seq 1 (accepted evs)).
    { apply list_fmap_ext. intros _ i _. simpl. lia. }
    rewrite Hext. now destruct (milestone (c + 1)).
Qed.

Lemma copy_rows_cons db table rawRow rest c (tr : trace) :
  copy_rows db table (rawRow :: rest) c tr =
  match db (history tr) (StmtExec (convert_row rawRow)) with
  | Ok n =>
      copy_rows db table rest (GoInt.add c 1)
        (tr ++ Called (StmtExec (convert_row rawRow)) (Ok n)
            :: progress_line (GoInt.add c 1))
  | Failed err =>
      (tr ++ [Called (StmtExec (convert_row rawRow)) (Failed err);
              Printed table (convert_row rawRow)], inr err)
  end.
Proof.
  cbn [copy_rows]. unfold bind at 1. unfold do_call at 1.
  destruct (db (history tr) (StmtExec (convert_row rawRow))) as [n|err].
  - unfold bind at 1. unfold progress_line.
    destruct (GoInt.rem (GoInt.add c 1) 100000 =? 0).
    + unfold log, emit. now rewrite <- app_assoc.
    + unfold ret. reflexivity.
  - unfold bind, emit, throw. now rewrite <- app_assoc.
Qed.

(** The calls of the loop, and whether and how it fails, do not depend on
    the counter: the progress lines change nothing in what it does. *)
Lemma copy_rows_counter_free db table rows :
  forall c c' (tr tr' : trace),
    history tr = history tr' ->
    history (copy_rows db table rows c tr).1 = history (copy_rows db table rows c' tr').1 /\
    forall err, (copy_rows db table rows c tr).2 = inr err <->
                (copy_rows db table rows c' tr').2 = inr err.
Proof.
  induction rows as [|rawRow rest IH]; intros c c' tr tr' Hh.
  - simpl. split; [exact Hh|]. intros err. split; discriminate.
  - rewrite !copy_rows_cons, Hh.
    destruct (db (history tr') (StmtExec (convert_row rawRow))) as [n|err].
    + apply IH. rewrite !history_app, Hh.
      change (history (?ev :: progress_line ?x))
        with (history [ev] ++ history (progress_line x)).
      simpl. now rewrite !history_progress_line.
    + simpl. split; [|tauto]. now rewrite !history_app, Hh.
Qed.

Lemma failures_elem (tr : list event) (c : call) (err : error) :
  Called c (Failed err) ∈ tr -> (c, err) ∈ failures tr.
Proof.
  intros Hin. unfold failures. apply list_elem_of_omap.
  now exists (Called c (Failed err)).
Qed.

Ltac find_elem :=
  repeat first [ apply elem_of_cons; left; reflexivity
               | apply elem_of_cons; right
               | apply elem_of_app; right ].

(** A run that returns an error holds a failed call. *)
Lemma upsert_run_failed table idColumn copySQL rows query revisionQuery tr err :
  upsert_run table idColumn copySQL rows query revisionQuery tr (inr err) ->
  exists c, (c, err) ∈ failures tr.
Proof.
  inversion 1 as [evs e Hs|evs1 c evs2 e Hs Hp|evs1 c evs2 evs3 res' Hs Hp Hm]; subst.
  - inversion Hs as [ | | |n1 n2 n3 evs0 err0 Hcopy| | | | ]; subst;
      try (eexists; apply failures_elem; unfold stage_opening; find_elem; fail).
    destruct (copy_run_failed _ _ _ _ _ Hcopy) as (pre & i & rawRow & -> & _).
    eexists. apply failures_elem. find_elem.
  - inversion Hp; subst. eexists. apply failures_elem. find_elem.
  - destruct (merge_run_end _ _ _ _ _ Hm) as (_ & _ & [(Hres & _)|(c0 & e & Hres & Hf & _)]);
      [discriminate|].
    injection Hres as <-. exists c0. rewrite !failures_app, Hf.
    apply elem_of_app. right. apply elem_of_app. right. apply elem_of_cons. now left.
Qed.

Lemma answered_by_ok db (seen tr : trace) :
  (forall h c, is_ok (db h c) = true) -> answered_by db seen tr -> failures tr = [].
Proof.
  intros Hok. revert seen. induction tr as [|ev tr IH]; intros seen Hans; [reflexivity|].
  destruct ev as [c r| |]; simpl in Hans.
  - destruct Hans as [-> Hans]. specialize (Hok (history seen) c).
    destruct (db (history seen) c); [|discriminate].
    exact (IH _ Hans).
  - exact (IH _ Hans).
  - exact (IH _ Hans).
Qed.

Lemma copy_run_no_total table rows c evs res n m s :
  copy_run table rows c evs res -> Logged (LogTotal n m s) ∉ evs.
Proof.
  intros Hc Hin. apply copy_run_events in Hc.
  rewrite Forall_forall in Hc. specialize (Hc _ Hin). discriminate.
Qed.

(** The total that is logged is the final counter of the loop. *)
Lemma upsert_run_total table idColumn copySQL rows query revisionQuery tr res n m s :
  upsert_run table idColumn copySQL rows query revisionQuery tr res ->
  Logged (LogTotal n m s) ∈ tr ->
  exists evs0, copy_run table rows 0 evs0 (inl n).
Proof.
  assert (Hstage : forall tx createSQL evs r,
             stage_run tx table createSQL copySQL rows evs r ->
             Logged (LogTotal n m s) ∈ evs ->
             exists evs0, copy_run table rows 0 evs0 (inl n)).
  { intros tx createSQL evs r Hs Hin.
    inversion Hs; subst; unfold stage_opening in Hin;
      repeat (apply elem_of_app in Hin as [Hin|Hin]);
      try (exfalso; eapply copy_run_no_total; eassumption);
      inv_elem; eauto. }
  assert (Hprep : forall i a evs r, prepare_run i a evs r -> Logged (LogTotal n m s) ∉ evs).
  { intros i a evs r Hp Hin. inversion Hp; subst; inv_elem. }
  assert (Hmerge : forall tx evs r, merge_run tx query revisionQuery evs r ->
                                    Logged (LogTotal n m s) ∉ evs).
  { intros tx evs r Hm Hin.
    inversion Hm; subst; unfold revision_events in Hin; try case_bool_decide;
      simpl in Hin; inv_elem. }
  inversion 1 as [evs e Hs|evs1 c evs2 e Hs Hp|evs1 c evs2 evs3 res' Hs Hp Hm];
    subst; intros Hin.
  - eauto.
  - apply elem_of_app in Hin as [Hin|Hin]; [eauto|]. now apply Hprep in Hp.
  - apply elem_of_app in Hin as [Hin|Hin]; [eauto|].
    apply elem_of_app in Hin as [Hin|Hin]; [now apply Hprep in Hp|].
    now apply Hmerge in Hm.
Qed.

Lemma upsert_run_empty table idColumn copySQL query revisionQuery tr :
  upsert_run table idColumn copySQL [] query revisionQuery tr (inl tt) ->
  exists m s, Logged (LogTotal 0 m s) ∈ tr.
Proof.
  inversion 1 as [| |evs1 c evs2 evs3 res' Hs Hp Hm]; subst.
  inversion Hs as [| | | | | | |n1 n2 n3 evs0 c0 n4 n5 n6 m s Hcopy]; subst.
  inversion Hcopy; subst.
  exists m, s. unfold stage_opening. apply elem_of_app. left. find_elem.
Qed.

(** ** Sample runs *)

Example copy_rows_milestone :
  copy_rows Sample.db_ok "t" [["a"]; ["b"]; [""]] 99998 []
  = ([Called (StmtExec [IString "a"]) (Ok 0);
      Called (StmtExec [IString "b"]) (Ok 0);
      Logged (LogProcessed 100000);
      Called (StmtExec [INil]) (Ok 0)],
     inl 100001).
Proof. reflexivity. Qed.

Example Upsert_sample_run :
  Sample.run Sample.db_ok "public.users" "id" ["id"; "name"]
    [["1"; "Alice"]; ["2"; ""]] true
  = ([Logged LogStarting;
      Called DbBegin (Ok 0);
      Called (TxExec 1 "CREATE TEMP TABLE public_users_temp(LIKE public.users)") (Ok 0);
      Called (TxPrepare 1 "COPY public_users_temp (id, name) FROM STDIN") (Ok 0);
      Called (StmtExec [IString "1"; IString "Alice"]) (Ok 0);
      Called (StmtExec [IString "2"; INil]) (Ok 0);
      Called (StmtExec []) (Ok 0);
      Called StmtClose (Ok 0);
      Called (TxCommit 1) (Ok 0);
      Logged (LogTotal 2 4 0);
      Logged LogCreatingIndex;
      Called (DbExec "CREATE UNIQUE INDEX ON public_users_temp(id)") (Ok 0);
      Logged LogAnalyzing;
      Called (DbExec "ANALYZE public_users_temp") (Ok 0);
      Called DbBegin (Ok 0);
      Logged LogCalculating;
      Called (TxExec 2 "updaterevisions.sql.template public.users public_users_temp") (Ok 0);
      Logged (LogUpdatedRevision 0);
      Logged LogPerforming;
      Called (TxExec 2 "upsert.sql.template public.users public_users_temp") (Ok 0);
      Logged LogCommitting;
      Called (TxCommit 2) (Ok 0);
      Logged LogDone],
     inl tt).
Proof. reflexivity. Qed.

Example Legacy_sample_run :
  Sample.legacy_run Sample.db_ok "public.users" "id" ["id"; "name"]
    [["1"; "Alice"]; ["2"; ""]]
  = ([Called DbBegin (Ok 0);
      Called (TxExec 1
                "CREATE TEMP TABLE public_users_temp(LIKE public.users) ON COMMIT DROP;")
        (Ok 0);
      Called (TxPrepare 1 "COPY public_users_temp (id, name) FROM STDIN") (Ok 0);
      Called (StmtExec [IString "1"; IString "Alice"]) (Ok 0);
      Called (StmtExec [IString "2"; INil]) (Ok 0);
      Called (StmtExec []) (Ok 0);
      Called (TxExec 1 "upsert.sql.template public.users public_users") (Ok 0);
      Called (TxCommit 1) (Ok 0)],
     inl tt).
Proof. reflexivity. Qed.

Example Upsert_refused_row :
  Sample.run (Sample.db_refusing Sample.is_append (mkError "pq: invalid input syntax"))
    "users" "id" ["id"; "name"] [["x"; "Ann"]; ["2"; "Bob"]] false
  = ([Logged LogStarting;
      Called DbBegin (Ok 0);
      Called (TxExec 1 "CREATE TEMP TABLE users_temp(LIKE users)") (Ok 0);
      Called (TxPrepare 1 "COPY users_temp (id, name) FROM STDIN") (Ok 0);
      Called (StmtExec [IString "x"; IString "Ann"])
        (Failed (mkError "pq: invalid input syntax"));
      Printed "users" [IString "x"; IString "Ann"]],
     inr (mkError "pq: invalid input syntax")).
Proof. reflexivity. Qed.

Example fn_sub_order : fn_sub 1 5 = 4 /\ fn_sub 5 1 = -4.
Proof. split; reflexivity. Qed.

Example fn_sub_wraps : fn_sub GoInt.int_min 1 = GoInt.int_min + 1.
Proof. reflexivity. Qed.

Example fn_eq_values :
  fn_eq (IString "id") (IString "id") = Returns true /\
  fn_eq (IString "id") (IString "name") = Returns false /\
  fn_eq (IInt 1) (IString "1") = Returns false /\
  fn_eq INil INil = Returns true.
Proof. repeat split; reflexivity. Qed.

(** * Further properties of the package *)

(** ** The staging name *)

Lemma strings_Replace_length (s : string) (old new : ascii) :
  String.length (strings_Replace s old new) = String.length s.
Proof. induction s as [|c s IH]; simpl; [reflexivity | now rewrite IH]. Qed.

Lemma strings_Replace_removes (s : string) (old new : ascii) :
  old <> new -> contains_byte old (strings_Replace s old new) = false.
Proof.
  intros Hne. induction s as [|c s IH]; simpl; [reflexivity|].
  rewrite IH, orb_false_r.
  destruct (Ascii.eqb c old) eqn:Hc; [|exact Hc].
  apply Ascii.eqb_neq. congruence.
Qed.

Lemma strings_Replace_without (s : string) (old new : ascii) :
  contains_byte old s = false -> strings_Replace s old new = s.
Proof.
  induction s as [|c s IH]; simpl; [reflexivity|].
  intros H. apply orb_false_iff in H as [Hc Hs].
  rewrite Hc. now rewrite IH.
Qed.

Lemma contains_byte_append (c : ascii) (s1 s2 : string) :
  contains_byte c (s1 +:+ s2) = contains_byte c s1 || contains_byte c s2.
Proof.
  induction s1 as [|d s1 IH]; simpl; [reflexivity|].
  now rewrite IH, orb_assoc.
Qed.

(** The staging name holds no ['.'], whatever the target name: it is
    never read as a name qualified by a schema.  A target name without
    ['.'] only gets the suffix ["_temp"]. *)
Theorem tempTable_of_unqualified :
  (forall t : string, contains_byte "."%char (tempTable_of t) = false) /\
  (forall t : string,
      contains_byte "."%char t = false -> tempTable_of t = t +:+ "_temp").
Proof.
  split.
  - intros t. unfold tempTable_of.
    rewrite contains_byte_append, strings_Replace_removes by discriminate.
    reflexivity.
  - intros t H. unfold tempTable_of. now rewrite strings_Replace_without.
Qed.

Lemma tempTable_of_unqualified_witness :
  contains_byte "."%char "users" = false /\ tempTable_of "users" = "users" +:+ "_temp".
Proof.
  split; [reflexivity|].
  apply (proj2 tempTable_of_unqualified "users"). reflexivity.
Defined.

(** The staging name is five bytes longer than the target name, so the
    staging table is never the target table itself. *)
Theorem tempTable_of_is_not_target (t : string) :
  String.length (tempTable_of t) = (String.length t + 5)%nat /\ tempTable_of t <> t.
Proof.
  assert (Hlen : String.length (tempTable_of t) = (String.length t + 5)%nat).
  { unfold tempTable_of. rewrite append_length, strings_Replace_length. reflexivity. }
  split; [exact Hlen|].
  intros Heq. rewrite Heq in Hlen. lia.
Qed.

(** ** The conversion of a record *)

Lemma to_value_inj (a b : string) : to_value a = to_value b -> a = b.
Proof.
  unfold to_value. repeat case_bool_decide; intros Heq; congruence.
Qed.

(** The conversion keeps the number of fields, never yields the empty
    string as a value, and loses nothing: two records that convert to
    the same row are the same record. *)
Theorem convert_row_faithful :
  (forall rawRow : list string, length (convert_row rawRow) = length rawRow) /\
  (forall rawRow : list string, IString "" ∉ convert_row rawRow) /\
  (forall r1 r2 : list string, convert_row r1 = convert_row r2 -> r1 = r2).
Proof.
  split; [|split].
  - intros rawRow. now rewrite convert_row_map, length_map.
  - intros rawRow Hin. rewrite convert_row_map in Hin.
    apply list_elem_of_fmap in Hin as (column & Heq & _).
    unfold to_value in Heq. case_bool_decide; congruence.
  - intros r1 r2. rewrite !convert_row_map. revert r2.
    induction r1 as [|a r1 IH]; intros [|b r2] H; try discriminate; [reflexivity|].
    simpl in H. injection H as Hab Hrest.
    f_equal; [now apply to_value_inj | now apply IH].
Qed.

Lemma convert_row_faithful_witness :
  convert_row ["1"; ""] = convert_row ["1"; ""] /\ ["1"; ""] = ["1"; ""].
Proof.
  split; [reflexivity|].
  apply (proj2 (proj2 convert_row_faithful) ["1"; ""] ["1"; ""]). reflexivity.
Defined.

(** ** The helpers *)

Lemma wrap_mod (z : Z) : (GoInt.wrap z - GoInt.int_min) mod GoInt.modulus
                         = (z - GoInt.int_min) mod GoInt.modulus.
Proof.
  unfold GoInt.wrap.
  replace ((z - GoInt.int_min) mod GoInt.modulus + GoInt.int_min - GoInt.int_min)
    with ((z - GoInt.int_min) mod GoInt.modulus) by lia.
  apply Z.mod_mod. unfold GoInt.modulus. lia.
Qed.

(** Adding its first argument to what [sub] returns gives back the
    second, also when the subtraction has wrapped around. *)
Theorem fn_sub_add_back (a b : Z) :
  GoInt.in_range b -> GoInt.add (fn_sub a b) a = b.
Proof.
  intros Hb. unfold GoInt.add, fn_sub, GoInt.sub.
  rewrite <- (wrap_small b Hb) at 2.
  unfold GoInt.wrap at 1 3. f_equal.
  replace (GoInt.wrap (b - a) + a - GoInt.int_min)
    with ((GoInt.wrap (b - a) - GoInt.int_min) + a) by lia.
  rewrite <- Zplus_mod_idemp_l, wrap_mod, Zplus_mod_idemp_l.
  f_equal. lia.
Qed.

Lemma fn_sub_add_back_witness :
  GoInt.in_range 1 /\ GoInt.add (fn_sub GoInt.int_min 1) GoInt.int_min = 1.
Proof.
  assert (H : GoInt.in_range 1)
    by (unfold GoInt.in_range, GoInt.int_min, GoInt.int_max; lia).
  split; [exact H|].
  apply (fn_sub_add_back GoInt.int_min 1 H).
Defined.

(** [eq] does not depend on the order of its operands: both orders
    return the same value or both panic, and it panics exactly when both
    operands are slices of strings. *)
Theorem fn_eq_symmetric (x y : iface) :
  fn_eq x y = fn_eq y x /\
  (fn_eq x y = Panics <-> exists l1 l2, x = IStrings l1 /\ y = IStrings l2).
Proof.
  split.
  - destruct x, y; simpl; try reflexivity; f_equal.
    + apply bool_decide_ext. split; congruence.
    + apply Z.eqb_sym.
    + apply bool_decide_ext. split; congruence.
  - destruct x, y; simpl; split; try discriminate;
      try (intros (l1 & l2 & H1 & H2); congruence).
    intros _. now eexists _, _.
Qed.

(** ** The statements *)

(** [buildQuery] returns statements or an error, never both: with an
    error both statements are empty, also when it is the template of the
    revisions that fails after the upsert statement has been rendered.
    The same holds for the one statement of the earlier revision. *)
Theorem buildQuery_all_or_nothing (Template : Type)
    (ParseFiles : string -> FuncMap -> string -> Template + error)
    (Execute : Template -> upsertInfo -> string + error)
    (LegacyExecute : Template -> Legacy.upsertInfo -> string + error)
    (table tempTable idColumn : string) (columns : list string) (hasRevisions : bool) :
  let built := buildQuery Template ParseFiles Execute table tempTable idColumn columns
                 hasRevisions in
  let legacy := Legacy.buildQuery Template ParseFiles LegacyExecute table tempTable
                  idColumn columns in
  (built.2 <> None -> built.1 = ("", "")) /\
  (legacy.2 <> None -> legacy.1 = "").
Proof.
  unfold buildQuery, Legacy.buildQuery. simpl. split.
  - destruct (ParseFiles "upsert.sql.template" _ _) as [t|err]; [|reflexivity].
    destruct (Execute t _) as [upsertBuf|err]; [|reflexivity].
    destruct hasRevisions; [|intros H; now destruct H].
    destruct (ParseFiles "updaterevisions.sql.template" _ _) as [t'|err]; [|reflexivity].
    destruct (Execute t' _) as [revisionBuf|err]; [|reflexivity].
    intros H; now destruct H.
  - destruct (ParseFiles "upsert.sql.template" _ _) as [t|err]; [|reflexivity].
    destruct (LegacyExecute t _) as [buf|err]; [|reflexivity].
    intros H; now destruct H.
Qed.

Lemma buildQuery_all_or_nothing_witness :
  let built := buildQuery string (Faulty.ParseFiles "updaterevisions.sql.template")
                 Sample.Execute "public.users" "public_users_temp" "id" ["id"; "name"]
                 true in
  built.2 <> None /\ built.1 = ("", "").
Proof.
  intros built.
  assert (H : built.2 <> None) by (vm_compute; discriminate).
  split; [exact H|].
  exact (proj1 (buildQuery_all_or_nothing string
                  (Faulty.ParseFiles "updaterevisions.sql.template")
                  Sample.Execute Sample.LegacyExecute
                  "public.users" "public_users_temp" "id" ["id"; "name"] true) H).
Defined.

(** Without revisions the template of the revisions is not read: two
    template directories that agree on the upsert template give the
    same statements and the same run of [Upsert], whatever they hold
    for the other template, also when it is missing. *)
Theorem buildQuery_revision_template_on_demand
    (db : database) (now : list (call * reply) -> Z)
    (CopyIn : string -> list string -> string) (Template : Type)
    (ParseFiles ParseFiles' : string -> FuncMap -> string -> Template + error)
    (Execute : Template -> upsertInfo -> string + error)
    (table tempTable idColumn : string) (columns : list string)
    (rows : list (list string)) (tr : trace) :
  ParseFiles "upsert.sql.template" fns "sql/upsert.sql.template"
  = ParseFiles' "upsert.sql.template" fns "sql/upsert.sql.template" ->
  buildQuery Template ParseFiles Execute table tempTable idColumn columns false
  = buildQuery Template ParseFiles' Execute table tempTable idColumn columns false /\
  Upsert db now CopyIn Template ParseFiles Execute table idColumn columns rows false tr
  = Upsert db now CopyIn Template ParseFiles' Execute table idColumn columns rows false tr.
Proof.
  intros H.
  assert (Hbuild : forall tempTable',
             buildQuery Template ParseFiles Execute table tempTable' idColumn columns false
             = buildQuery Template ParseFiles' Execute table tempTable' idColumn columns
                 false).
  { intros tempTable'. unfold buildQuery. now rewrite H. }
  split; [apply Hbuild|].
  unfold Upsert. now rewrite Hbuild.
Qed.

Lemma buildQuery_revision_template_on_demand_witness :
  Sample.run Sample.db_ok "public.users" "id" ["id"; "name"] [["1"; "Alice"]] false
  = Faulty.run "updaterevisions.sql.template" Sample.db_ok
      "public.users" "id" ["id"; "name"] [["1"; "Alice"]] false.
Proof.
  apply (proj2 (buildQuery_revision_template_on_demand Sample.db_ok Sample.clock
                  Sample.CopyIn string Sample.ParseFiles
                  (Faulty.ParseFiles "updaterevisions.sql.template") Sample.Execute
                  "public.users" "public_users_temp" "id" ["id"; "name"]
                  [["1"; "Alice"]] [] eq_refl)).
Defined.

(** ** Runs that stop before the database *)

Lemma stage_run_head tx table createSQL copySQL rows evs res :
  stage_run tx table createSQL copySQL rows evs res ->
  exists post, evs = Logged LogStarting :: post.
Proof. inversion 1; subst; unfold stage_opening; simpl; now eexists. Qed.

Lemma upsert_run_head table idColumn copySQL rows query revisionQuery tr res :
  upsert_run table idColumn copySQL rows query revisionQuery tr res ->
  exists post, tr = Logged LogStarting :: post.
Proof.
  inversion 1 as [evs e Hs|evs1 c evs2 e Hs Hp|evs1 c evs2 evs3 res' Hs Hp Hm]; subst;
    destruct (stage_run_head _ _ _ _ _ _ _ Hs) as [post ->]; simpl; now eexists.
Qed.

Lemma legacy_run_head tx table createSQL copySQL rows query evs res :
  legacy_run tx table createSQL copySQL rows query evs res ->
  exists r post, evs = Called DbBegin r :: post.
Proof. inversion 1; subst; unfold legacy_opening; simpl; now eexists _, _. Qed.

(** [Upsert] renders its statements before anything else: when a
    template fails it returns that error with no call to the database
    and no log line, and a run that leaves no event is such a run.  Once
    the statements are rendered the first event is the log line
    ["Starting copy"] (the call [db.Begin] in the earlier revision). *)
Theorem Upsert_silent_iff_build_failed
    (db : database) (now : list (call * reply) -> Z)
    (CopyIn : string -> list string -> string) (Template : Type)
    (ParseFiles : string -> FuncMap -> string -> Template + error)
    (Execute : Template -> upsertInfo -> string + error)
    (LegacyExecute : Template -> Legacy.upsertInfo -> string + error)
    (table idColumn : string) (columns : list string) (rows : list (list string))
    (hasRevisions : bool) :
  let built := buildQuery Template ParseFiles Execute table (tempTable_of table)
                 idColumn columns hasRevisions in
  let run := Upsert db now CopyIn Template ParseFiles Execute
               table idColumn columns rows hasRevisions [] in
  let legacy_built := Legacy.buildQuery Template ParseFiles LegacyExecute table
                        (strings_Replace table "."%char "_"%char) idColumn columns in
  let legacy := Legacy.Upsert db CopyIn Template ParseFiles LegacyExecute
                  table idColumn columns rows [] in
  (forall err, built.2 = Some err <-> run = ([], inr err)) /\
  (built.2 = None <-> exists post, run.1 = Logged LogStarting :: post) /\
  (forall err, legacy_built.2 = Some err <-> legacy = ([], inr err)) /\
  (legacy_built.2 = None <-> exists r post, legacy.1 = Called DbBegin r :: post).
Proof.
  simpl.
  destruct (buildQuery Template ParseFiles Execute table (tempTable_of table)
              idColumn columns hasRevisions) as [[query revisionQuery] [e|]] eqn:Hbuild;
    destruct (Legacy.buildQuery Template ParseFiles LegacyExecute table
                (strings_Replace table "."%char "_"%char) idColumn columns)
      as [lquery [le|]] eqn:Hlbuild; simpl.
  all: try rewrite (Upsert_build_failed db now CopyIn _ _ _ _ _ _ rows _ _ _ _ Hbuild).
  all: try rewrite (Legacy_Upsert_build_failed db CopyIn _ _ _ _ _ _ rows _ _ Hlbuild).
  all: try (destruct (Upsert db now CopyIn Template ParseFiles Execute
                        table idColumn columns rows hasRevisions []) as [tr res] eqn:Hrun;
            destruct (Upsert_run _ _ _ _ _ _ _ _ _ _ _ _ _ _ _ Hbuild Hrun) as [Hshape _];
            destruct (upsert_run_head _ _ _ _ _ _ _ _ Hshape) as [post ->]).
  all: try (destruct (Legacy.Upsert db CopyIn Template ParseFiles LegacyExecute
                        table idColumn columns rows []) as [ltr lres] eqn:Hlrun;
            pose proof (Legacy_Upsert_run _ _ _ _ _ _ _ _ _ _ _ _ Hlbuild Hlrun) as Hlshape;
            destruct (legacy_run_head _ _ _ _ _ _ _ _ Hlshape) as (lr & lpost & ->)).
  all: simpl; repeat split; try congruence; try (intros [? ?]; congruence);
    try (intros (? & ? & ?); congruence); eauto.
Qed.

(** ** How a run ends *)

Lemma loaded_appends (tr : trace) :
  loaded (history tr)
  = omap (fun ar => if is_ok ar.2 then kept ar.1 else None) (appends tr).
Proof.
  induction tr as [|ev tr IH]; [reflexivity|].
  destruct ev as [c r|l|t row]; try exact IH.
  destruct c as [|q|tx q|tx q|tx|tx|args|]; try exact IH.
  destruct args as [|v args], r as [n|err]; try exact IH.
  change (loaded (history (Called (StmtExec (v :: args)) (Ok n) :: tr)))
    with ((v :: args) :: loaded (history tr)).
  now rewrite IH.
Qed.

Lemma index_is_not_analyze (tempTable idColumn : string) :
  create_index_sql tempTable idColumn <> analyze_sql tempTable.
Proof. unfold create_index_sql, analyze_sql. simpl. discriminate. Qed.

Lemma answered_by_failures db (seen tr : trace) (c : call) (e : error) :
  answered_by db seen tr -> (c, e) ∈ failures tr -> exists h, db h c = Failed e.
Proof.
  revert seen. induction tr as [|ev tr IH]; intros seen Hans Hin.
  - simpl in Hin. inv_elem.
  - destruct ev as [c' r|l|t row]; simpl in Hans.
    + destruct Hans as [Hr Hans]. destruct r as [n|err].
      * exact (IH _ Hans Hin).
      * change (failures (Called c' (Failed err) :: tr))
          with ((c', err) :: failures tr) in Hin.
        apply elem_of_cons in Hin as [Hin|Hin]; [|exact (IH _ Hans Hin)].
        injection Hin as -> ->. now exists (history seen).
    + exact (IH _ Hans Hin).
    + exact (IH _ Hans Hin).
Qed.

Lemma copy_run_end table rows c evs res :
  copy_run table rows c evs res ->
  match res with
  | inl _ => failures evs = []
  | inr err => exists row, failures evs = [(StmtExec row, err)]
  end.
Proof.
  destruct res as [c'|err]; intros H.
  - exact (copy_run_ok_failures _ _ _ _ _ H).
  - destruct (copy_run_failed _ _ _ _ _ H) as (pre & i & rawRow & -> & _ & _ & Hf).
    exists (convert_row rawRow). now rewrite failures_app, Hf.
Qed.

Lemma stage_run_end tx table createSQL copySQL rows evs res :
  stage_run tx table createSQL copySQL rows evs res ->
  (begun evs <= 1)%nat /\
  (forall tx', (length (commits tx' evs) <= 1)%nat) /\
  match res with
  | inl _ => failures evs = [] /\ begun evs = 1%nat /\ committed tx evs = true
  | inr err => (exists c, failures evs = [(c, err)] /\ forall q, c <> DbExec q) /\
               committed tx evs = false
  end.
Proof.
  intros Hrun.
  assert (Hcopy : forall evs0 r, copy_run table rows 0 evs0 r ->
            begun evs0 = 0%nat /\ (forall tx', commits tx' evs0 = []) /\
            match r with
            | inl _ => failures evs0 = []
            | inr err => exists row, failures evs0 = [(StmtExec row, err)]
            end).
  { intros evs0 r Hc. split; [exact (begun_copy _ _ _ _ _ Hc)|].
    split; [intros tx'; exact (commits_copy _ _ _ _ _ _ Hc)|].
    exact (copy_run_end _ _ _ _ _ Hc). }
  inversion Hrun as [err|n1 err|n1 n2 err|n1 n2 n3 evs0 err Hc|n1 n2 n3 evs0 c err Hc
                    |n1 n2 n3 evs0 c n4 err Hc|n1 n2 n3 evs0 c n4 n5 err Hc
                    |n1 n2 n3 evs0 c n4 n5 n6 m s Hc]; subst;
    try (destruct (Hcopy _ _ Hc) as (Hb & Hcc & Hf);
         try match type of Hf with ex _ => destruct Hf as [row Hf] end);
    unfold stage_opening, committed;
    rewrite ?failures_app, ?begun_app, ?Hb, ?Hf;
    (split; [unfold begun; simpl; lia|]);
    (split; [intros tx'; rewrite ?commits_app, ?Hcc; simpl; repeat case_decide; simpl; lia|]);
    rewrite ?commits_app, ?Hcc; unfold begun; simpl;
    repeat case_decide; try congruence; simpl.
  all: try (split; [eexists; split; [reflexivity|discriminate]|reflexivity]).
  all: try done.
Qed.

Lemma stage_run_not_done tx table createSQL copySQL rows evs res :
  stage_run tx table createSQL copySQL rows evs res -> Logged LogDone ∉ evs.
Proof.
  intros Hrun Hin.
  assert (Hcopy : forall evs0 c r0, copy_run table rows c evs0 r0 ->
                                    Logged LogDone ∉ evs0).
  { intros evs0 c r0 Hc Hin0. apply copy_run_events in Hc.
    rewrite Forall_forall in Hc. specialize (Hc _ Hin0). discriminate. }
  inversion Hrun; subst; unfold stage_opening in Hin;
    repeat (apply elem_of_app in Hin as [Hin|Hin]);
    try (eapply Hcopy; eassumption); inv_elem.
Qed.

Lemma merge_run_done tx query revisionQuery evs :
  merge_run tx query revisionQuery evs (inl tt) ->
  exists pre, evs = pre ++ [Logged LogDone].
Proof.
  inversion 1 as [| | | |n1 a n2 n3]; subst.
  exists (Called DbBegin (Ok n1) :: revision_events tx revisionQuery a
            ++ [Logged LogPerforming; Called (TxExec tx query) (Ok n2);
                Logged LogCommitting; Called (TxCommit tx) (Ok n3)]).
  simpl. now rewrite <- app_assoc.
Qed.

Lemma merge_run_txn tx query revisionQuery evs res :
  merge_run tx query revisionQuery evs res ->
  (begun evs <= 1)%nat /\
  (forall tx', (length (commits tx' evs) <= 1)%nat) /\
  (forall tx', tx' <> tx -> commits tx' evs = []) /\
  (res = inl tt -> begun evs = 1%nat) /\
  (Logged LogDone ∈ evs -> res = inl tt).
Proof.
  inversion 1 as [err|n1 err Hrev|n1 a err|n1 a n2 err|n1 a n2 n3]; subst;
    unfold revision_events, begun; try case_bool_decide; simpl.
  all: split; [lia|].
  all: split; [intros tx'; repeat case_decide; simpl; lia|].
  all: split; [intros tx' Hne; repeat case_decide; congruence|].
  all: split; [try discriminate; reflexivity | intros Hin; try reflexivity; inv_elem].
Qed.

(** The end of a run of [Upsert]: the transactions it opened and
    committed, and the failed calls against what it returns. *)
Lemma upsert_run_end table idColumn copySQL rows query revisionQuery tr res :
  upsert_run table idColumn copySQL rows query revisionQuery tr res ->
  (begun tr <= 2)%nat /\
  (forall tx, (length (commits tx tr) <= 1)%nat) /\
  (begun tr = 2%nat -> committed 1 tr = true) /\
  match res with
  | inl _ =>
      Forall (fun ce => ce.1 = DbExec (analyze_sql (tempTable_of table))) (failures tr) /\
      committed 1 tr = true /\ committed 2 tr = true /\ begun tr = 2%nat /\
      exists pre, tr = pre ++ [Logged LogDone]
  | inr err =>
      (exists c, c <> DbExec (analyze_sql (tempTable_of table)) /\
                 last (failures tr) = Some (c, err)) /\
      committed 2 tr = false /\ Logged LogDone ∉ tr
  end.
Proof.
  assert (H21 : 2%nat <> 1%nat) by lia.
  inversion 1 as [evs e Hs|evs1 c evs2 e Hs Hp|evs1 c evs2 evs3 res' Hs Hp Hm]; subst.
  - destruct (stage_run_end _ _ _ _ _ _ _ Hs) as (Hb & Hc & (c0 & Hf & Hc0) & Hnc).
    unfold committed. rewrite (commits_stage 2 1 _ _ _ _ _ _ H21 Hs), Hf.
    split; [lia|]. split; [exact Hc|]. split; [lia|].
    split; [exists c0; split; [apply Hc0 | reflexivity]|].
    split; [reflexivity | exact (stage_run_not_done _ _ _ _ _ _ _ Hs)].
  - destruct (stage_run_end _ _ _ _ _ _ _ Hs) as (Hb & Hc & Hf & Hb1 & Hc1).
    inversion Hp as [err|]; subst.
    unfold committed in *. rewrite begun_app, failures_app, Hf, Hb1.
    split; [unfold begun; simpl; lia|].
    split; [intros tx; rewrite commits_app, app_nil_r; apply Hc|].
    split; [unfold begun; simpl; lia|].
    split; [eexists; split; [|reflexivity]|].
    { intros Heq. apply (index_is_not_analyze (tempTable_of table) idColumn).
      congruence. }
    rewrite commits_app, (commits_stage 2 1 _ _ _ _ _ _ H21 Hs).
    split; [reflexivity|].
    intros Hin. apply elem_of_app in Hin as [Hin|Hin];
      [exact (stage_run_not_done _ _ _ _ _ _ _ Hs Hin) | inv_elem].
  - destruct (stage_run_end _ _ _ _ _ _ _ Hs) as (Hb & Hc & Hf & Hb1 & Hc1).
    destruct (merge_run_end _ _ _ _ _ Hm) as (_ & _ & Hend).
    destruct (merge_run_txn _ _ _ _ _ Hm) as (Hmb & Hmc & Hmo & Hmb1 & Hmd).
    assert (Hb2 : begun evs2 = 0%nat) by exact (begun_prepare _ _ _ _ Hp).
    assert (Hc2 : forall tx, commits tx evs2 = [])
      by (intros tx; inversion Hp; reflexivity).
    assert (Hf2 : Forall (fun ce => ce.1 = DbExec (analyze_sql (tempTable_of table)))
                    (failures evs2)).
    { inversion Hp as [|n r]; subst. destruct r; repeat constructor. }
    assert (Hcom1 : committed 1 (evs1 ++ evs2 ++ evs3) = true).
    { unfold committed in *. now rewrite !commits_app, existsb_app, Hc1. }
    rewrite !begun_app, Hb1, Hb2.
    split; [lia|]. split; [|split; [intros _; exact Hcom1|]].
    { intros tx. rewrite !commits_app, Hc2, app_nil_l, length_app.
      destruct (decide (tx = 1%nat)) as [->|Hne].
      - rewrite (Hmo 1%nat) by lia. specialize (Hc 1%nat). simpl. lia.
      - rewrite (commits_stage tx 1 _ _ _ _ _ _ Hne Hs). apply Hmc. }
    destruct Hend as [(-> & Hf3 & Hc3)|(c0 & err & -> & Hf3 & Hc0)].
    + rewrite !failures_app, Hf, Hf3, app_nil_r, (Hmb1 eq_refl).
      split; [exact Hf2|]. split; [exact Hcom1|].
      split; [unfold committed in *; rewrite !commits_app, !existsb_app, Hc3;
              now rewrite !orb_true_r|].
      split; [reflexivity|].
      destruct (merge_run_done _ _ _ _ Hm) as [pre ->].
      exists (evs1 ++ evs2 ++ pre). now rewrite <- !app_assoc.
    + rewrite !failures_app, Hf3.
      split; [exists c0; split; [apply Hc0|]|].
      { now rewrite !app_assoc, last_snoc. }
      split.
      * unfold committed. rewrite !commits_app, Hc2,
          (commits_stage 2 1 _ _ _ _ _ _ H21 Hs). simpl.
        destruct (merge_run_facts _ _ _ _ _ Hm) as (_ & _ & _ & _ & _ & Hno & _).
        exact (Hno err eq_refl).
      * intros Hin. apply elem_of_app in Hin as [Hin|Hin];
          [exact (stage_run_not_done _ _ _ _ _ _ _ Hs Hin)|].
        apply elem_of_app in Hin as [Hin|Hin]; [inversion Hp; subst; inv_elem|].
        specialize (Hmd Hin). discriminate.
Qed.

Lemma stage_run_complete tx table createSQL copySQL rows evs c :
  stage_run tx table createSQL copySQL rows evs (inl c) ->
  (appends evs).*1 = (convert_row <$> rows) ++ [[]].
Proof.
  inversion 1 as [| | | | | | |n1 n2 n3 evs0 c0 n4 n5 n6 m s Hcopy]; subst.
  destruct (copy_run_appends _ _ _ _ _ Hcopy) as (k & _ & Happ & Hk).
  rewrite (Hk c eq_refl), firstn_all in Happ.
  unfold stage_opening. rewrite !appends_app, !fmap_app, Happ. reflexivity.
Qed.

Lemma upsert_run_complete table idColumn copySQL rows query revisionQuery tr :
  upsert_run table idColumn copySQL rows query revisionQuery tr (inl tt) ->
  statements tr = run_plan table idColumn copySQL query revisionQuery /\
  (appends tr).*1 = (convert_row <$> rows) ++ [[]].
Proof.
  inversion 1 as [| |evs1 c evs2 evs3 res' Hs Hp Hm]; subst.
  destruct (statements_stage _ _ _ _ _ _ _ Hs) as [_ Hst1].
  destruct (prepare_run_facts _ _ _ _ Hp) as (_ & _ & _ & _ & Hst2).
  destruct (merge_run_facts _ _ _ _ _ Hm) as (_ & Hex & _ & _ & Hst3 & _).
  destruct (merge_run_end _ _ _ _ _ Hm) as (_ & _ & [(_ & _ & Hc3)|(c0 & e & He & _)]);
    [|discriminate].
  destruct (Hst3 Hc3) as (_ & Hplan & _).
  split.
  - rewrite !statements_app, (Hst1 c eq_refl), (Hst2 eq_refl), <- Hex, Hplan.
    reflexivity.
  - rewrite !appends_app, (appends_prepare _ _ _ _ Hp), (appends_merge _ _ _ _ _ Hm),
      !app_nil_r.
    exact (stage_run_complete _ _ _ _ _ _ _ Hs).
Qed.

(** [Upsert] returns [nil] exactly when no call other than [ANALYZE]
    failed; against a database that accepts every other call it
    returns [nil]. *)
Theorem Upsert_returns_nil_iff
    (db : database) (now : list (call * reply) -> Z)
    (CopyIn : string -> list string -> string) (Template : Type)
    (ParseFiles : string -> FuncMap -> string -> Template + error)
    (Execute : Template -> upsertInfo -> string + error)
    (table idColumn : string) (columns : list string) (rows : list (list string))
    (hasRevisions : bool) (query revisionQuery : string) :
  buildQuery Template ParseFiles Execute table (tempTable_of table) idColumn columns
    hasRevisions = (query, revisionQuery, None) ->
  let run := Upsert db now CopyIn Template ParseFiles Execute
               table idColumn columns rows hasRevisions [] in
  let analyze := DbExec (analyze_sql (tempTable_of table)) in
  (run.2 = inl tt <-> forall c e, (c, e) ∈ failures run.1 -> c = analyze) /\
  ((forall h c, c <> analyze -> is_ok (db h c) = true) -> run.2 = inl tt).
Proof.
  intros Hbuild run analyze. subst run analyze.
  destruct (Upsert db now CopyIn Template ParseFiles Execute
              table idColumn columns rows hasRevisions []) as [tr res] eqn:Hrun.
  destruct (Upsert_run _ _ _ _ _ _ _ _ _ _ _ _ _ _ _ Hbuild Hrun) as [Hshape Hans].
  destruct (upsert_run_end _ _ _ _ _ _ _ _ Hshape) as (_ & _ & _ & Hend).
  simpl.
  assert (Hiff : res = inl tt <->
                 forall c e, (c, e) ∈ failures tr ->
                             c = DbExec (analyze_sql (tempTable_of table))).
  { destruct res as [[]|err].
    - destruct Hend as (Hf & _). rewrite Forall_forall in Hf.
      split; [|reflexivity]. intros _ c e Hin. exact (Hf _ Hin).
    - destruct Hend as ((c & Hc & Hlast) & _).
      split; [discriminate|]. intros Hall. destruct Hc.
      apply (Hall c err). now apply last_Some_elem_of. }
  split; [exact Hiff|].
  intros Hdb. apply Hiff. intros c e Hin.
  destruct (answered_by_failures _ _ _ _ _ Hans Hin) as [h Hh].
  destruct (decide (c = DbExec (analyze_sql (tempTable_of table)))) as [|Hne];
    [assumption|].
  specialize (Hdb h c Hne). rewrite Hh in Hdb. discriminate.
Qed.

Lemma Upsert_returns_nil_iff_witness :
  let analyze := DbExec (analyze_sql (tempTable_of "public.users")) in
  let db := Sample.db_refusing (fun c => bool_decide (c = analyze))
              (mkError "pq: permission denied") in
  buildQuery string Sample.ParseFiles Sample.Execute "public.users"
    (tempTable_of "public.users") "id" ["id"; "name"] true
  = ("upsert.sql.template public.users public_users_temp",
     "updaterevisions.sql.template public.users public_users_temp", None) /\
  (forall h c, c <> analyze -> is_ok (db h c) = true) /\
  (Sample.run db "public.users" "id" ["id"; "name"] [["1"; "Alice"]; ["2"; ""]] true).2
  = inl tt.
Proof.
  intros analyze db.
  assert (Hdb : forall h c, c <> analyze -> is_ok (db h c) = true).
  { intros h c Hne. unfold db, Sample.db_refusing.
    now rewrite bool_decide_eq_false_2. }
  split; [reflexivity|]. split; [exact Hdb|].
  exact (proj2 (Upsert_returns_nil_iff db Sample.clock Sample.CopyIn string
                  Sample.ParseFiles Sample.Execute "public.users" "id" ["id"; "name"]
                  [["1"; "Alice"]; ["2"; ""]] true
                  "upsert.sql.template public.users public_users_temp"
                  "updaterevisions.sql.template public.users public_users_temp"
                  eq_refl) Hdb).
Defined.

(** A run of [Upsert] returns [nil] exactly when it logs ["Done"], and
    then nothing was left out: every statement of the plan was sent, in
    order; every record was appended, in order, followed by the flush,
    and none was refused; both transactions were committed; and the
    line ["Done"] is the last event. *)
Theorem Upsert_nil_means_complete
    (db : database) (now : list (call * reply) -> Z)
    (CopyIn : string -> list string -> string) (Template : Type)
    (ParseFiles : string -> FuncMap -> string -> Template + error)
    (Execute : Template -> upsertInfo -> string + error)
    (table idColumn : string) (columns : list string) (rows : list (list string))
    (hasRevisions : bool) (query revisionQuery : string) :
  buildQuery Template ParseFiles Execute table (tempTable_of table) idColumn columns
    hasRevisions = (query, revisionQuery, None) ->
  let run := Upsert db now CopyIn Template ParseFiles Execute
               table idColumn columns rows hasRevisions [] in
  (Logged LogDone ∈ run.1 <-> run.2 = inl tt) /\
  (run.2 = inl tt ->
     statements run.1
     = run_plan table idColumn (CopyIn (tempTable_of table) columns) query revisionQuery /\
     (appends run.1).*1 = (convert_row <$> rows) ++ [[]] /\
     Forall (fun ar => is_ok ar.2 = true) (appends run.1) /\
     committed 1 run.1 = true /\ committed 2 run.1 = true /\ begun run.1 = 2%nat /\
     exists pre, run.1 = pre ++ [Logged LogDone]).
Proof.
  intros Hbuild run. subst run.
  destruct (Upsert db now CopyIn Template ParseFiles Execute
              table idColumn columns rows hasRevisions []) as [tr res] eqn:Hrun.
  destruct (Upsert_run _ _ _ _ _ _ _ _ _ _ _ _ _ _ _ Hbuild Hrun) as [Hshape _].
  destruct (upsert_run_end _ _ _ _ _ _ _ _ Hshape) as (_ & _ & _ & Hend).
  simpl. destruct res as [[]|err].
  - destruct Hend as (Hf & Hc1 & Hc2 & Hb & pre & Hpre).
    destruct (upsert_run_complete _ _ _ _ _ _ _ Hshape) as [Hst Happ].
    split.
    + split; [reflexivity|]. intros _. rewrite Hpre.
      apply elem_of_app. right. now apply list_elem_of_singleton.
    + intros _. split; [exact Hst|]. split; [exact Happ|].
      split; [|split; [exact Hc1|split; [exact Hc2|split; [exact Hb|now exists pre]]]].
      apply Forall_forall. intros [args [n|e]] Hin; [reflexivity|].
      apply appends_failed_in_failures in Hin.
      rewrite Forall_forall in Hf. specialize (Hf _ Hin). discriminate.
  - destruct Hend as (_ & _ & Hnd).
    split; [|discriminate]. split; [|discriminate]. intros Hin. now destruct Hnd.
Qed.

Lemma Upsert_nil_means_complete_witness :
  let run := Sample.run Sample.db_ok "public.users" "id" ["id"; "name"]
               [["1"; "Alice"]; ["2"; ""]] false in
  buildQuery string Sample.ParseFiles Sample.Execute "public.users"
    (tempTable_of "public.users") "id" ["id"; "name"] false
  = ("upsert.sql.template public.users public_users_temp", "", None) /\
  run.2 = inl tt /\
  (appends run.1).*1 = (convert_row <$> [["1"; "Alice"]; ["2"; ""]]) ++ [[]] /\
  committed 1 run.1 = true /\ committed 2 run.1 = true.
Proof.
  intros run.
  destruct (proj2 (Upsert_nil_means_complete Sample.db_ok Sample.clock Sample.CopyIn
                     string Sample.ParseFiles Sample.Execute "public.users" "id"
                     ["id"; "name"] [["1"; "Alice"]; ["2"; ""]] false
                     "upsert.sql.template public.users public_users_temp" ""
                     eq_refl) eq_refl)
    as (_ & Happ & _ & Hc1 & Hc2 & _).
  split; [reflexivity|]. split; [reflexivity|].
  split; [exact Happ|]. split; [exact Hc1 | exact Hc2].
Defined.

(** ** The order of the events *)

Lemma split_before {A} (l1 l2 pre post : list A) (x : A) :
  l1 ++ l2 = pre ++ x :: post -> x ∉ l1 ->
  exists k, pre = l1 ++ k /\ l2 = k ++ x :: post.
Proof.
  revert pre. induction l1 as [|a l1 IH]; intros pre Heq Hni.
  - now exists pre.
  - destruct pre as [|p pre]; simpl in Heq; injection Heq as Ha Heq.
    + subst a. destruct Hni. now left.
    + subst p. destruct (IH pre Heq) as (k & -> & ->).
      * intros Hin. apply Hni. now right.
      * now exists k.
Qed.

Lemma stage_run_begin tx table createSQL copySQL rows evs res :
  stage_run tx table createSQL copySQL rows evs res ->
  exists r rest, evs = Logged LogStarting :: Called DbBegin r :: rest /\
                 forall r', Called DbBegin r' ∉ rest.
Proof.
  intros Hrun.
  assert (Hcopy : forall evs0 c r0 r', copy_run table rows c evs0 r0 ->
                                       Called DbBegin r' ∉ evs0).
  { intros evs0 c r0 r' Hc Hin0. apply copy_run_events in Hc.
    rewrite Forall_forall in Hc. specialize (Hc _ Hin0). discriminate. }
  inversion Hrun; subst; unfold stage_opening; simpl;
    eexists _, _; (split; [reflexivity|]); intros r' Hin;
    repeat (apply elem_of_cons in Hin as [Hin|Hin]; [discriminate|]);
    repeat (apply elem_of_app in Hin as [Hin|Hin]);
    try (eapply Hcopy; eassumption); inv_elem.
Qed.

Lemma merge_run_begin tx query revisionQuery evs res :
  merge_run tx query revisionQuery evs res ->
  exists r post, evs = Called DbBegin r :: post /\
                 forall r', Called DbBegin r' ∉ post.
Proof.
  inversion 1; subst; unfold revision_events; try case_bool_decide; simpl;
    eexists _, _; (split; [reflexivity|]); intros r' Hin; inv_elem.
Qed.

Lemma legacy_run_begin tx table createSQL copySQL rows query evs res :
  legacy_run tx table createSQL copySQL rows query evs res ->
  exists r rest, evs = Called DbBegin r :: rest /\
                 forall r', Called DbBegin r' ∉ rest.
Proof.
  intros Hrun.
  assert (Hcopy : forall evs0 r0 r', legacy_copy_run table rows evs0 r0 ->
                                     Called DbBegin r' ∉ evs0).
  { intros evs0 r0 r' Hc Hin0. apply legacy_copy_run_events in Hc.
    rewrite Forall_forall in Hc. specialize (Hc _ Hin0). discriminate. }
  inversion Hrun; subst; unfold legacy_opening; simpl;
    eexists _, _; (split; [reflexivity|]); intros r' Hin;
    repeat (apply elem_of_cons in Hin as [Hin|Hin]; [discriminate|]);
    repeat (apply elem_of_app in Hin as [Hin|Hin]);
    try (eapply Hcopy; eassumption); inv_elem.
Qed.

Lemma begin_at_head (evs more rest pre post : list event) (r0 r : reply) :
  evs = Logged LogStarting :: Called DbBegin r0 :: rest ->
  (forall r', Called DbBegin r' ∉ rest) ->
  evs ++ more = pre ++ Called DbBegin r :: post ->
  pre = [Logged LogStarting] \/
  exists k, pre = evs ++ k /\ more = k ++ Called DbBegin r :: post.
Proof.
  intros -> Hrest Heq.
  destruct pre as [|p0 [|p1 pre]]; simpl in Heq.
  - discriminate.
  - injection Heq as <- _ _. now left.
  - injection Heq as <- <- Heq. right.
    destruct (split_before _ _ _ _ _ Heq (Hrest r)) as (k & -> & ->).
    now exists k.
Qed.

Lemma upsert_run_begins table idColumn copySQL rows query revisionQuery tr res pre r post :
  upsert_run table idColumn copySQL rows query revisionQuery tr res ->
  tr = pre ++ Called DbBegin r :: post ->
  begun pre = 0%nat \/ begun pre = 1%nat /\ committed 1 pre = true.
Proof.
  inversion 1 as [evs e Hs|evs1 c evs2 e Hs Hp|evs1 c evs2 evs3 res' Hs Hp Hm]; subst.
  - intros Heq.
    match type of Hs with
    | stage_run _ _ _ _ _ ?l _ => rewrite <- (app_nil_r l) in Heq
    end.
    destruct (stage_run_begin _ _ _ _ _ _ _ Hs) as (r0 & rest & Hevs & Hrest).
    destruct (begin_at_head _ _ _ _ _ _ _ Hevs Hrest Heq) as [->|(k & _ & Hk)];
      [now left|].
    destruct k; discriminate.
  - intros Heq.
    assert (Hni : Called DbBegin r ∉ evs2).
    { intros Hin. inversion Hp; subst; inv_elem. }
    destruct (stage_run_begin _ _ _ _ _ _ _ Hs) as (r0 & rest & Hevs & Hrest).
    destruct (begin_at_head _ _ _ _ _ _ _ Hevs Hrest Heq) as [->|(k & _ & Hk)];
      [now left|].
    destruct Hni. rewrite Hk. apply elem_of_app. right. now left.
  - intros Heq.
    assert (Hni : Called DbBegin r ∉ evs2).
    { intros Hin. inversion Hp; subst; inv_elem. }
    destruct (stage_run_begin _ _ _ _ _ _ _ Hs) as (r0 & rest & Hevs & Hrest).
    destruct (begin_at_head _ _ _ _ _ _ _ Hevs Hrest Heq) as [->|(k & -> & Hk)];
      [now left|].
    destruct (split_before _ _ _ _ _ Hk Hni) as (k' & -> & Hk').
    destruct (merge_run_begin _ _ _ _ _ Hm) as (r3 & post3 & Hevs3 & Hpost3).
    rewrite Hevs3 in Hk'.
    destruct k' as [|e' k']; simpl in Hk'; injection Hk' as _ Hk'.
    + right. destruct (stage_run_end _ _ _ _ _ _ _ Hs) as (_ & _ & _ & Hb1 & Hc1).
      rewrite app_nil_r. unfold committed in *.
      rewrite begun_app, commits_app, existsb_app, Hb1, Hc1,
        (begun_prepare _ _ _ _ Hp).
      split; reflexivity.
    + destruct (Hpost3 r). rewrite Hk'. apply elem_of_app. right. now left.
Qed.

Lemma upsert_run_DbExec table idColumn copySQL rows query revisionQuery tr res
    pre q r post :
  upsert_run table idColumn copySQL rows query revisionQuery tr res ->
  tr = pre ++ Called (DbExec q) r :: post ->
  (q = create_index_sql (tempTable_of table) idColumn \/
   q = analyze_sql (tempTable_of table)) /\
  failures pre = [] /\ begun pre = 1%nat /\ committed 1 pre = true /\
  (appends pre).*1 = (convert_row <$> rows) ++ [[]] /\
  loaded (history pre) = omap kept (convert_row <$> rows).
Proof.
  intros Hshape.
  assert (Hstage : forall evs1 c k,
             stage_run 1 table (create_temp_sql table (tempTable_of table)) copySQL rows
               evs1 (inl c) ->
             failures k = [] -> begun k = 0%nat -> appends k = [] ->
             failures (evs1 ++ k) = [] /\ begun (evs1 ++ k) = 1%nat /\
             committed 1 (evs1 ++ k) = true /\
             (appends (evs1 ++ k)).*1 = (convert_row <$> rows) ++ [[]] /\
             loaded (history (evs1 ++ k)) = omap kept (convert_row <$> rows)).
  { intros evs1 c k Hs Hfk Hbk Hak.
    destruct (stage_run_end _ _ _ _ _ _ _ Hs) as (_ & _ & Hf & Hb1 & Hc1).
    unfold committed in *.
    rewrite failures_app, begun_app, commits_app, existsb_app, appends_app,
      !loaded_appends, appends_app, Hf, Hfk, Hb1, Hbk, Hc1, Hak, !app_nil_r,
      <- loaded_appends.
    split; [reflexivity|]. split; [reflexivity|]. split; [reflexivity|].
    split; [exact (stage_run_complete _ _ _ _ _ _ _ Hs)
           |exact (stage_run_loaded _ _ _ _ _ _ _ Hs)]. }
  inversion Hshape as [evs e Hs|evs1 c evs2 e Hs Hp|evs1 c evs2 evs3 res' Hs Hp Hm];
    subst; intros Heq.
  - destruct (stage_run_no_DbExec _ _ _ _ _ _ _ q r Hs).
    rewrite Heq. apply elem_of_app. right. now left.
  - inversion Hp as [err|]; subst.
    destruct (split_before _ _ _ _ _ Heq (stage_run_no_DbExec _ _ _ _ _ _ _ q r Hs))
      as (k & -> & Hk).
    destruct k as [|k0 [|k1 k]]; simpl in Hk; try discriminate.
    + injection Hk as <- <- <- <-.
      split; [now left|]. now apply (Hstage _ c).
    + injection Hk as _ _ Hk. destruct k; discriminate.
  - inversion Hp as [|n r0]; subst.
    destruct (split_before _ _ _ _ _ Heq (stage_run_no_DbExec _ _ _ _ _ _ _ q r Hs))
      as (k & -> & Hk).
    destruct k as [|k0 [|k1 [|k2 [|k3 k]]]]; simpl in Hk; try discriminate.
    + injection Hk as <- <- <- _.
      split; [now left|]. now apply (Hstage _ c).
    + injection Hk as <- <- <- <- <- _.
      split; [now right|]. now apply (Hstage _ c).
    + injection Hk as _ _ _ _ Hk.
      destruct (merge_run_end _ _ _ _ _ Hm) as (_ & Hnodb & _).
      destruct (Hnodb q r). rewrite Hk. apply elem_of_app. right. now left.
Qed.

(** *** The one transaction of the earlier revision *)

Lemma legacy_run_end tx table createSQL copySQL rows query evs res :
  legacy_run tx table createSQL copySQL rows query evs res ->
  statements evs `prefix_of` [createSQL; copySQL; query] /\
  (begun evs <= 1)%nat /\
  rollbacks evs = [] /\
  (forall tx', (length (commits tx' evs) <= 1)%nat) /\
  (forall r, Called StmtClose r ∉ evs) /\
  match res with
  | inl _ => failures evs = [] /\ committed tx evs = true /\
             statements evs = [createSQL; copySQL; query] /\
             (appends evs).*1 = (convert_row <$> rows) ++ [[]]
  | inr err => (exists c, failures evs = [(c, err)]) /\ committed tx evs = false
  end.
Proof.
  intros Hrun.
  assert (Hcopy : forall evs0 r, legacy_copy_run table rows evs0 r ->
            begun evs0 = 0%nat /\ (forall tx', commits tx' evs0 = []) /\
            rollbacks evs0 = [] /\ statements evs0 = [] /\
            (forall r', Called StmtClose r' ∉ evs0) /\
            match r with
            | inl _ => failures evs0 = [] /\ (appends evs0).*1 = convert_row <$> rows
            | inr err => exists row, failures evs0 = [(StmtExec row, err)]
            end).
  { intros evs0 r Hc. pose proof (legacy_copy_run_events _ _ _ _ Hc) as Hev.
    split; [exact (begun_copy_events _ Hev)|].
    split; [intros tx'; exact (commits_copy_events _ _ Hev)|].
    split; [exact (rollbacks_copy_events _ Hev)|].
    split; [apply omap_copy_events; [|exact Hev]; now intros [[]| |]|].
    split.
    { intros r' Hin. rewrite Forall_forall in Hev. specialize (Hev _ Hin).
      discriminate. }
    destruct r as [[]|err].
    - split; [exact (legacy_copy_run_ok_failures _ _ _ Hc)|].
      destruct (legacy_copy_run_appends _ _ _ _ Hc) as (k & _ & Happ & Hk).
      now rewrite (Hk eq_refl), firstn_all in Happ.
    - destruct (legacy_copy_run_failed _ _ _ _ Hc) as (pre & i & rawRow & -> & _ & _ & Hf).
      exists (convert_row rawRow). now rewrite failures_app, Hf. }
  inversion Hrun as [err|n1 err|n1 n2 err|n1 n2 n3 evs0 err Hc|n1 n2 n3 evs0 err Hc
                    |n1 n2 n3 evs0 n4 err Hc|n1 n2 n3 evs0 n4 n5 err Hc
                    |n1 n2 n3 evs0 n4 n5 n6 Hc]; subst;
    try (destruct (Hcopy _ _ Hc) as (Hb & Hcc & Hr & Hst & Hcl & Hf);
         try match type of Hf with
             | ex _ => destruct Hf as [row Hf]
             | _ /\ _ => destruct Hf as [Hf Happ]
             end);
    unfold legacy_opening, committed;
    rewrite ?failures_app, ?begun_app, ?statements_app, ?rollbacks_app, ?appends_app,
      ?fmap_app, ?Hb, ?Hf, ?Hst, ?Hr, ?Happ;
    (split; [simpl; repeat case_decide; simpl; now eexists|]);
    (split; [unfold begun; simpl; lia|]);
    (split; [reflexivity|]);
    (split; [intros tx'; rewrite ?commits_app, ?Hcc; simpl; repeat case_decide;
             simpl; lia|]);
    (split; [intros r' Hin; repeat (apply elem_of_app in Hin as [Hin|Hin]);
             try (now apply (Hcl r')); inv_elem|]);
    rewrite ?commits_app, ?Hcc; simpl; repeat case_decide; try congruence; simpl.
  all: try (split; [eexists; reflexivity|reflexivity]).
  all: try done.
Qed.

Lemma copy_run_loaded_take table rows c evs res :
  copy_run table rows c evs res ->
  exists k, (k <= length rows)%nat /\
    loaded (history evs) = omap kept (convert_row <$> take k rows) /\
    (forall c', res = inl c' -> k = length rows).
Proof.
  induction 1 as [c|rawRow rest c err|rawRow rest c n evs res _ IH].
  - exists 0%nat. split; [simpl; lia|]. split; [reflexivity|]. reflexivity.
  - exists 0%nat. split; [simpl; lia|]. split; [|discriminate].
    rewrite loaded_appends. simpl. reflexivity.
  - destruct IH as (k & Hk & Hl & Hall). exists (S k).
    split; [simpl; lia|]. split; [|intros c' Hc'; simpl; f_equal; exact (Hall c' Hc')].
    change (history (Called (StmtExec (convert_row rawRow)) (Ok n)
                       :: progress_line (GoInt.add c 1) ++ evs))
      with ((StmtExec (convert_row rawRow), Ok n)
              :: history (progress_line (GoInt.add c 1) ++ evs)).
    rewrite history_app, history_progress_line, app_nil_l.
    change (take (S k) (rawRow :: rest)) with (rawRow :: take k rest).
    rewrite fmap_cons, omap_kept_cons, <- Hl.
    destruct (convert_row rawRow) as [|v args]; reflexivity.
Qed.

Lemma legacy_copy_run_loaded_take table rows evs res :
  legacy_copy_run table rows evs res ->
  exists k, (k <= length rows)%nat /\
    loaded (history evs) = omap kept (convert_row <$> take k rows) /\
    (res = inl tt -> k = length rows).
Proof.
  induction 1 as [|rawRow rest err|rawRow rest n evs res _ IH].
  - exists 0%nat. split; [simpl; lia|]. split; [reflexivity|]. reflexivity.
  - exists 0%nat. split; [simpl; lia|]. split; [|discriminate].
    rewrite loaded_appends. simpl. reflexivity.
  - destruct IH as (k & Hk & Hl & Hall). exists (S k).
    split; [simpl; lia|]. split; [|intros Hres; simpl; f_equal; now apply Hall].
    change (history (Called (StmtExec (convert_row rawRow)) (Ok n) :: evs))
      with ((StmtExec (convert_row rawRow), Ok n) :: history evs).
    change (take (S k) (rawRow :: rest)) with (rawRow :: take k rest).
    rewrite fmap_cons, omap_kept_cons, <- Hl.
    destruct (convert_row rawRow) as [|v args]; reflexivity.
Qed.

Lemma loaded_no_appends (tr : trace) : appends tr = [] -> loaded (history tr) = [].
Proof. intros H. now rewrite loaded_appends, H. Qed.

Lemma loaded_flush (tr : trace) (r : reply) (post : trace) :
  appends post = [] ->
  loaded (history (tr ++ Called (StmtExec []) r :: post)) = loaded (history tr).
Proof.
  intros Hpost. rewrite !loaded_appends, appends_app, omap_app.
  change (appends (Called (StmtExec []) r :: post)) with (([], r) :: appends post).
  rewrite Hpost. simpl. destruct r; simpl; apply app_nil_r.
Qed.

Lemma stage_run_loaded_take tx table createSQL copySQL rows evs res :
  stage_run tx table createSQL copySQL rows evs res ->
  exists k, (k <= length rows)%nat /\
    loaded (history evs) = omap kept (convert_row <$> take k rows) /\
    (forall c, res = inl c -> k = length rows).
Proof.
  inversion 1 as [err|n1 err|n1 n2 err|n1 n2 n3 evs0 err Hc|n1 n2 n3 evs0 c err Hc
                 |n1 n2 n3 evs0 c n4 err Hc|n1 n2 n3 evs0 c n4 n5 err Hc
                 |n1 n2 n3 evs0 c n4 n5 n6 m s Hc]; subst.
  1-3: exists 0%nat; split; [lia|]; split; [reflexivity|discriminate].
  all: destruct (copy_run_loaded_take _ _ _ _ _ Hc) as (k & Hk & Hl & Hall);
    exists k; (split; [exact Hk|]); (split; [|intros c' Hc'; now apply (Hall c)
                                              || discriminate]).
  all: unfold stage_opening; rewrite ?app_assoc; rewrite ?loaded_flush by reflexivity.
  all: rewrite history_app, loaded_app; exact Hl.
Qed.

Lemma legacy_run_loaded_take tx table createSQL copySQL rows query evs res :
  legacy_run tx table createSQL copySQL rows query evs res ->
  exists k, (k <= length rows)%nat /\
    loaded (history evs) = omap kept (convert_row <$> take k rows) /\
    (res = inl tt -> k = length rows).
Proof.
  inversion 1 as [err|n1 err|n1 n2 err|n1 n2 n3 evs0 err Hc|n1 n2 n3 evs0 err Hc
                 |n1 n2 n3 evs0 n4 err Hc|n1 n2 n3 evs0 n4 n5 err Hc
                 |n1 n2 n3 evs0 n4 n5 n6 Hc]; subst.
  1-3: exists 0%nat; split; [lia|]; split; [reflexivity|discriminate].
  all: destruct (legacy_copy_run_loaded_take _ _ _ _ Hc) as (k & Hk & Hl & Hall);
    exists k; (split; [exact Hk|]); (split; [|intros Hres; now apply Hall
                                              || discriminate]).
  all: unfold legacy_opening; rewrite ?app_assoc; rewrite ?loaded_flush by reflexivity.
  all: rewrite history_app, loaded_app; exact Hl.
Qed.

(** In every run, of either revision, the transactions follow one
    another: [Rollback] is never called, at most two transactions are
    opened, [Commit] is called at most once on each, and whenever
    [db.Begin] is called either no transaction has been opened yet or
    the one opened before has been committed. *)
Theorem transactions_in_sequence
    (db : database) (now : list (call * reply) -> Z)
    (CopyIn : string -> list string -> string) (Template : Type)
    (ParseFiles : string -> FuncMap -> string -> Template + error)
    (Execute : Template -> upsertInfo -> string + error)
    (LegacyExecute : Template -> Legacy.upsertInfo -> string + error)
    (table idColumn : string) (columns : list string) (rows : list (list string))
    (hasRevisions : bool) (run : trace * (unit + error)) :
  run = Upsert db now CopyIn Template ParseFiles Execute
          table idColumn columns rows hasRevisions [] \/
  run = Legacy.Upsert db CopyIn Template ParseFiles LegacyExecute
          table idColumn columns rows [] ->
  rollbacks run.1 = [] /\
  (begun run.1 <= 2)%nat /\
  (forall tx, (length (commits tx run.1) <= 1)%nat) /\
  (forall pre r post, run.1 = pre ++ Called DbBegin r :: post ->
      begun pre = 0%nat \/ begun pre = 1%nat /\ committed 1 pre = true).
Proof.
  assert (Hempty : rollbacks [] = [] /\ (begun [] <= 2)%nat /\
            (forall tx, (length (commits tx []) <= 1)%nat) /\
            (forall pre r post, [] = pre ++ Called DbBegin r :: post ->
                begun pre = 0%nat \/ begun pre = 1%nat /\ committed 1 pre = true)).
  { split; [reflexivity|]. split; [unfold begun; simpl; lia|].
    split; [intros tx; simpl; lia|]. intros [|p pre] r post Heq; discriminate. }
  intros [->| ->].
  - destruct (buildQuery Template ParseFiles Execute table (tempTable_of table)
                idColumn columns hasRevisions) as [[query revisionQuery] [e|]] eqn:Hbuild.
    { rewrite (Upsert_build_failed db now CopyIn _ _ _ _ _ _ rows _ _ _ _ Hbuild).
      exact Hempty. }
    destruct (Upsert db now CopyIn Template ParseFiles Execute
                table idColumn columns rows hasRevisions []) as [tr res] eqn:Hrun.
    destruct (Upsert_run _ _ _ _ _ _ _ _ _ _ _ _ _ _ _ Hbuild Hrun) as [Hshape _].
    destruct (upsert_run_end _ _ _ _ _ _ _ _ Hshape) as (Hb & Hc & _).
    destruct (upsert_run_facts _ _ _ _ _ _ _ _ Hshape) as (_ & _ & Hr & _).
    simpl. split; [exact Hr|]. split; [exact Hb|]. split; [exact Hc|].
    intros pre r post Heq. exact (upsert_run_begins _ _ _ _ _ _ _ _ _ _ _ Hshape Heq).
  - destruct (Legacy.buildQuery Template ParseFiles LegacyExecute table
                (strings_Replace table "."%char "_"%char) idColumn columns)
      as [query [e|]] eqn:Hbuild.
    { rewrite (Legacy_Upsert_build_failed db CopyIn _ _ _ _ _ _ rows _ _ Hbuild).
      exact Hempty. }
    destruct (Legacy.Upsert db CopyIn Template ParseFiles LegacyExecute
                table idColumn columns rows []) as [tr res] eqn:Hrun.
    pose proof (Legacy_Upsert_run _ _ _ _ _ _ _ _ _ _ _ _ Hbuild Hrun) as Hshape.
    destruct (legacy_run_end _ _ _ _ _ _ _ _ Hshape) as (_ & Hb & Hr & Hc & _).
    simpl. split; [exact Hr|]. split; [lia|]. split; [exact Hc|].
    intros pre r post Heq.
    destruct (legacy_run_begin _ _ _ _ _ _ _ _ Hshape) as (r0 & rest & -> & Hrest).
    destruct pre as [|p pre]; [now left|].
    simpl in Heq. injection Heq as _ Heq.
    destruct (Hrest r). rewrite Heq. apply elem_of_app. right. now left.
Qed.

Lemma transactions_in_sequence_witness :
  let run := Sample.run Sample.db_ok "public.users" "id" ["id"; "name"]
               [["1"; "Alice"]; ["2"; ""]] true in
  rollbacks run.1 = [] /\ (begun run.1 <= 2)%nat /\
  (forall tx, (length (commits tx run.1) <= 1)%nat).
Proof.
  intros run.
  destruct (transactions_in_sequence Sample.db_ok Sample.clock Sample.CopyIn string
              Sample.ParseFiles Sample.Execute Sample.LegacyExecute
              "public.users" "id" ["id"; "name"] [["1"; "Alice"]; ["2"; ""]] true
              run (or_introl eq_refl)) as (Hr & Hb & Hc & _).
  split; [exact Hr|]. split; [exact Hb | exact Hc].
Defined.

(** The statements outside a transaction, the unique index and the
    statistics, are sent only once the load is complete and committed:
    before each of them no call has failed, every record has been
    appended in order and flushed, the first transaction is committed
    and the second is not yet opened. *)
Theorem index_after_committed_load
    (db : database) (now : list (call * reply) -> Z)
    (CopyIn : string -> list string -> string) (Template : Type)
    (ParseFiles : string -> FuncMap -> string -> Template + error)
    (Execute : Template -> upsertInfo -> string + error)
    (table idColumn : string) (columns : list string) (rows : list (list string))
    (hasRevisions : bool) (pre : trace) (q : string) (r : reply) (post : trace) :
  (Upsert db now CopyIn Template ParseFiles Execute
     table idColumn columns rows hasRevisions []).1
  = pre ++ Called (DbExec q) r :: post ->
  (q = create_index_sql (tempTable_of table) idColumn \/
   q = analyze_sql (tempTable_of table)) /\
  failures pre = [] /\ begun pre = 1%nat /\ committed 1 pre = true /\
  (appends pre).*1 = (convert_row <$> rows) ++ [[]] /\
  loaded (history pre) = omap kept (convert_row <$> rows).
Proof.
  destruct (buildQuery Template ParseFiles Execute table (tempTable_of table)
              idColumn columns hasRevisions) as [[query revisionQuery] [e|]] eqn:Hbuild.
  { rewrite (Upsert_build_failed db now CopyIn _ _ _ _ _ _ rows _ _ _ _ Hbuild).
    simpl. intros Heq. destruct pre; discriminate. }
  destruct (Upsert db now CopyIn Template ParseFiles Execute
              table idColumn columns rows hasRevisions []) as [tr res] eqn:Hrun.
  destruct (Upsert_run _ _ _ _ _ _ _ _ _ _ _ _ _ _ _ Hbuild Hrun) as [Hshape _].
  simpl. intros Heq.
  exact (upsert_run_DbExec _ _ _ _ _ _ _ _ _ _ _ _ Hshape Heq).
Qed.

Lemma index_after_committed_load_witness :
  let run := Sample.run Sample.db_ok "public.users" "id" ["id"; "name"]
               [["1"; "Alice"]; ["2"; ""]] false in
  let pre := take 11 run.1 in
  let q := create_index_sql (tempTable_of "public.users") "id" in
  run.1 = pre ++ Called (DbExec q) (Ok 0) :: drop 12 run.1 /\
  committed 1 pre = true /\
  loaded (history pre) = omap kept (convert_row <$> [["1"; "Alice"]; ["2"; ""]]).
Proof.
  intros run pre q.
  assert (Heq : run.1 = pre ++ Called (DbExec q) (Ok 0) :: drop 12 run.1)
    by reflexivity.
  split; [exact Heq|].
  destruct (index_after_committed_load Sample.db_ok Sample.clock Sample.CopyIn string
              Sample.ParseFiles Sample.Execute "public.users" "id" ["id"; "name"]
              [["1"; "Alice"]; ["2"; ""]] false pre q (Ok 0) (drop 12 run.1) Heq)
    as (_ & _ & _ & Hc & _ & Hl).
  split; [exact Hc | exact Hl].
Defined.

(** What the staging table holds is always a beginning of the stream:
    in every run, of either revision, the rows that the copy accepted
    are the first [k] records, converted, in the order of the stream,
    with none skipped or repeated; [k] is the whole stream when the run
    returns [nil]. *)
Theorem loaded_rows_are_a_prefix
    (db : database) (now : list (call * reply) -> Z)
    (CopyIn : string -> list string -> string) (Template : Type)
    (ParseFiles : string -> FuncMap -> string -> Template + error)
    (Execute : Template -> upsertInfo -> string + error)
    (LegacyExecute : Template -> Legacy.upsertInfo -> string + error)
    (table idColumn : string) (columns : list string) (rows : list (list string))
    (hasRevisions : bool) (run : trace * (unit + error)) :
  run = Upsert db now CopyIn Template ParseFiles Execute
          table idColumn columns rows hasRevisions [] \/
  run = Legacy.Upsert db CopyIn Template ParseFiles LegacyExecute
          table idColumn columns rows [] ->
  exists k, (k <= length rows)%nat /\
    loaded (history run.1) = omap kept (convert_row <$> take k rows) /\
    (run.2 = inl tt -> k = length rows).
Proof.
  intros [->| ->].
  - destruct (buildQuery Template ParseFiles Execute table (tempTable_of table)
                idColumn columns hasRevisions) as [[query revisionQuery] [e|]] eqn:Hbuild.
    { rewrite (Upsert_build_failed db now CopyIn _ _ _ _ _ _ rows _ _ _ _ Hbuild).
      exists 0%nat. split; [lia|]. split; [reflexivity|discriminate]. }
    destruct (Upsert db now CopyIn Template ParseFiles Execute
                table idColumn columns rows hasRevisions []) as [tr res] eqn:Hrun.
    destruct (Upsert_run _ _ _ _ _ _ _ _ _ _ _ _ _ _ _ Hbuild Hrun) as [Hshape _].
    simpl.
    inversion Hshape as [evs e Hs|evs1 c evs2 e Hs Hp|evs1 c evs2 evs3 res' Hs Hp Hm];
      subst; destruct (stage_run_loaded_take _ _ _ _ _ _ _ Hs) as (k & Hk & Hl & Hall);
      exists k; (split; [exact Hk|]).
    + split; [exact Hl | discriminate].
    + split; [|discriminate].
      rewrite history_app, loaded_app, Hl,
        (loaded_no_appends _ (appends_prepare _ _ _ _ Hp)).
      apply app_nil_r.
    + split; [|intros _; exact (Hall c eq_refl)].
      rewrite !history_app, !loaded_app, Hl,
        (loaded_no_appends _ (appends_prepare _ _ _ _ Hp)),
        (loaded_no_appends _ (appends_merge _ _ _ _ _ Hm)).
      now rewrite !app_nil_r.
  - destruct (Legacy.buildQuery Template ParseFiles LegacyExecute table
                (strings_Replace table "."%char "_"%char) idColumn columns)
      as [query [e|]] eqn:Hbuild.
    { rewrite (Legacy_Upsert_build_failed db CopyIn _ _ _ _ _ _ rows _ _ Hbuild).
      exists 0%nat. split; [lia|]. split; [reflexivity|discriminate]. }
    destruct (Legacy.Upsert db CopyIn Template ParseFiles LegacyExecute
                table idColumn columns rows []) as [tr res] eqn:Hrun.
    pose proof (Legacy_Upsert_run _ _ _ _ _ _ _ _ _ _ _ _ Hbuild Hrun) as Hshape.
    exact (legacy_run_loaded_take _ _ _ _ _ _ _ _ Hshape).
Qed.

Lemma loaded_rows_are_a_prefix_witness :
  let db := Sample.db_refusing
              (fun c => bool_decide (c = StmtExec [IString "x"; INil]))
              (mkError "pq: invalid input syntax") in
  let run := Sample.run db "users" "id" ["id"; "name"]
               [["1"; "Ann"]; ["x"; ""]; ["3"; "Cy"]] false in
  exists k, (k <= 3)%nat /\
    loaded (history run.1)
    = omap kept (convert_row <$> take k [["1"; "Ann"]; ["x"; ""]; ["3"; "Cy"]]).
Proof.
  intros db run.
  destruct (loaded_rows_are_a_prefix db Sample.clock Sample.CopyIn string
              Sample.ParseFiles Sample.Execute Sample.LegacyExecute
              "users" "id" ["id"; "name"] [["1"; "Ann"]; ["x"; ""]; ["3"; "Cy"]] false
              run (or_introl eq_refl)) as (k & Hk & Hl & _).
  exists k. split; [exact Hk | exact Hl].
Defined.

(** The earlier revision works in one transaction: it opens at most
    one, never calls [Rollback] or [stmt.Close], and sends the staging
    table, the copy and the upsert in that order.  It returns [nil]
    exactly when that transaction is committed, which is exactly when no
    call failed; the staging table then held the whole stream, and an
    error it returns is the error of the one call that failed. *)
Theorem Legacy_single_transaction
    (db : database) (CopyIn : string -> list string -> string) (Template : Type)
    (ParseFiles : string -> FuncMap -> string -> Template + error)
    (LegacyExecute : Template -> Legacy.upsertInfo -> string + error)
    (table idColumn : string) (columns : list string) (rows : list (list string))
    (query : string) :
  Legacy.buildQuery Template ParseFiles LegacyExecute table
    (strings_Replace table "."%char "_"%char) idColumn columns = (query, None) ->
  let run := Legacy.Upsert db CopyIn Template ParseFiles LegacyExecute
               table idColumn columns rows [] in
  let plan := [Legacy.create_temp_sql table (strings_Replace table "."%char "_"%char);
               CopyIn (tempTable_of table) columns; query] in
  statements run.1 `prefix_of` plan /\
  (begun run.1 <= 1)%nat /\ rollbacks run.1 = [] /\
  (forall r, Called StmtClose r ∉ run.1) /\
  (run.2 = inl tt <-> committed 1 run.1 = true) /\
  (run.2 = inl tt <-> failures run.1 = []) /\
  (run.2 = inl tt ->
     statements run.1 = plan /\
     (appends run.1).*1 = (convert_row <$> rows) ++ [[]]) /\
  (forall err, run.2 = inr err -> exists c, failures run.1 = [(c, err)]).
Proof.
  intros Hbuild run plan. subst run plan.
  destruct (Legacy.Upsert db CopyIn Template ParseFiles LegacyExecute
              table idColumn columns rows []) as [tr res] eqn:Hrun.
  pose proof (Legacy_Upsert_run _ _ _ _ _ _ _ _ _ _ _ _ Hbuild Hrun) as Hshape.
  destruct (legacy_run_end _ _ _ _ _ _ _ _ Hshape) as (Hst & Hb & Hr & _ & Hcl & Hend).
  simpl. split; [exact Hst|]. split; [exact Hb|]. split; [exact Hr|].
  split; [exact Hcl|].
  destruct res as [[]|err].
  - destruct Hend as (Hf & Hc & Hst' & Happ).
    split; [now split|]. split; [now split|]. split; [now split|]. discriminate.
  - destruct Hend as ((c & Hf) & Hc).
    split; [split; [discriminate | rewrite Hc; discriminate]|].
    split; [split; [discriminate | rewrite Hf; discriminate]|].
    split; [discriminate|].
    intros e He. injection He as <-. now exists c.
Qed.

Lemma Legacy_single_transaction_witness :
  let run := Sample.legacy_run Sample.db_ok "public.users" "id" ["id"; "name"]
               [["1"; "Alice"]; ["2"; ""]] in
  Legacy.buildQuery string Sample.ParseFiles Sample.LegacyExecute "public.users"
    (strings_Replace "public.users" "."%char "_"%char) "id" ["id"; "name"]
  = ("upsert.sql.template public.users public_users", None) /\
  (run.2 = inl tt <-> committed 1 run.1 = true) /\
  rollbacks run.1 = [].
Proof.
  intros run.
  destruct (Legacy_single_transaction Sample.db_ok Sample.CopyIn string
              Sample.ParseFiles Sample.LegacyExecute "public.users" "id"
              ["id"; "name"] [["1"; "Alice"]; ["2"; ""]]
              "upsert.sql.template public.users public_users" eq_refl)
    as (_ & _ & Hr & _ & Hiff & _).
  split; [reflexivity|]. split; [exact Hiff | exact Hr].
Defined.

(** ** The elapsed time *)

Lemma split_after {A} (l1 l2 pre post : list A) (x : A) :
  l1 ++ l2 = pre ++ x :: post -> x ∉ l2 ->
  exists k, l1 = pre ++ x :: k /\ post = k ++ l2.
Proof.
  revert l1. induction pre as [|p pre IH]; intros l1 Heq Hni.
  - destruct l1 as [|a l1]; simpl in Heq.
    + destruct Hni. rewrite Heq. now left.
    + injection Heq as -> <-. now exists l1.
  - destruct l1 as [|a l1]; simpl in Heq.
    + destruct Hni. rewrite Heq. right. apply elem_of_app. right. now left.
    + injection Heq as -> Heq. destruct (IH l1 Heq Hni) as (k & -> & ->).
      now exists k.
Qed.

Lemma stage_run_total tx table createSQL copySQL rows evs res pre n m s post :
  stage_run tx table createSQL copySQL rows evs res ->
  evs = pre ++ Logged (LogTotal n m s) :: post ->
  post = [] /\ res = inl n /\ failures pre = [] /\
  exists pre' n6, pre = pre' ++ [Called (TxCommit tx) (Ok n6)].
Proof.
  intros Hrun.
  assert (Hcopy : forall evs0 c r0, copy_run table rows c evs0 r0 ->
                                    Logged (LogTotal n m s) ∉ evs0).
  { intros evs0 c r0 Hc. exact (copy_run_no_total _ _ _ _ _ _ _ _ Hc). }
  inversion Hrun as [err|n1 err|n1 n2 err|n1 n2 n3 evs0 err Hc|n1 n2 n3 evs0 c err Hc
                    |n1 n2 n3 evs0 c n4 err Hc|n1 n2 n3 evs0 c n4 n5 err Hc
                    |n1 n2 n3 evs0 c n4 n5 n6 m' s' Hc]; subst; intros Heq;
    try (match type of Heq with
         | ?l = _ => assert (Hin : Logged (LogTotal n m s) ∈ l)
                       by (rewrite Heq; apply elem_of_app; right; now left)
         end;
         unfold stage_opening in Hin;
         repeat (apply elem_of_app in Hin as [Hin|Hin]);
         try (now apply (Hcopy _ _ _ Hc) in Hin); inv_elem; fail).
  assert (Heq' : (stage_opening tx createSQL copySQL n1 n2 n3 ++ evs0
                    ++ [Called (StmtExec []) (Ok n4); Called StmtClose (Ok n5);
                        Called (TxCommit tx) (Ok n6)])
                 ++ [Logged (LogTotal c m' s')]
                 = pre ++ Logged (LogTotal n m s) :: post).
  { rewrite <- Heq, <- !app_assoc. reflexivity. }
  assert (Hni : Logged (LogTotal n m s) ∉
                  stage_opening tx createSQL copySQL n1 n2 n3 ++ evs0
                    ++ [Called (StmtExec []) (Ok n4); Called StmtClose (Ok n5);
                        Called (TxCommit tx) (Ok n6)]).
  { intros Hin. unfold stage_opening in Hin.
    repeat (apply elem_of_app in Hin as [Hin|Hin]);
      try (now apply (Hcopy _ _ _ Hc) in Hin); inv_elem. }
  destruct (split_before _ _ _ _ _ Heq' Hni) as (k & -> & Hk).
  destruct k as [|k0 k]; simpl in Hk; [|destruct k; discriminate].
  injection Hk as <- <- <- <-.
  split; [reflexivity|]. split; [reflexivity|]. rewrite app_nil_r. split.
  - unfold stage_opening. rewrite !failures_app, (copy_run_ok_failures _ _ _ _ _ Hc).
    reflexivity.
  - exists (stage_opening tx createSQL copySQL n1 n2 n3 ++ evs0
              ++ [Called (StmtExec []) (Ok n4); Called StmtClose (Ok n5)]), n6.
    rewrite <- !app_assoc. reflexivity.
Qed.

Section Elapsed.

Variable db : database.
Variable now : list (call * reply) -> Z.
Variable CopyIn : string -> list string -> string.

Ltac load_step :=
  match goal with
  | |- context [must db ?c ?tr] =>
      rewrite (must_eq db c tr); destruct (db (history tr) c)
  | |- context [Begin db ?tr] =>
      rewrite (Begin_eq db tr), ?begun_log; destruct (db (history tr) DbBegin)
  | |- context [copy_rows db ?table ?rows ?c ?tr] =>
      let evs := fresh "evs" in let res := fresh "res" in
      let Heq := fresh "Heq" in let Hrun := fresh "Hrun" in
      destruct (copy_rows_run db table rows c tr) as (evs & res & Heq & Hrun);
      rewrite Heq; destruct res
  end; cbv beta iota zeta; [|intros ?; discriminate].

(** The total that the staging load logs: the whole seconds between the
    clock on entry and the clock after the commit, as minutes and
    seconds. *)
Lemma stagingLoad_total table tempTable columns rows (tr tr' : trace) (c : Z) :
  stagingLoad db now CopyIn table tempTable columns rows tr = (tr', inl c) ->
  exists pre,
    let duration :=
      Z.quot (time_Sub (now (history pre)) (now (history tr))) time_Second in
    tr' = pre ++ [Logged (LogTotal c (Z.quot duration 60) (Z.rem duration 60))].
Proof.
  cbv beta iota zeta delta [stagingLoad bind time_Now log emit ret].
  do 7 load_step.
  intros H. injection H as <- <-. eexists. reflexivity.
Qed.

End Elapsed.

Lemma Upsert_stage_split
    (db : database) (now : list (call * reply) -> Z)
    (CopyIn : string -> list string -> string) (Template : Type)
    (ParseFiles : string -> FuncMap -> string -> Template + error)
    (Execute : Template -> upsertInfo -> string + error)
    (table idColumn : string) (columns : list string) (rows : list (list string))
    (hasRevisions : bool) (query revisionQuery : string) :
  buildQuery Template ParseFiles Execute table (tempTable_of table) idColumn columns
    hasRevisions = (query, revisionQuery, None) ->
  exists tr1 res1 rest,
    stagingLoad db now CopyIn table (tempTable_of table) columns rows [] = (tr1, res1) /\
    (Upsert db now CopyIn Template ParseFiles Execute
       table idColumn columns rows hasRevisions []).1 = tr1 ++ rest /\
    forall n m s, Logged (LogTotal n m s) ∉ rest.
Proof.
  intros Hbuild. unfold Upsert. rewrite Hbuild. unfold bind at 1.
  destruct (stagingLoad db now CopyIn table (tempTable_of table) columns rows [])
    as [tr1 [c|e]] eqn:Hstage.
  - unfold bind at 1.
    destruct (prepareIndex_run db (tempTable_of table) idColumn tr1)
      as (evs2 & res2 & Heq2 & Hrun2).
    rewrite Heq2.
    assert (Hno2 : forall n m s, Logged (LogTotal n m s) ∉ evs2).
    { intros n m s Hin. inversion Hrun2; subst; inv_elem. }
    destruct res2 as [[]|err].
    + destruct (mergePhase_run db query revisionQuery (tr1 ++ evs2))
        as (evs3 & res3 & Heq3 & Hrun3).
      rewrite Heq3. exists tr1, (inl c), (evs2 ++ evs3).
      split; [reflexivity|]. split; [simpl; now rewrite app_assoc|].
      intros n m s Hin. apply elem_of_app in Hin as [Hin|Hin];
        [exact (Hno2 _ _ _ Hin)|].
      inversion Hrun3; subst; unfold revision_events in Hin;
        try case_bool_decide; simpl in Hin; inv_elem.
    + exists tr1, (inl c), evs2. split; [reflexivity|]. split; [reflexivity|].
      exact Hno2.
  - exists tr1, (inr e), []. split; [reflexivity|].
    split; [simpl; now rewrite app_nil_r|]. intros n m s Hin. inv_elem.
Qed.

(** The line ["Processed %d rows total, took %d:%02d"] reports the time
    of the load alone: the clock is read on entry and directly after
    the commit of the first transaction, before the index is created.
    When the clock has not gone backwards the line holds the whole
    seconds between the two readings, split into minutes and a number
    of seconds below sixty. *)
Theorem total_line_reports_elapsed_time
    (db : database) (now : list (call * reply) -> Z)
    (CopyIn : string -> list string -> string) (Template : Type)
    (ParseFiles : string -> FuncMap -> string -> Template + error)
    (Execute : Template -> upsertInfo -> string + error)
    (table idColumn : string) (columns : list string) (rows : list (list string))
    (hasRevisions : bool) (pre : trace) (n m s : Z) (post : trace) :
  (Upsert db now CopyIn Template ParseFiles Execute
     table idColumn columns rows hasRevisions []).1
  = pre ++ Logged (LogTotal n m s) :: post ->
  now [] <= now (history pre) ->
  let seconds := time_Sub (now (history pre)) (now []) / time_Second in
  m = seconds / 60 /\ s = seconds mod 60 /\ 0 <= m /\ 0 <= s < 60 /\
  failures pre = [] /\
  exists pre' n6, pre = pre' ++ [Called (TxCommit 1) (Ok n6)].
Proof.
  destruct (buildQuery Template ParseFiles Execute table (tempTable_of table)
              idColumn columns hasRevisions) as [[query revisionQuery] [e|]] eqn:Hbuild.
  { rewrite (Upsert_build_failed db now CopyIn _ _ _ _ _ _ rows _ _ _ _ Hbuild).
    simpl. intros Heq. destruct pre; discriminate. }
  destruct (Upsert_stage_split db now CopyIn Template ParseFiles Execute
              table idColumn columns rows hasRevisions _ _ Hbuild)
    as (tr1 & res1 & rest & Hstage & -> & Hrest).
  intros Heq Hclock.
  destruct (split_after _ _ _ _ _ Heq (Hrest n m s)) as (k & Htr1 & _).
  destruct (stagingLoad_run db now CopyIn table (tempTable_of table) columns rows [])
    as (evs & res & Heq1 & Hshape).
  rewrite Hstage in Heq1. simpl in Heq1. injection Heq1 as <- <-.
  change (begun []) with 0%nat in Hshape.
  destruct (stage_run_total _ _ _ _ _ _ _ _ _ _ _ _ Hshape Htr1)
    as (-> & -> & Hf & Hlast).
  destruct (stagingLoad_total db now CopyIn _ _ _ _ _ _ _ Hstage) as (pre1 & Hpre1).
  cbv zeta in Hpre1. rewrite Htr1 in Hpre1.
  apply app_inj_tail in Hpre1 as [<- Hline]. injection Hline as -> ->.
  change (history []) with (@nil (call * reply)).
  assert (Hsub : 0 <= time_Sub (now (history pre)) (now [])).
  { unfold time_Sub, GoInt.int_min, GoInt.int_max. lia. }
  assert (Hsec : 0 <= time_Sub (now (history pre)) (now []) / time_Second).
  { apply Z.div_pos; [exact Hsub | reflexivity]. }
  intros seconds. subst seconds.
  rewrite (Z.quot_div_nonneg _ time_Second Hsub) by reflexivity.
  rewrite (Z.quot_div_nonneg _ 60 Hsec), (Z.rem_mod_nonneg _ 60 Hsec) by lia.
  split; [reflexivity|]. split; [reflexivity|].
  split; [apply Z.div_pos; lia|]. split; [apply Z.mod_pos_bound; lia|].
  split; [exact Hf | exact Hlast].
Qed.

Lemma total_line_reports_elapsed_time_witness :
  let run := Sample.run Sample.db_ok "public.users" "id" ["id"; "name"]
               [["1"; "Alice"]; ["2"; ""]] false in
  let pre := take 9 run.1 in
  run.1 = pre ++ Logged (LogTotal 2 4 0) :: drop 10 run.1 /\
  Sample.clock [] <= Sample.clock (history pre) /\
  4 = time_Sub (Sample.clock (history pre)) (Sample.clock []) / time_Second / 60 /\
  0 = (time_Sub (Sample.clock (history pre)) (Sample.clock []) / time_Second) mod 60.
Proof.
  intros run pre.
  assert (Heq : run.1 = pre ++ Logged (LogTotal 2 4 0) :: drop 10 run.1)
    by reflexivity.
  assert (Hclock : Sample.clock [] <= Sample.clock (history pre))
    by (vm_compute; discriminate).
  split; [exact Heq|]. split; [exact Hclock|].
  destruct (total_line_reports_elapsed_time Sample.db_ok Sample.clock Sample.CopyIn
              string Sample.ParseFiles Sample.Execute "public.users" "id"
              ["id"; "name"] [["1"; "Alice"]; ["2"; ""]] false
              pre 2 4 0 (drop 10 run.1) Heq Hclock) as (Hm & Hs & _).
  split; [exact Hm | exact Hs].
Defined.

(** ** The two revisions of the loop *)

Lemma legacy_copy_rows_cons db table rawRow rest (tr : trace) :
  Legacy.copy_rows db table (rawRow :: rest) tr =
  match db (history tr) (StmtExec (convert_row rawRow)) with
  | Ok n =>
      Legacy.copy_rows db table rest
        (tr ++ [Called (StmtExec (convert_row rawRow)) (Ok n)])
  | Failed err =>
      (tr ++ [Called (StmtExec (convert_row rawRow)) (Failed err);
              Printed table (convert_row rawRow)], inr err)
  end.
Proof.
  cbn [Legacy.copy_rows]. unfold bind at 1. unfold do_call at 1.
  destruct (db (history tr) (StmtExec (convert_row rawRow))) as [n|err].
  - reflexivity.
  - unfold bind, emit, throw. now rewrite <- app_assoc.
Qed.

Lemma not_logged_progress_line (c : Z) : List.filter not_logged (progress_line c) = [].
Proof. unfold progress_line. now destruct (GoInt.rem c 100000 =? 0). Qed.

(** The loop of the later revision does what the loop of the earlier
    one did: started after the same calls, both send the same calls and
    get the same answers, both fail on the same record with the same
    error, and the events of the later loop are those of the earlier
    one with the progress lines added. *)
Theorem copy_loops_agree (db : database) (table : string) (rows : list (list string))
    (c : Z) (tr tr' : trace) :
  history tr = history tr' ->
  let later := copy_rows db table rows c tr in
  let earlier := Legacy.copy_rows db table rows tr' in
  history later.1 = history earlier.1 /\
  (forall err, later.2 = inr err <-> earlier.2 = inr err) /\
  exists evs evs',
    later.1 = tr ++ evs /\ earlier.1 = tr' ++ evs' /\
    List.filter not_logged evs = evs'.
Proof.
  revert c tr tr'. induction rows as [|rawRow rest IH]; intros c tr tr' Hh.
  - simpl. split; [exact Hh|]. split; [intros err; split; discriminate|].
    exists [], []. now rewrite !app_nil_r.
  - cbv zeta. rewrite copy_rows_cons, legacy_copy_rows_cons, Hh.
    destruct (db (history tr') (StmtExec (convert_row rawRow))) as [n|err].
    + destruct (IH (GoInt.add c 1)
                  (tr ++ Called (StmtExec (convert_row rawRow)) (Ok n)
                      :: progress_line (GoInt.add c 1))
                  (tr' ++ [Called (StmtExec (convert_row rawRow)) (Ok n)]))
        as (Hhist & Herr & evs & evs' & Hl & He & Hf).
      { rewrite !history_app, Hh.
        change (history (?ev :: progress_line ?x))
          with (history [ev] ++ history (progress_line x)).
        now rewrite history_progress_line, app_nil_r. }
      split; [exact Hhist|]. split; [exact Herr|].
      exists (Called (StmtExec (convert_row rawRow)) (Ok n)
                :: progress_line (GoInt.add c 1) ++ evs),
             (Called (StmtExec (convert_row rawRow)) (Ok n) :: evs').
      split; [rewrite Hl, <- app_assoc; reflexivity|].
      split; [rewrite He, <- app_assoc; reflexivity|].
      cbn [List.filter not_logged].
      now rewrite List.filter_app, not_logged_progress_line, Hf.
    + simpl. split; [now rewrite !history_app, Hh|].
      split; [intros e; split; intros H; injection H as ->; reflexivity|].
      now eexists _, _.
Qed.

Lemma copy_loops_agree_witness :
  let db := Sample.db_refusing
              (fun c => bool_decide (c = StmtExec [IString "x"; INil]))
              (mkError "pq: invalid input syntax") in
  let rows := [["1"; "Ann"]; ["x"; ""]; ["3"; "Cy"]] in
  history (@nil event) = history (@nil event) /\
  history (copy_rows db "users" rows 99999 []).1
  = history (Legacy.copy_rows db "users" rows []).1.
Proof.
  intros db rows. split; [reflexivity|].
  exact (proj1 (copy_loops_agree db "users" rows 99999 [] [] eq_refl)).
Defined.

(** ** The log of a run *)

Lemma logs_progress_line (c : Z) :
  logs (progress_line c) = LogProcessed <$> progress (progress_line c).
Proof. unfold progress_line. now destruct (GoInt.rem c 100000 =? 0). Qed.

Lemma copy_run_logs table rows c evs res :
  copy_run table rows c evs res -> logs evs = LogProcessed <$> progress evs.
Proof.
  induction 1 as [c|rawRow rest c err|rawRow rest c n evs res _ IH];
    try reflexivity.
  change (logs (Called (StmtExec (convert_row rawRow)) (Ok n)
                  :: progress_line (GoInt.add c 1) ++ evs))
    with (logs (progress_line (GoInt.add c 1) ++ evs)).
  change (progress (Called (StmtExec (convert_row rawRow)) (Ok n)
                      :: progress_line (GoInt.add c 1) ++ evs))
    with (progress (progress_line (GoInt.add c 1) ++ evs)).
  now rewrite logs_app, progress_app, fmap_app, logs_progress_line, IH.
Qed.

(** The log of a run that returns [nil], line by line: the start, a
    progress line for every 100,000 records, the total with the number
    of records, the index, the statistics, the two lines of the
    revisions when there is a revision statement, the upsert, the
    commit and ["Done"]. *)
Theorem Upsert_success_log
    (db : database) (now : list (call * reply) -> Z)
    (CopyIn : string -> list string -> string) (Template : Type)
    (ParseFiles : string -> FuncMap -> string -> Template + error)
    (Execute : Template -> upsertInfo -> string + error)
    (table idColumn : string) (columns : list string) (rows : list (list string))
    (hasRevisions : bool) (query revisionQuery : string) :
  buildQuery Template ParseFiles Execute table (tempTable_of table) idColumn columns
    hasRevisions = (query, revisionQuery, None) ->
  Z.of_nat (length rows) <= GoInt.int_max ->
  let run := Upsert db now CopyIn Template ParseFiles Execute
               table idColumn columns rows hasRevisions [] in
  run.2 = inl tt ->
  exists m s affected,
    logs run.1 =
      [LogStarting]
      ++ (LogProcessed <$> List.filter milestone (Z.of_nat <$> seq 1 (length rows)))
      ++ [LogTotal (Z.of_nat (length rows)) m s; LogCreatingIndex; LogAnalyzing]
      ++ (if bool_decide (revisionQuery <> "")
          then [LogCalculating; LogUpdatedRevision affected] else [])
      ++ [LogPerforming; LogCommitting; LogDone].
Proof.
  intros Hbuild Hmax run. subst run.
  destruct (Upsert db now CopyIn Template ParseFiles Execute
              table idColumn columns rows hasRevisions []) as [tr res] eqn:Hrun.
  destruct (Upsert_run _ _ _ _ _ _ _ _ _ _ _ _ _ _ _ Hbuild Hrun) as [Hshape _].
  simpl. intros ->.
  inversion Hshape as [| |evs1 c evs2 evs3 res' Hs Hp Hm]; subst.
  inversion Hs as [| | | | | | |n1 n2 n3 evs0 c0 n4 n5 n6 m s Hc]; subst.
  inversion Hp as [|n r]; subst.
  inversion Hm as [| | | |n1' a n2' n3']; subst.
  destruct (copy_run_counts _ _ _ _ _ Hc) as [-> Hacc]; [lia|simpl; lia|].
  exists m, s, a. unfold stage_opening, revision_events.
  rewrite !logs_app, (copy_run_logs _ _ _ _ _ Hc).
  rewrite (copy_run_progress _ _ _ _ _ Hc) by lia.
  rewrite Hacc, <- !app_assoc. case_bool_decide; reflexivity.
Qed.

Lemma Upsert_success_log_witness :
  let run := Sample.run Sample.db_ok "public.users" "id" ["id"; "name"]
               [["1"; "Alice"]; ["2"; ""]] true in
  buildQuery string Sample.ParseFiles Sample.Execute "public.users"
    (tempTable_of "public.users") "id" ["id"; "name"] true
  = ("upsert.sql.template public.users public_users_temp",
     "updaterevisions.sql.template public.users public_users_temp", None) /\
  2 <= GoInt.int_max /\
  run.2 = inl tt /\
  exists m s affected,
    logs run.1 =
      [LogStarting; LogTotal 2 m s; LogCreatingIndex; LogAnalyzing;
       LogCalculating; LogUpdatedRevision affected;
       LogPerforming; LogCommitting; LogDone].
Proof.
  intros run.
  assert (Hmax : 2 <= GoInt.int_max) by (vm_compute; discriminate).
  split; [reflexivity|]. split; [exact Hmax|]. split; [reflexivity|].
  exact (Upsert_success_log Sample.db_ok Sample.clock Sample.CopyIn
           string Sample.ParseFiles Sample.Execute "public.users" "id"
           ["id"; "name"] [["1"; "Alice"]; ["2"; ""]] true
           "upsert.sql.template public.users public_users_temp"
           "updaterevisions.sql.template public.users public_users_temp"
           eq_refl Hmax eq_refl).
Defined.

(** ** Where a failed run stops *)

Lemma stage_run_stop tx table createSQL copySQL rows evs err :
  stage_run tx table createSQL copySQL rows evs (inr err) ->
  exists pre c, failures pre = [] /\
    (evs = pre ++ [Called c (Failed err)] \/
     exists row, c = StmtExec row /\
                 evs = pre ++ [Called c (Failed err); Printed table row]).
Proof.
  inversion 1 as [e|n1 e|n1 n2 e|n1 n2 n3 evs0 e Hc|n1 n2 n3 evs0 c e Hc
                 |n1 n2 n3 evs0 c n4 e Hc|n1 n2 n3 evs0 c n4 n5 e Hc|]; subst.
  - exists [Logged LogStarting], DbBegin. split; [reflexivity|now left].
  - exists [Logged LogStarting; Called DbBegin (Ok n1)], (TxExec tx createSQL).
    split; [reflexivity|now left].
  - exists [Logged LogStarting; Called DbBegin (Ok n1);
            Called (TxExec tx createSQL) (Ok n2)], (TxPrepare tx copySQL).
    split; [reflexivity|now left].
  - destruct (copy_run_failed _ _ _ _ _ Hc) as (pre & i & rawRow & -> & _ & _ & Hf).
    exists (stage_opening tx createSQL copySQL n1 n2 n3 ++ pre),
           (StmtExec (convert_row rawRow)).
    split; [now rewrite failures_app, Hf|].
    right. exists (convert_row rawRow). split; [reflexivity|].
    now rewrite <- app_assoc.
  - exists (stage_opening tx createSQL copySQL n1 n2 n3 ++ evs0), (StmtExec []).
    split; [now rewrite failures_app, (copy_run_ok_failures _ _ _ _ _ Hc)|].
    left. now rewrite <- app_assoc.
  - exists (stage_opening tx createSQL copySQL n1 n2 n3 ++ evs0
              ++ [Called (StmtExec []) (Ok n4)]), StmtClose.
    split; [now rewrite !failures_app, (copy_run_ok_failures _ _ _ _ _ Hc)|].
    left. now rewrite <- !app_assoc.
  - exists (stage_opening tx createSQL copySQL n1 n2 n3 ++ evs0
              ++ [Called (StmtExec []) (Ok n4); Called StmtClose (Ok n5)]),
           (TxCommit tx).
    split; [now rewrite !failures_app, (copy_run_ok_failures _ _ _ _ _ Hc)|].
    left. now rewrite <- !app_assoc.
Qed.

Lemma failures_revision_events tx revisionQuery affected :
  failures (revision_events tx revisionQuery affected) = [].
Proof. unfold revision_events. now case_bool_decide. Qed.

Lemma merge_run_stop tx query revisionQuery evs err :
  merge_run tx query revisionQuery evs (inr err) ->
  exists pre c, failures pre = [] /\ evs = pre ++ [Called c (Failed err)].
Proof.
  inversion 1 as [e|n1 e Hrev|n1 a e|n1 a n2 e|]; subst.
  - exists [], DbBegin. now split.
  - exists [Called DbBegin (Ok n1); Logged LogCalculating], (TxExec tx revisionQuery).
    now split.
  - exists (Called DbBegin (Ok n1) :: revision_events tx revisionQuery a
              ++ [Logged LogPerforming]), (TxExec tx query).
    split; [|simpl; now rewrite <- app_assoc].
    change (failures (Called DbBegin (Ok n1) :: ?l)) with (failures l).
    now rewrite failures_app, failures_revision_events.
  - exists (Called DbBegin (Ok n1) :: revision_events tx revisionQuery a
              ++ [Logged LogPerforming; Called (TxExec tx query) (Ok n2);
                  Logged LogCommitting]), (TxCommit tx).
    split; [|simpl; now rewrite <- app_assoc].
    change (failures (Called DbBegin (Ok n1) :: ?l)) with (failures l).
    now rewrite failures_app, failures_revision_events.
Qed.

Lemma legacy_run_stop tx table createSQL copySQL rows query evs err :
  legacy_run tx table createSQL copySQL rows query evs (inr err) ->
  exists pre c, failures pre = [] /\
    (evs = pre ++ [Called c (Failed err)] \/
     exists row, c = StmtExec row /\
                 evs = pre ++ [Called c (Failed err); Printed table row]).
Proof.
  inversion 1 as [e|n1 e|n1 n2 e|n1 n2 n3 evs0 e Hc|n1 n2 n3 evs0 e Hc
                 |n1 n2 n3 evs0 n4 e Hc|n1 n2 n3 evs0 n4 n5 e Hc|]; subst.
  - exists [], DbBegin. split; [reflexivity|now left].
  - exists [Called DbBegin (Ok n1)], (TxExec tx createSQL).
    split; [reflexivity|now left].
  - exists [Called DbBegin (Ok n1); Called (TxExec tx createSQL) (Ok n2)],
           (TxPrepare tx copySQL).
    split; [reflexivity|now left].
  - destruct (legacy_copy_run_failed _ _ _ _ Hc) as (pre & i & rawRow & -> & _ & _ & Hf).
    exists (legacy_opening tx createSQL copySQL n1 n2 n3 ++ pre),
           (StmtExec (convert_row rawRow)).
    split; [now rewrite failures_app, Hf|].
    right. exists (convert_row rawRow). split; [reflexivity|].
    now rewrite <- app_assoc.
  - exists (legacy_opening tx createSQL copySQL n1 n2 n3 ++ evs0), (StmtExec []).
    split; [now rewrite failures_app, (legacy_copy_run_ok_failures _ _ _ Hc)|].
    left. now rewrite <- app_assoc.
  - exists (legacy_opening tx createSQL copySQL n1 n2 n3 ++ evs0
              ++ [Called (StmtExec []) (Ok n4)]), (TxExec tx query).
    split; [now rewrite !failures_app, (legacy_copy_run_ok_failures _ _ _ Hc)|].
    left. now rewrite <- !app_assoc.
  - exists (legacy_opening tx createSQL copySQL n1 n2 n3 ++ evs0
              ++ [Called (StmtExec []) (Ok n4); Called (TxExec tx query) (Ok n5)]),
           (TxCommit tx).
    split; [now rewrite !failures_app, (legacy_copy_run_ok_failures _ _ _ Hc)|].
    left. now rewrite <- !app_assoc.
Qed.

Lemma upsert_run_stop table idColumn copySQL rows query revisionQuery tr err :
  upsert_run table idColumn copySQL rows query revisionQuery tr (inr err) ->
  exists pre c,
    Forall (fun ce => ce.1 = DbExec (analyze_sql (tempTable_of table))) (failures pre) /\
    (tr = pre ++ [Called c (Failed err)] \/
     exists row, c = StmtExec row /\
                 tr = pre ++ [Called c (Failed err); Printed table row]).
Proof.
  inversion 1 as [evs e Hs|evs1 c evs2 e Hs Hp|evs1 c evs2 evs3 res' Hs Hp Hm]; subst.
  - destruct (stage_run_stop _ _ _ _ _ _ _ Hs) as (pre & c & Hf & Hend).
    exists pre, c. rewrite Hf. split; [constructor | exact Hend].
  - destruct (stage_run_end _ _ _ _ _ _ _ Hs) as (_ & _ & Hf & _).
    inversion Hp; subst.
    exists (evs1 ++ [Logged LogCreatingIndex]),
           (DbExec (create_index_sql (tempTable_of table) idColumn)).
    rewrite failures_app, Hf. split; [constructor|].
    left. now rewrite <- app_assoc.
  - destruct (stage_run_end _ _ _ _ _ _ _ Hs) as (_ & _ & Hf & _).
    destruct (merge_run_stop _ _ _ _ _ Hm) as (pre3 & c3 & Hf3 & ->).
    exists (evs1 ++ evs2 ++ pre3), c3.
    rewrite !failures_app, Hf, Hf3, app_nil_r.
    split; [|left; now rewrite <- !app_assoc].
    inversion Hp as [|n r]; subst. destruct r; repeat constructor.
Qed.

(** A run that returns an error stopped at the call that failed: that
    call is the last one, its error is the one returned, and nothing
    follows it but, for a refused record, the print of the row.  No call
    before it failed, except [ANALYZE].  This holds in both revisions;
    a run without any event returned the error of a template. *)
Theorem Upsert_stops_at_failed_call
    (db : database) (now : list (call * reply) -> Z)
    (CopyIn : string -> list string -> string) (Template : Type)
    (ParseFiles : string -> FuncMap -> string -> Template + error)
    (Execute : Template -> upsertInfo -> string + error)
    (LegacyExecute : Template -> Legacy.upsertInfo -> string + error)
    (table idColumn : string) (columns : list string) (rows : list (list string))
    (hasRevisions : bool) (run : trace * (unit + error)) (err : error) :
  run = Upsert db now CopyIn Template ParseFiles Execute
          table idColumn columns rows hasRevisions [] \/
  run = Legacy.Upsert db CopyIn Template ParseFiles LegacyExecute
          table idColumn columns rows [] ->
  run.2 = inr err ->
  run.1 = [] \/
  exists pre c,
    Forall (fun ce => ce.1 = DbExec (analyze_sql (tempTable_of table))) (failures pre) /\
    (run.1 = pre ++ [Called c (Failed err)] \/
     exists row, c = StmtExec row /\
                 run.1 = pre ++ [Called c (Failed err); Printed table row]).
Proof.
  intros [->| ->].
  - destruct (buildQuery Template ParseFiles Execute table (tempTable_of table)
                idColumn columns hasRevisions) as [[query revisionQuery] [e|]] eqn:Hbuild.
    { rewrite (Upsert_build_failed db now CopyIn _ _ _ _ _ _ rows _ _ _ _ Hbuild).
      now left. }
    destruct (Upsert db now CopyIn Template ParseFiles Execute
                table idColumn columns rows hasRevisions []) as [tr res] eqn:Hrun.
    destruct (Upsert_run _ _ _ _ _ _ _ _ _ _ _ _ _ _ _ Hbuild Hrun) as [Hshape _].
    simpl. intros ->. right. exact (upsert_run_stop _ _ _ _ _ _ _ _ Hshape).
  - destruct (Legacy.buildQuery Template ParseFiles LegacyExecute table
                (strings_Replace table "."%char "_"%char) idColumn columns)
      as [query [e|]] eqn:Hbuild.
    { rewrite (Legacy_Upsert_build_failed db CopyIn _ _ _ _ _ _ rows _ _ Hbuild).
      now left. }
    destruct (Legacy.Upsert db CopyIn Template ParseFiles LegacyExecute
                table idColumn columns rows []) as [tr res] eqn:Hrun.
    pose proof (Legacy_Upsert_run _ _ _ _ _ _ _ _ _ _ _ _ Hbuild Hrun) as Hshape.
    simpl. intros ->. right.
    destruct (legacy_run_stop _ _ _ _ _ _ _ _ Hshape) as (pre & c & Hf & Hend).
    exists pre, c. rewrite Hf. split; [constructor | exact Hend].
Qed.

Lemma Upsert_stops_at_failed_call_witness :
  let db := Sample.db_refusing
              (fun c => bool_decide (c = TxCommit 2)) (mkError "pq: deadlock detected") in
  let run := Sample.run db "users" "id" ["id"; "name"] [["1"; "Ann"]] true in
  run.2 = inr (mkError "pq: deadlock detected") /\
  (run.1 = [] \/
   exists pre c,
     Forall (fun ce => ce.1 = DbExec (analyze_sql (tempTable_of "users"))) (failures pre) /\
     (run.1 = pre ++ [Called c (Failed (mkError "pq: deadlock detected"))] \/
      exists row, c = StmtExec row /\
        run.1 = pre ++ [Called c (Failed (mkError "pq: deadlock detected"));
                        Printed "users" row])).
Proof.
  intros db run.
  assert (Hres : run.2 = inr (mkError "pq: deadlock detected")) by reflexivity.
  split; [exact Hres|].
  exact (Upsert_stops_at_failed_call db Sample.clock Sample.CopyIn string
           Sample.ParseFiles Sample.Execute Sample.LegacyExecute
           "users" "id" ["id"; "name"] [["1"; "Ann"]] true run _
           (or_introl eq_refl) Hres).
Defined.

(** ** The loop over a stream in two parts *)

(** The loop over a stream [rows1 ++ rows2] is the loop over [rows1]
    followed, when no record of [rows1] was refused, by the loop over
    [rows2] entered with the counter that the first one reached; when a
    record of [rows1] is refused nothing of [rows2] is sent. *)
Theorem copy_rows_app (db : database) (table : string)
    (rows1 rows2 : list (list string)) (c : Z) (tr : trace) :
  copy_rows db table (rows1 ++ rows2) c tr
  = bind (copy_rows db table rows1 c) (copy_rows db table rows2) tr.
Proof.
  revert c tr. induction rows1 as [|rawRow rest IH]; intros c tr.
  - reflexivity.
  - change ((rawRow :: rest) ++ rows2) with (rawRow :: (rest ++ rows2)).
    unfold bind. rewrite !copy_rows_cons.
    destruct (db (history tr) (StmtExec (convert_row rawRow))) as [n|err];
      [|reflexivity].
    rewrite IH. reflexivity.
Qed.

(** ** Duplicate identifiers and the unique index *)

Lemma answered_by_at db (seen pre : trace) (c : call) (r : reply) (post : trace) :
  answered_by db seen (pre ++ Called c r :: post) -> r = db (history (seen ++ pre)) c.
Proof.
  intros H. apply answered_by_app in H as [_ H]. simpl in H. exact (proj1 H).
Qed.

Lemma rows_clash (k : nat) (rows : list (list string)) (i j : nat)
    (r1 r2 : list string) (v : string) :
  i <> j -> rows !! i = Some r1 -> rows !! j = Some r2 ->
  r1 !! k = Some v -> r2 !! k = Some v -> v <> "" ->
  has_duplicate k (omap kept (convert_row <$> rows)) = true.
Proof.
  intros Hij H1 H2 Hv1 Hv2 Hv.
  destruct (Nat.lt_total i j) as [Hlt|[Heq|Hlt]]; [|contradiction|].
  - exact (has_duplicate_loaded k rows i j r1 r2 v Hlt H1 H2 Hv1 Hv2 Hv).
  - exact (has_duplicate_loaded k rows j i r2 r1 v Hlt H2 H1 Hv2 Hv1 Hv).
Qed.

(** C2 (amended): let the stream hold two records with the same
    identifier, other than the empty string.  Whatever the database
    does, [Upsert] sends the unique index only over a staging table that
    holds both records, and executes a statement of the merge only after
    the database has accepted that index.  Against a database that
    refuses a unique index over a column holding a value other than NULL
    twice, [Upsert] therefore returns an error, never opens the second
    transaction, executes and commits nothing outside the first, and
    sends at most the staging table, the copy and the index; when the
    load went through, the error is that of the index, returned directly
    after it. *)
Theorem duplicate_identifier_aborts
    (db : database) (now : list (call * reply) -> Z)
    (CopyIn : string -> list string -> string) (Template : Type)
    (ParseFiles : string -> FuncMap -> string -> Template + error)
    (Execute : Template -> upsertInfo -> string + error)
    (table idColumn : string) (columns : list string) (rows : list (list string))
    (hasRevisions : bool) (k i j : nat) (r1 r2 : list string) (v : string) :
  columns !! k = Some idColumn ->
  i <> j -> rows !! i = Some r1 -> rows !! j = Some r2 ->
  r1 !! k = Some v -> r2 !! k = Some v -> v <> "" ->
  let indexSQL := create_index_sql (tempTable_of table) idColumn in
  let run := Upsert db now CopyIn Template ParseFiles Execute
               table idColumn columns rows hasRevisions [] in
  (forall pre r post, run.1 = pre ++ Called (DbExec indexSQL) r :: post ->
      has_duplicate k (loaded (history pre)) = true /\
      r = db (history pre) (DbExec indexSQL)) /\
  (forall q r, (q, r) ∈ executed 2 run.1 ->
      exists pre n post, run.1 = pre ++ Called (DbExec indexSQL) (Ok n) :: post) /\
  ((forall h, has_duplicate k (loaded h) = true ->
              exists err, db h (DbExec indexSQL) = Failed err) ->
   (exists err, run.2 = inr err) /\
   (begun run.1 <= 1)%nat /\
   (forall tx, tx <> 1%nat -> executed tx run.1 = [] /\ commits tx run.1 = []) /\
   statements run.1 `prefix_of`
     [create_temp_sql table (tempTable_of table); CopyIn (tempTable_of table) columns;
      indexSQL] /\
   (forall tr1 c,
       (buildQuery Template ParseFiles Execute table (tempTable_of table) idColumn
          columns hasRevisions).2 = None ->
       stagingLoad db now CopyIn table (tempTable_of table) columns rows []
       = (tr1, inl c) ->
       exists err,
         db (history tr1) (DbExec indexSQL) = Failed err /\
         run = (tr1 ++ [Logged LogCreatingIndex; Called (DbExec indexSQL) (Failed err)],
                inr err))).
Proof.
  intros _ Hij H1 H2 Hv1 Hv2 Hv indexSQL run. subst indexSQL run.
  pose proof (rows_clash k rows i j r1 r2 v Hij H1 H2 Hv1 Hv2 Hv) as Hclash.
  assert (H21 : 2%nat <> 1%nat) by lia.
  destruct (buildQuery Template ParseFiles Execute table (tempTable_of table)
              idColumn columns hasRevisions) as [[query revisionQuery] [e|]] eqn:Hbuild.
  { rewrite (Upsert_build_failed db now CopyIn _ _ _ _ _ _ rows _ _ _ _ Hbuild). simpl.
    split; [intros [|? ?] ? ? ?; discriminate|].
    split; [intros q r Hin; inv_elem|].
    intros _. split; [now exists e|]. split; [unfold begun; simpl; lia|].
    split; [now intros tx _|]. split; [apply prefix_nil|].
    intros tr1 c Hnone. discriminate. }
  destruct (Upsert db now CopyIn Template ParseFiles Execute
              table idColumn columns rows hasRevisions []) as [tr res] eqn:Hrun.
  destruct (Upsert_run _ _ _ _ _ _ _ _ _ _ _ _ _ _ _ Hbuild Hrun) as [Hshape Hans].
  simpl.
  assert (Hindex : forall pre r post,
             tr = pre ++ Called (DbExec (create_index_sql (tempTable_of table) idColumn)) r
                    :: post ->
             has_duplicate k (loaded (history pre)) = true /\
             r = db (history pre) (DbExec (create_index_sql (tempTable_of table) idColumn))).
  { intros pre r post Heq.
    destruct (upsert_run_DbExec _ _ _ _ _ _ _ _ _ _ _ _ Hshape Heq)
      as (_ & _ & _ & _ & _ & Hl).
    rewrite Hl. split; [exact Hclash|].
    rewrite Heq in Hans. exact (answered_by_at _ _ _ _ _ _ Hans). }
  assert (Hmerge : forall q r, (q, r) ∈ executed 2 tr ->
             exists pre n post,
               tr = pre ++ Called (DbExec (create_index_sql (tempTable_of table) idColumn))
                             (Ok n) :: post).
  { intros q r Hin.
    inversion Hshape as [evs e Hs|evs1 c evs2 e Hs Hp|evs1 c evs2 evs3 res' Hs Hp Hm];
      subst.
    - rewrite (executed_stage 2 1 _ _ _ _ _ _ H21 Hs) in Hin. inv_elem.
    - destruct (prepare_run_facts _ _ _ _ Hp) as (He & _).
      rewrite executed_app, (executed_stage 2 1 _ _ _ _ _ _ H21 Hs), He in Hin.
      simpl in Hin. inv_elem.
    - inversion Hp as [|n r0]; subst.
      exists (evs1 ++ [Logged LogCreatingIndex]), n,
             ([Logged LogAnalyzing; Called (DbExec (analyze_sql (tempTable_of table))) r0]
                ++ evs3).
      now rewrite <- app_assoc. }
  split; [exact Hindex|]. split; [exact Hmerge|].
  intros Hdb.
  split; [|split; [|split; [|split]]].
  - inversion Hshape as [evs e Hs|evs1 c evs2 e Hs Hp|evs1 c evs2 evs3 res' Hs Hp Hm];
      subst; [now exists e..|].
    exfalso. inversion Hp as [|n r0]; subst.
    destruct (Hindex (evs1 ++ [Logged LogCreatingIndex]) (Ok n)
                ([Logged LogAnalyzing; Called (DbExec (analyze_sql (tempTable_of table))) r0]
                   ++ evs3)) as [Hdup Hr]; [now rewrite <- app_assoc|].
    destruct (Hdb _ Hdup) as [err Herr]. rewrite Herr in Hr. discriminate.
  - inversion Hshape as [evs e Hs|evs1 c evs2 e Hs Hp|evs1 c evs2 evs3 res' Hs Hp Hm];
      subst.
    + exact (proj1 (stage_run_end _ _ _ _ _ _ _ Hs)).
    + rewrite begun_app, (begun_prepare _ _ _ _ Hp).
      pose proof (proj1 (stage_run_end _ _ _ _ _ _ _ Hs)). lia.
    + exfalso. inversion Hp as [|n r0]; subst.
      destruct (Hindex (evs1 ++ [Logged LogCreatingIndex]) (Ok n)
                  ([Logged LogAnalyzing;
                    Called (DbExec (analyze_sql (tempTable_of table))) r0] ++ evs3))
        as [Hdup Hr]; [now rewrite <- app_assoc|].
      destruct (Hdb _ Hdup) as [err Herr]. rewrite Herr in Hr. discriminate.
  - intros tx Htx.
    inversion Hshape as [evs e Hs|evs1 c evs2 e Hs Hp|evs1 c evs2 evs3 res' Hs Hp Hm];
      subst.
    + split; [exact (executed_stage tx 1 _ _ _ _ _ _ Htx Hs)
             |exact (commits_stage tx 1 _ _ _ _ _ _ Htx Hs)].
    + destruct (prepare_run_facts _ _ _ _ Hp) as (He & Hc & _).
      rewrite executed_app, commits_app, He, Hc,
        (executed_stage tx 1 _ _ _ _ _ _ Htx Hs), (commits_stage tx 1 _ _ _ _ _ _ Htx Hs).
      now split.
    + exfalso. inversion Hp as [|n r0]; subst.
      destruct (Hindex (evs1 ++ [Logged LogCreatingIndex]) (Ok n)
                  ([Logged LogAnalyzing;
                    Called (DbExec (analyze_sql (tempTable_of table))) r0] ++ evs3))
        as [Hdup Hr]; [now rewrite <- app_assoc|].
      destruct (Hdb _ Hdup) as [err Herr]. rewrite Herr in Hr. discriminate.
  - inversion Hshape as [evs e Hs|evs1 c evs2 e Hs Hp|evs1 c evs2 evs3 res' Hs Hp Hm];
      subst.
    + destruct (statements_stage _ _ _ _ _ _ _ Hs) as [Hst _].
      etrans; [exact Hst|].
      now exists [create_index_sql (tempTable_of table) idColumn].
    + destruct (statements_stage _ _ _ _ _ _ _ Hs) as [_ Hst].
      inversion Hp; subst. rewrite statements_app, (Hst c eq_refl). reflexivity.
    + exfalso. inversion Hp as [|n r0]; subst.
      destruct (Hindex (evs1 ++ [Logged LogCreatingIndex]) (Ok n)
                  ([Logged LogAnalyzing;
                    Called (DbExec (analyze_sql (tempTable_of table))) r0] ++ evs3))
        as [Hdup Hr]; [now rewrite <- app_assoc|].
      destruct (Hdb _ Hdup) as [err Herr]. rewrite Herr in Hr. discriminate.
  - intros tr1 c _ Hstage.
    destruct (stagingLoad_run db now CopyIn table (tempTable_of table) columns rows [])
      as (evs & res0 & Heq & Hstageshape).
    rewrite Hstage in Heq. simpl in Heq. injection Heq as <- <-.
    change (begun []) with 0%nat in Hstageshape.
    assert (Hdup : has_duplicate k (loaded (history tr1)) = true)
      by (rewrite (stage_run_loaded _ _ _ _ _ _ _ Hstageshape); exact Hclash).
    destruct (Hdb _ Hdup) as [err Herr].
    exists err. split; [exact Herr|].
    rewrite <- Hrun. unfold Upsert. rewrite Hbuild. unfold bind at 1. rewrite Hstage.
    unfold bind at 1. unfold prepareIndex.
    unfold bind at 1. unfold log, emit.
    unfold bind at 1. rewrite must_eq.
    rewrite history_app. simpl. rewrite app_nil_r, Herr.
    now rewrite <- app_assoc.
Qed.

Lemma duplicate_identifier_aborts_witness :
  let indexSQL := create_index_sql (tempTable_of "public.users") "id" in
  let db := Sample.db_unique 0 indexSQL in
  let rows := [["7"; "Alice"]; ["8"; "Bob"]; ["7"; "Carol"]] in
  let run := Sample.run db "public.users" "id" ["id"; "name"] rows true in
  (["id"; "name"] !! 0%nat = Some "id" /\
   rows !! 0%nat = Some ["7"; "Alice"] /\ rows !! 2%nat = Some ["7"; "Carol"] /\
   "7" <> "") /\
  (forall h, has_duplicate 0 (loaded h) = true ->
             exists err, db h (DbExec indexSQL) = Failed err) /\
  (exists err, run.2 = inr err) /\
  (begun run.1 <= 1)%nat /\
  (forall tx, tx <> 1%nat -> executed tx run.1 = [] /\ commits tx run.1 = []) /\
  statements run.1 `prefix_of`
    [create_temp_sql "public.users" (tempTable_of "public.users");
     Sample.CopyIn (tempTable_of "public.users") ["id"; "name"]; indexSQL].
Proof.
  intros indexSQL db rows run.
  assert (Hne : "7" <> "") by discriminate.
  assert (Hdb : forall h, has_duplicate 0 (loaded h) = true ->
                          exists err, db h (DbExec indexSQL) = Failed err)
    by (intros h; apply db_unique_enforces).
  split; [repeat split; try reflexivity; exact Hne|]. split; [exact Hdb|].
  destruct (proj2 (proj2
              (duplicate_identifier_aborts db Sample.clock Sample.CopyIn string
                 Sample.ParseFiles Sample.Execute "public.users" "id" ["id"; "name"]
                 rows true 0 0 2 ["7"; "Alice"] ["7"; "Carol"] "7"
                 eq_refl ltac:(lia) eq_refl eq_refl eq_refl eq_refl Hne)) Hdb)
    as (Herr & Hb & Htx & Hst & _).
  split; [exact Herr|]. split; [exact Hb|]. split; [exact Htx | exact Hst].
Defined.

(** C2 as stated fails on records whose identifier is the empty string:
    they are stored as NULL, which a unique index does not compare.  The
    database that enforces the index accepts it over two such records,
    and the run returns [nil] with the revision statement and the upsert
    executed and committed. *)
Lemma duplicate_empty_identifiers_merge :
  let indexSQL := create_index_sql (tempTable_of "public.users") "id" in
  let db := Sample.db_unique 0 indexSQL in
  let rows := [[""; "Alice"]; [""; "Carol"]] in
  let run := Sample.run db "public.users" "id" ["id"; "name"] rows true in
  (rows !! 0%nat = Some [""; "Alice"] /\ rows !! 1%nat = Some [""; "Carol"]) /\
  (forall h, has_duplicate 0 (loaded h) = true ->
             exists err, db h (DbExec indexSQL) = Failed err) /\
  loaded (history run.1) = [[INil; IString "Alice"]; [INil; IString "Carol"]] /\
  run.2 = inl tt /\
  failures run.1 = [] /\
  executed 2 run.1
  = [("updaterevisions.sql.template public.users public_users_temp", Ok 0);
     ("upsert.sql.template public.users public_users_temp", Ok 0)] /\
  committed 2 run.1 = true.
Proof.
  intros indexSQL db rows run.
  split; [split; reflexivity|].
  split; [intros h; apply db_unique_enforces|].
  repeat split; reflexivity.
Qed.

(** ** The processed-row counter in a run *)

Lemma progress_none (l : list event) :
  (forall n, Logged (LogProcessed n) ∉ l) -> progress l = [].
Proof.
  induction l as [|ev l IH]; intros H; [reflexivity|].
  assert (Hl : progress l = []).
  { apply IH. intros n Hin. apply (H n). now right. }
  destruct ev as [c r|l0|t row]; try exact Hl.
  destruct l0 as [|n| | | | | | | |]; try exact Hl.
  destruct (H n). now left.
Qed.

Lemma accepted_none (l : list event) : appends l = [] -> accepted l = 0%nat.
Proof. intros H. unfold accepted. now rewrite H. Qed.

(** Where the loop sits in a staging load: either the load stopped
    before the loop, or its events are those of the loop between an
    opening without appends and an end that starts with the flush. *)
Lemma stage_run_loop tx table createSQL copySQL rows evs res :
  stage_run tx table createSQL copySQL rows evs res ->
  (appends evs = [] /\ (forall n, Logged (LogProcessed n) ∉ evs) /\
   (forall n m s, Logged (LogTotal n m s) ∉ evs) /\ exists e, res = inr e) \/
  exists pre0 evs0 res0 post0,
    evs = pre0 ++ evs0 ++ post0 /\ copy_run table rows 0 evs0 res0 /\
    appends pre0 = [] /\ (forall n, Logged (LogProcessed n) ∉ pre0) /\
    (forall n m s, Logged (LogTotal n m s) ∉ pre0) /\
    (forall n, Logged (LogProcessed n) ∉ post0) /\
    match res0 with
    | inr e => post0 = [] /\ res = inr e
    | inl c => (exists r, appends post0 = [([], r)]) /\
               (forall n m s, Logged (LogTotal n m s) ∈ post0 -> n = c) /\
               (forall c', res = inl c' ->
                  exists m s, Logged (LogTotal c m s) ∈ post0)
    end.
Proof.
  inversion 1 as [err|n1 err|n1 n2 err|n1 n2 n3 evs0 err Hc|n1 n2 n3 evs0 c err Hc
                 |n1 n2 n3 evs0 c n4 err Hc|n1 n2 n3 evs0 c n4 n5 err Hc
                 |n1 n2 n3 evs0 c n4 n5 n6 m s Hc]; subst.
  1-3: left; split; [reflexivity|]; split; [intros n Hin; inv_elem|];
       split; [intros n m s Hin; inv_elem | now eexists].
  all: right; eexists (stage_opening tx createSQL copySQL n1 n2 n3), evs0, _, _.
  all: split; [try reflexivity; now rewrite app_nil_r|].
  all: split; [exact Hc|]; split; [reflexivity|].
  all: split; [intros n Hin; unfold stage_opening in Hin; inv_elem|].
  all: split; [intros n m' s' Hin; unfold stage_opening in Hin; inv_elem|].
  all: split; [intros n Hin; inv_elem|].
  all: try (split; [reflexivity|reflexivity]).
  all: split; [now eexists|]; split; [intros n m' s' Hin; inv_elem; reflexivity|].
  all: intros c' Hc'; try discriminate.
  eexists _, _. do 3 (apply elem_of_cons; right). now left.
Qed.

Lemma upsert_run_loop table idColumn copySQL rows query revisionQuery tr res :
  upsert_run table idColumn copySQL rows query revisionQuery tr res ->
  (appends tr = [] /\ (forall n, Logged (LogProcessed n) ∉ tr) /\
   (forall n m s, Logged (LogTotal n m s) ∉ tr) /\ exists e, res = inr e) \/
  exists pre0 evs0 res0 post0,
    tr = pre0 ++ evs0 ++ post0 /\ copy_run table rows 0 evs0 res0 /\
    appends pre0 = [] /\ (forall n, Logged (LogProcessed n) ∉ pre0) /\
    (forall n m s, Logged (LogTotal n m s) ∉ pre0) /\
    (forall n, Logged (LogProcessed n) ∉ post0) /\
    match res0 with
    | inr e => post0 = [] /\ res = inr e
    | inl c => (exists r, appends post0 = [([], r)]) /\
               (forall n m s, Logged (LogTotal n m s) ∈ post0 -> n = c) /\
               (res = inl tt -> exists m s, Logged (LogTotal c m s) ∈ post0)
    end.
Proof.
  assert (Hmore : forall evs1 c more,
    stage_run 1 table (create_temp_sql table (tempTable_of table)) copySQL rows
      evs1 (inl c) ->
    appends more = [] -> (forall n, Logged (LogProcessed n) ∉ more) ->
    (forall n m s, Logged (LogTotal n m s) ∉ more) ->
    exists pre0 evs0 res0 post0,
      evs1 ++ more = pre0 ++ evs0 ++ post0 /\ copy_run table rows 0 evs0 res0 /\
      appends pre0 = [] /\ (forall n, Logged (LogProcessed n) ∉ pre0) /\
      (forall n m s, Logged (LogTotal n m s) ∉ pre0) /\
      (forall n, Logged (LogProcessed n) ∉ post0) /\
      match res0 with
      | inr e => post0 = [] /\ False
      | inl c0 => (exists r, appends post0 = [([], r)]) /\
                  (forall n m s, Logged (LogTotal n m s) ∈ post0 -> n = c0) /\
                  exists m s, Logged (LogTotal c0 m s) ∈ post0
      end).
  { intros evs1 c more Hs Ha Hp Ht.
    destruct (stage_run_loop _ _ _ _ _ _ _ Hs)
      as [(_ & _ & _ & e & He)|(pre0 & evs0 & res0 & post0 & -> & Hc & Hpre & Hnp
                                & Hnt & Hpp & Hend)]; [discriminate|].
    exists pre0, evs0, res0, (post0 ++ more).
    split; [now rewrite <- !app_assoc|]. split; [exact Hc|]. split; [exact Hpre|].
    split; [exact Hnp|]. split; [exact Hnt|].
    split; [intros n Hin; apply elem_of_app in Hin as [Hin|Hin];
            [exact (Hpp n Hin) | exact (Hp n Hin)]|].
    destruct res0 as [c0|e]; [|destruct Hend; discriminate].
    destruct Hend as ((r & Hr) & Htot & Hex).
    split; [exists r; now rewrite appends_app, Hr, Ha|].
    split.
    - intros n m s Hin. apply elem_of_app in Hin as [Hin|Hin];
        [exact (Htot n m s Hin) | destruct (Ht n m s Hin)].
    - destruct (Hex c eq_refl) as (m & s & Hin). exists m, s.
      apply elem_of_app. now left. }
  inversion 1 as [evs e Hs|evs1 c evs2 e Hs Hp|evs1 c evs2 evs3 res' Hs Hp Hm]; subst.
  - destruct (stage_run_loop _ _ _ _ _ _ _ Hs)
      as [Hleft|(pre0 & evs0 & res0 & post0 & -> & Hc & Hpre & Hnp & Hnt & Hpp & Hend)];
      [left; destruct Hleft as (Ha & Hp & Ht & _);
       split; [exact Ha|]; split; [exact Hp|]; split; [exact Ht | now exists e]|].
    right. exists pre0, evs0, res0, post0.
    split; [reflexivity|]. split; [exact Hc|]. split; [exact Hpre|].
    split; [exact Hnp|]. split; [exact Hnt|]. split; [exact Hpp|].
    destruct res0 as [c0|e0];
      [|destruct Hend as [Hp0 He]; injection He as <-; now split].
    destruct Hend as (Hr & Htot & _).
    split; [exact Hr|]. split; [exact Htot | discriminate].
  - right.
    destruct (Hmore evs1 c evs2 Hs) as (pre0 & evs0 & res0 & post0 & Heq & Hc & Hpre
                                        & Hnp & Hnt & Hpp & Hend).
    { exact (appends_prepare _ _ _ _ Hp). }
    { intros n Hin. inversion Hp; subst; inv_elem. }
    { intros n m s Hin. inversion Hp; subst; inv_elem. }
    exists pre0, evs0, res0, post0.
    split; [exact Heq|]. split; [exact Hc|]. split; [exact Hpre|].
    split; [exact Hnp|]. split; [exact Hnt|]. split; [exact Hpp|].
    destruct res0 as [c0|e0]; [|destruct Hend as [_ []]].
    destruct Hend as (Hr & Htot & _).
    split; [exact Hr|]. split; [exact Htot | discriminate].
  - right.
    destruct (Hmore evs1 c (evs2 ++ evs3) Hs) as (pre0 & evs0 & res0 & post0 & Heq & Hc
                                                  & Hpre & Hnp & Hnt & Hpp & Hend).
    { now rewrite appends_app, (appends_prepare _ _ _ _ Hp),
        (appends_merge _ _ _ _ _ Hm). }
    { intros n Hin. apply elem_of_app in Hin as [Hin|Hin];
        [inversion Hp; subst; inv_elem|].
      inversion Hm; subst; unfold revision_events in Hin;
        try case_bool_decide; simpl in Hin; inv_elem. }
    { intros n m s Hin. apply elem_of_app in Hin as [Hin|Hin];
        [inversion Hp; subst; inv_elem|].
      inversion Hm; subst; unfold revision_events in Hin;
        try case_bool_decide; simpl in Hin; inv_elem. }
    exists pre0, evs0, res0, post0.
    split; [exact Heq|]. split; [exact Hc|]. split; [exact Hpre|].
    split; [exact Hnp|]. split; [exact Hnt|]. split; [exact Hpp|].
    destruct res0 as [c0|e0]; [|destruct Hend as [_ []]].
    destruct Hend as (Hr & Htot & Hex).
    split; [exact Hr|]. split; [exact Htot | intros _; exact Hex].
Qed.

(** The counter in a run: the progress lines and the total against the
    records that the copy accepted. *)
Lemma upsert_run_counter table idColumn copySQL rows query revisionQuery tr res :
  upsert_run table idColumn copySQL rows query revisionQuery tr res ->
  Z.of_nat (length rows) <= GoInt.int_max ->
  (forall pre n post, tr = pre ++ Logged (LogProcessed n) :: post ->
      n = Z.of_nat (accepted pre) /\ 0 < n /\ n mod 100000 = 0) /\
  progress tr
  = List.filter milestone (Z.of_nat <$> seq 1 (counted (length rows) tr)) /\
  (forall n m s, Logged (LogTotal n m s) ∈ tr ->
      n = Z.of_nat (length rows) /\
      counted (length rows) tr = length rows /\
      (record_appends (length rows) tr).*1 = convert_row <$> rows) /\
  (res = inl tt ->
   exists m s, Logged (LogTotal (Z.of_nat (length rows)) m s) ∈ tr).
Proof.
  intros Hshape Hmax.
  destruct (upsert_run_loop _ _ _ _ _ _ _ _ Hshape)
    as [(Ha & Hnp & Hnt & e & ->)
       |(pre0 & evs0 & res0 & post0 & -> & Hc & Hpre & Hnp & Hnt & Hpp & Hend)].
  { unfold counted, record_appends. rewrite Ha, take_nil, (progress_none _ Hnp).
    split.
    - intros pre n post Heq. destruct (Hnp n). rewrite Heq.
      apply elem_of_app. right. now left.
    - split; [reflexivity|]. split; [|discriminate].
      intros n m s Hin. destruct (Hnt n m s Hin). }
  destruct (copy_run_appends _ _ _ _ _ Hc) as (k & Hk & Happ & Hall).
  assert (Hlen : length (appends evs0) = k).
  { apply (f_equal length) in Happ.
    rewrite !length_fmap, length_take in Happ. lia. }
  assert (Hrec : record_appends (length rows) (pre0 ++ evs0 ++ post0) = appends evs0).
  { unfold record_appends. rewrite !appends_app, Hpre, app_nil_l.
    destruct res0 as [c|e].
    - destruct Hend as ((r & Hr) & _). rewrite Hr.
      apply take_app_length'. rewrite Hlen. symmetry. exact (Hall c eq_refl).
    - destruct Hend as [-> _]. change (appends []) with (@nil (list value * reply)).
      rewrite app_nil_r. apply take_ge. lia. }
  assert (Hcount : counted (length rows) (pre0 ++ evs0 ++ post0) = accepted evs0).
  { unfold counted. now rewrite Hrec. }
  rewrite Hcount, Hrec.
  split; [|split; [|split]].
  - intros pre n post Heq.
    destruct (split_before _ _ _ _ _ Heq (Hnp n)) as (k1 & -> & Heq1).
    destruct (split_after _ _ _ _ _ Heq1 (Hpp n)) as (k2 & Hevs0 & _).
    destruct (copy_run_progress_at _ _ _ _ _ Hc ltac:(lia) ltac:(lia) k1 n k2 Hevs0)
      as (Hn & Hpos & Hmod).
    rewrite accepted_app, (accepted_none _ Hpre).
    split; [simpl; lia | split; assumption].
  - rewrite !progress_app, (progress_none _ Hnp), (progress_none _ Hpp), app_nil_r.
    rewrite (copy_run_progress _ _ _ _ _ Hc) by lia. reflexivity.
  - intros n m s Hin.
    apply elem_of_app in Hin as [Hin|Hin]; [destruct (Hnt n m s Hin)|].
    apply elem_of_app in Hin as [Hin|Hin];
      [destruct (copy_run_no_total _ _ _ _ _ n m s Hc Hin)|].
    destruct res0 as [c|e]; [|destruct Hend as [-> _]; inv_elem].
    destruct Hend as (_ & Htot & _). rewrite (Htot n m s Hin).
    destruct (copy_run_counts _ _ _ _ _ Hc) as [Hcc Hacc]; [lia..|].
    split; [lia|]. split; [exact Hacc|].
    now rewrite Happ, (Hall c eq_refl), firstn_all.
  - intros ->. destruct res0 as [c|e]; [|destruct Hend as [_ He]; discriminate].
    destruct Hend as (_ & _ & Hex). destruct (Hex eq_refl) as (m & s & Hin).
    destruct (copy_run_counts _ _ _ _ _ Hc) as [Hcc _]; [lia..|].
    exists m, s. replace (Z.of_nat (length rows)) with c by lia.
    apply elem_of_app. right. apply elem_of_app. now right.
Qed.

(** C9: in a run of [Upsert] over a stream that an [int] can count, the
    counter is the number of records that the copy has accepted.  Every
    progress line carries the number of appends accepted before it, a
    positive multiple of 100,000; the progress lines of the run are
    exactly the counts, from 1 to the number of accepted records, that
    are such multiples; the total line is logged only when every record
    of the stream was appended and accepted, and carries their number.
    The calls of the loop and its failure do not depend on the counter.
    With statements that build and a database that accepts every call,
    the run returns [nil] and logs the number of records as the total,
    which is 0 for the empty stream. *)
Theorem processed_row_counter
    (db : database) (now : list (call * reply) -> Z)
    (CopyIn : string -> list string -> string) (Template : Type)
    (ParseFiles : string -> FuncMap -> string -> Template + error)
    (Execute : Template -> upsertInfo -> string + error)
    (table idColumn : string) (columns : list string) (rows : list (list string))
    (hasRevisions : bool) :
  Z.of_nat (length rows) <= GoInt.int_max ->
  let run := Upsert db now CopyIn Template ParseFiles Execute
               table idColumn columns rows hasRevisions [] in
  (forall pre n post, run.1 = pre ++ Logged (LogProcessed n) :: post ->
      n = Z.of_nat (accepted pre) /\ 0 < n /\ n mod 100000 = 0) /\
  progress run.1
  = List.filter milestone (Z.of_nat <$> seq 1 (counted (length rows) run.1)) /\
  (forall n m s, Logged (LogTotal n m s) ∈ run.1 ->
      n = Z.of_nat (length rows) /\
      counted (length rows) run.1 = length rows /\
      (record_appends (length rows) run.1).*1 = convert_row <$> rows) /\
  (forall (tr0 : trace) (c : Z),
      history (copy_rows db table rows c tr0).1
        = history (copy_rows db table rows 0 tr0).1 /\
      forall err, (copy_rows db table rows c tr0).2 = inr err <->
                  (copy_rows db table rows 0 tr0).2 = inr err) /\
  ((forall h c, is_ok (db h c) = true) ->
   (buildQuery Template ParseFiles Execute table (tempTable_of table) idColumn columns
      hasRevisions).2 = None ->
   run.2 = inl tt /\
   (exists m s, Logged (LogTotal (Z.of_nat (length rows)) m s) ∈ run.1) /\
   counted (length rows) run.1 = length rows /\
   progress run.1 = List.filter milestone (Z.of_nat <$> seq 1 (length rows))).
Proof.
  intros Hmax run. subst run.
  destruct (buildQuery Template ParseFiles Execute table (tempTable_of table)
              idColumn columns hasRevisions) as [[query revisionQuery] [e|]] eqn:Hbuild.
  { rewrite (Upsert_build_failed db now CopyIn _ _ _ _ _ _ rows _ _ _ _ Hbuild). simpl.
    split; [intros [|? ?] ? ? ?; discriminate|].
    unfold counted, record_appends. simpl. rewrite take_nil.
    split; [reflexivity|]. split; [intros n m s Hin; inv_elem|].
    split; [intros tr0 c; now apply copy_rows_counter_free | discriminate]. }
  destruct (Upsert db now CopyIn Template ParseFiles Execute
              table idColumn columns rows hasRevisions []) as [tr res] eqn:Hrun.
  destruct (Upsert_run _ _ _ _ _ _ _ _ _ _ _ _ _ _ _ Hbuild Hrun) as [Hshape Hans].
  destruct (upsert_run_counter _ _ _ _ _ _ _ _ Hshape Hmax)
    as (Hline & Hprog & Htotal & Hnil).
  simpl. split; [exact Hline|]. split; [exact Hprog|]. split; [exact Htotal|].
  split; [intros tr0 c; now apply copy_rows_counter_free|].
  intros Hok _.
  pose proof (answered_by_ok db [] tr Hok Hans) as Hnofail.
  destruct res as [[]|e].
  - split; [reflexivity|].
    destruct (Hnil eq_refl) as (m & s & Hin).
    destruct (Htotal _ _ _ Hin) as (_ & Hcount & _).
    split; [now exists m, s|]. split; [exact Hcount|].
    now rewrite Hprog, Hcount.
  - destruct (upsert_run_failed _ _ _ _ _ _ _ _ Hshape) as [c Hc].
    rewrite Hnofail in Hc. inv_elem.
Qed.

Lemma milestone_spec (n : Z) : milestone n = true <-> 0 < n /\ n mod 100000 = 0.
Proof.
  unfold milestone. rewrite andb_true_iff, Z.ltb_lt, Z.eqb_eq. reflexivity.
Qed.

(** The milestones among the counts from 1 to [n]: 100,000, 200,000 and
    so on, as many as 100,000 goes into [n]. *)
Lemma milestones_upto (n : nat) :
  List.filter milestone (Z.of_nat <$> seq 1 n)
  = (fun q => 100000 * Z.of_nat q) <$> seq 1 (Z.to_nat (Z.of_nat n / 100000)).
Proof.
  induction n as [|n IH]; [reflexivity|].
  rewrite seq_S, fmap_app, List.filter_app, IH. simpl plus.
  change (Z.of_nat <$> [S n]) with [Z.of_nat (S n)].
  cbn [List.filter].
  pose proof (Z.div_mod (Z.of_nat n) 100000 ltac:(lia)) as Hn.
  pose proof (Z.mod_pos_bound (Z.of_nat n) 100000 ltac:(lia)) as Hb.
  pose proof (Z.div_mod (Z.of_nat (S n)) 100000 ltac:(lia)) as HSn.
  pose proof (Z.mod_pos_bound (Z.of_nat (S n)) 100000 ltac:(lia)) as HSb.
  assert (Hq : 0 <= Z.of_nat n / 100000) by (apply Z.div_pos; lia).
  destruct (milestone (Z.of_nat (S n))) eqn:Hm.
  - apply milestone_spec in Hm as [_ Hmod].
    assert (Hdiv : Z.of_nat (S n) / 100000 = Z.of_nat n / 100000 + 1) by lia.
    rewrite Hdiv, Z2Nat.inj_add by lia.
    change (Z.to_nat 1) with 1%nat. rewrite seq_app, fmap_app. simpl.
    f_equal. f_equal. lia.
  - assert (Hmod : Z.of_nat (S n) mod 100000 <> 0).
    { intros H0. assert (milestone (Z.of_nat (S n)) = true)
        by (apply milestone_spec; lia). congruence. }
    assert (Hdiv : Z.of_nat (S n) / 100000 = Z.of_nat n / 100000) by lia.
    rewrite Hdiv. apply app_nil_r.
Qed.

Lemma processed_row_counter_witness :
  let rows := replicate (Z.to_nat 100000) ["7"; "Alice"] in
  let run := Sample.run Sample.db_ok "public.users" "id" ["id"; "name"] rows false in
  Z.of_nat (length rows) <= GoInt.int_max /\
  (forall h c, is_ok (Sample.db_ok h c) = true) /\
  (buildQuery string Sample.ParseFiles Sample.Execute "public.users"
     (tempTable_of "public.users") "id" ["id"; "name"] false).2 = None /\
  run.2 = inl tt /\
  (exists m s, Logged (LogTotal 100000 m s) ∈ run.1) /\
  counted (length rows) run.1 = Z.to_nat 100000 /\
  progress run.1 = [100000].
Proof.
  intros rows run.
  assert (Hlen : length rows = Z.to_nat 100000) by apply length_replicate.
  assert (Hmax : Z.of_nat (length rows) <= GoInt.int_max)
    by (rewrite Hlen, Z2Nat.id by lia; vm_compute; discriminate).
  assert (Hok : forall h c, is_ok (Sample.db_ok h c) = true) by reflexivity.
  split; [exact Hmax|]. split; [exact Hok|]. split; [reflexivity|].
  destruct (proj2 (proj2 (proj2 (proj2
              (processed_row_counter Sample.db_ok Sample.clock Sample.CopyIn string
                 Sample.ParseFiles Sample.Execute "public.users" "id" ["id"; "name"]
                 rows false Hmax)))) Hok eq_refl)
    as (Hres & Htot & Hcount & Hprog).
  split; [exact Hres|].
  rewrite Hlen, Z2Nat.id in Htot by lia.
  rewrite Hlen, milestones_upto, Z2Nat.id in Hprog by lia.
  rewrite Hlen in Hcount at 2.
  split; [exact Htot|]. split; [exact Hcount | exact Hprog].
Defined.
